(** * realtime-danmaku: the message admission and moderation pipeline

    A shallow embedding of [backend/src/filterRules.js], of the counter
    utilities of [backend/src/database.js] and of the room handlers of
    [backend/src/socketHandlers.js], with the properties of the
    specification stated and proved over it.

    Conventions.
    - A JavaScript string is the list of its UTF-16 code units ([list N]);
      [s.length] is [length s] and [s[j]] is the one-unit string [[c]].
    - [for (const ch of s)] iterates code points: a high surrogate followed
      by a low surrogate is one two-unit element ([codePoints]).
    - A JavaScript [Map] or [Set] whose iteration order is used is an
      insertion-ordered list; the others are stdpp's [gmap] and [gset].
    - An asynchronous function is embedded twice: as one call run from its
      first line to its last with nothing in between, and, for the callers
      that do not await it, as the part that runs inside the caller
      followed by one step for each later part. *)

From Stdlib Require Import ZArith NArith Lia Ascii String Sorted.
From stdpp Require Import base option list gmap sets strings.

Set Warnings "-register-all".

Open Scope N_scope.
Open Scope nat_scope.

(** ** JavaScript values and strings *)

Module JS.

Abbreviation jsstring := (list N).

(** An ASCII literal of the source, as code units. *)
Definition lit (s : string) : jsstring :=
  (fun a => N_of_ascii a) <$> list_ascii_of_string s.

(** ['*'] *)
Definition star : N := 42%N.

Definition isHighSurrogate (c : N) : bool :=
  ((55296 <=? c) && (c <=? 56319))%N.
Definition isLowSurrogate (c : N) : bool :=
  ((56320 <=? c) && (c <=? 57343))%N.

(** The string iterator: [for (const ch of s)]. *)
Fixpoint codePoints (s : jsstring) : list jsstring :=
  match s with
  | [] => []
  | c :: rest =>
      match rest with
      | d :: rest' =>
          if isHighSurrogate c && isLowSurrogate d
          then [c; d] :: codePoints rest'
          else [c] :: codePoints rest
      | [] => [[c]]
      end
  end.

(** WhiteSpace and LineTerminator code units, as removed by
    [String.prototype.trim]. *)
Definition isWhiteSpace (c : N) : bool :=
  ((9 <=? c) && (c <=? 13)
   || (c =? 32) || (c =? 160) || (c =? 5760)
   || (8192 <=? c) && (c <=? 8202)
   || (c =? 8232) || (c =? 8233) || (c =? 8239) || (c =? 8287)
   || (c =? 12288) || (c =? 65279))%N.

Fixpoint trimStart (s : jsstring) : jsstring :=
  match s with
  | c :: rest => if isWhiteSpace c then trimStart rest else s
  | [] => []
  end.

Definition trimEnd (s : jsstring) : jsstring :=
  reverse (trimStart (reverse s)).

Definition trim (s : jsstring) : jsstring := trimEnd (trimStart s).

(** The values a message field can hold.  Numbers are integers here;
    [JArr n] is an array of length [n] and [JObj] a plain object (no
    [length] and no [charCodeAt] property). *)
Inductive jsval : Type :=
| JUndefined
| JNull
| JBool (b : bool)
| JNum (z : Z)
| JStr (s : jsstring)
| JArr (len : nat)
| JObj.

(** ToBoolean *)
Definition truthy (v : jsval) : bool :=
  match v with
  | JUndefined | JNull => false
  | JBool b => b
  | JNum z => negb (z =? 0)%Z
  | JStr s => negb (bool_decide (s = []))
  | JArr _ | JObj => true
  end.

(** [typeof v === 'string'] *)
Definition isString (v : jsval) : bool :=
  match v with JStr _ => true | _ => false end.

(** ToInt32 of an integer. *)
Definition toInt32 (z : Z) : Z :=
  ((z + 2147483648) mod 4294967296 - 2147483648)%Z.

Definition digit36 (d : N) : N :=
  (if d <? 10 then 48 + d else 87 + d)%N.

Fixpoint toString36_aux (fuel : nat) (n : N) (acc : jsstring) : jsstring :=
  match fuel with
  | O => acc
  | S fuel' =>
      let acc' := digit36 (n mod 36) :: acc in
      if (n / 36 =? 0)%N then acc' else toString36_aux fuel' (n / 36) acc'
  end.

(** [n.toString(36)] for [0 <= n <= 2^31] (seven digits are enough). *)
Definition toString36 (n : N) : jsstring := toString36_aux 7 n [].

End JS.

Import JS.

Arguments lit : simpl never.

(** ** The sensitive-word trie ([class TrieNode], [class Trie]) *)

Module Trie.

(** [children] is a [Map] from one iterated character to a node, kept in
    insertion order. *)
Inductive TrieNode : Type :=
| Node (isEnd : bool) (children : list (jsstring * TrieNode)).

Definition isEnd (n : TrieNode) : bool :=
  match n with Node e _ => e end.
Definition children (n : TrieNode) : list (jsstring * TrieNode) :=
  match n with Node _ c => c end.

(** [new TrieNode()] *)
Definition newNode : TrieNode := Node false [].

(** [Map.prototype.get] *)
Fixpoint Map_get {V} (k : jsstring) (m : list (jsstring * V)) : option V :=
  match m with
  | [] => None
  | (k', v) :: m' => if decide (k = k') then Some v else Map_get k m'
  end.

(** [Map.prototype.set]: an existing key keeps its place. *)
Fixpoint Map_set {V} (k : jsstring) (v : V) (m : list (jsstring * V))
  : list (jsstring * V) :=
  match m with
  | [] => [(k, v)]
  | (k', v') :: m' =>
      if decide (k = k') then (k, v) :: m' else (k', v') :: Map_set k v m'
  end.

(** The loop of [addWord] from [node] on: the child for [char] is created
    when missing, the walk continues in it, and the last node is marked. *)
Fixpoint addPath (chars : list jsstring) (node : TrieNode) : TrieNode :=
  match chars with
  | [] => Node true (children node)
  | char :: rest =>
      let child :=
        match Map_get char (children node) with
        | Some n => n
        | None => newNode
        end in
      Node (isEnd node) (Map_set char (addPath rest child) (children node))
  end.

(** [addWord(word)], on the root. *)
Definition addWord (word : jsstring) (root : TrieNode) : TrieNode :=
  addPath (codePoints word) root.

(** [new Trie()] followed by [addWord] for each word of the list, as
    [initializeFilterRules] and [updateSensitiveWords] do. *)
Definition build (words : list jsstring) : TrieNode :=
  foldl (fun root w => addWord w root) newNode words.

Record Match : Type := mkMatch {
  word : jsstring;
  start : nat;
  end_ : nat
}.

(** The inner [while] of [check]: from [node], at offset [j] of a walk
    started at [i], with [rest] the text from [j] on. *)
Fixpoint walk (node : TrieNode) (rest : jsstring) (i j : nat)
    (currentWord : jsstring) : list Match :=
  match rest with
  | [] => []
  | c :: rest' =>
      match Map_get [c] (children node) with
      | None => []
      | Some child =>
          let currentWord' := currentWord ++ [c] in
          (if isEnd child then [mkMatch currentWord' i (S j)] else [])
            ++ walk child rest' i (S j) currentWord'
      end
  end.

(** The outer [for] of [check], from offset [i] with [suffix] the text
    from [i] on. *)
Fixpoint scanFrom (root : TrieNode) (i : nat) (suffix : jsstring)
  : list Match :=
  match suffix with
  | [] => []
  | _ :: tl => walk root suffix i i [] ++ scanFrom root (S i) tl
  end.

Record CheckResult : Type := mkCheck {
  hasSensitive : bool;
  words : list Match
}.

Definition check (root : TrieNode) (text : jsstring) : CheckResult :=
  let sensitiveWords := scanFrom root 0 text in
  mkCheck (0 <? length sensitiveWords) sensitiveWords.

(** [Array.prototype.sort((a, b) => b.word.length - a.word.length)]: a
    stable sort by descending word length. *)
Fixpoint insertDesc (a : Match) (l : list Match) : list Match :=
  match l with
  | [] => [a]
  | b :: l' =>
      if length (word a) <? length (word b)
      then b :: insertDesc a l'
      else a :: b :: l'
  end.

Definition sortDesc (l : list Match) : list Match :=
  foldr insertDesc [] l.

(** One turn of the replacement loop of [filter].  [uniquePositions] is
    the [Set] of keys [`${start}-${end}`], as the pairs they print, in
    insertion order. *)
Definition maskStep (st : jsstring * list (nat * nat)) (wordInfo : Match)
  : jsstring * list (nat * nat) :=
  let '(filteredText, uniquePositions) := st in
  let positionKey := (start wordInfo, end_ wordInfo) in
  if bool_decide (positionKey ∈ uniquePositions)
  then st
  else
    let replacement := replicate (length (word wordInfo)) star in
    (take (start wordInfo) filteredText ++ replacement
       ++ drop (end_ wordInfo) filteredText,
     uniquePositions ++ [positionKey]).

(** [filter(text)], together with the final [uniquePositions]. *)
Definition filterRun (root : TrieNode) (text : jsstring)
  : jsstring * list (nat * nat) :=
  let result := check root text in
  if hasSensitive result
  then foldl maskStep (text, []) (sortDesc (words result))
  else (text, []).

Definition filter (root : TrieNode) (text : jsstring) : jsstring :=
  fst (filterRun root text).

End Trie.

(** ** The counter store ([database.js]) *)

Module Database.

(** Modelled from the spec: the external counter store behind
    [redisClient], a Redis server that is no code of this repository, by
    the CounterEntry contract (a key holds an integer count with a
    time-to-live; incrementing an absent key creates it with value 1;
    incrementing an existing key keeps its time-to-live).  A value carries
    an optional absolute expiry time in milliseconds, and the server keeps
    the commands it received, oldest first.  A server that is not
    [reachable] rejects every command.  [now] is the server's clock at the
    command. *)
Record RedisEntry : Type := mkEntry {
  count : Z;
  expireAt : option Z
}.

Inductive RedisCommand : Type :=
| INCR (key : jsstring)
| EXPIRE (key : jsstring) (seconds : Z).

Record RedisServer : Type := mkServer {
  reachable : bool;
  data : gmap jsstring RedisEntry;
  commands : list RedisCommand
}.

(** The entry of [key] that is still alive at [now]. *)
Definition live (srv : RedisServer) (now : Z) (key : jsstring)
  : option RedisEntry :=
  match data srv !! key with
  | Some e =>
      match expireAt e with
      | Some t => if (t <=? now)%Z then None else Some e
      | None => Some e
      end
  | None => None
  end.

(** Modelled from the spec: [INCR key].  An absent or expired key counts
    from zero and carries no expiry; a live key keeps its expiry. *)
Definition incr (key : jsstring) (now : Z) (srv : RedisServer)
  : Z * RedisServer :=
  let e' :=
    match live srv now key with
    | Some e => mkEntry (count e + 1) (expireAt e)
    | None => mkEntry 1 None
    end in
  (count e',
   mkServer (reachable srv) (<[key := e']> (data srv))
     (commands srv ++ [INCR key])).

(** Modelled from the spec: [EXPIRE key seconds] sets the expiry of a live
    key. *)
Definition expire (key : jsstring) (seconds : Z) (now : Z)
    (srv : RedisServer) : RedisServer :=
  let data' :=
    match live srv now key with
    | Some e => <[key := mkEntry (count e) (Some (now + 1000 * seconds)%Z)]>
                  (data srv)
    | None => data srv
    end in
  mkServer (reachable srv) data' (commands srv ++ [EXPIRE key seconds]).

Record IncrResult : Type := mkIncr {
  value : Z;
  hasRedis : bool
}.

(** [redisUtils.incrWithExpire(key, expireSeconds)], with [redisClient]
    either [null] ([None]) or a client of a server. *)
Definition incrWithExpire (key : jsstring) (expireSeconds : Z) (now : Z)
    (redisClient : option RedisServer) : IncrResult * option RedisServer :=
  match redisClient with
  | None => (mkIncr 1 false, redisClient)
  | Some srv =>
      if reachable srv then
        let fullKey := lit "danmaku:" ++ key in
        let '(v, srv1) := incr fullKey now srv in
        let srv2 :=
          if (v =? 1)%Z then expire fullKey expireSeconds now srv1
          else srv1 in
        (mkIncr v true, Some srv2)
      else (mkIncr 1 false, redisClient)
  end.

End Database.

(** ** Filter rules ([filterRules.js]) *)

Module FilterRules.

Import Database.

Record RateLimit : Type := mkRateLimit {
  messagesPerSecond : Z;
  timeWindow : Z
}.

Record Config : Type := mkConfig {
  userRateLimit : RateLimit;
  roomRateLimit : RateLimit;
  maxDuplicateCount : Z;
  duplicateTimeWindow : Z
}.

Definition config : Config :=
  mkConfig (mkRateLimit 2 1) (mkRateLimit 1000 1) 3 10.

(** The word list of [initializeFilterRules]:
    '敏感词1', '敏感词2', '违禁词', '广告', 'spam'. *)
Definition sensitiveWords : list jsstring :=
  [ [25935; 24863; 35789; 49]%N; [25935; 24863; 35789; 50]%N;
    [36829; 31105; 35789]%N; [24191; 21578]%N; lit "spam" ].

(** [sensitiveWordTrie] after [initializeFilterRules]. *)
Definition initializeFilterRules : option Trie.TrieNode :=
  Some (Trie.build sensitiveWords).


(** The [reason] strings of the three checks. *)
Inductive Reason : Type :=
| ReasonBadFormat        (* '内容格式错误' *)
| ReasonTooLong          (* '内容长度不能超过50个字符' *)
| ReasonSensitive        (* '包含敏感词' *)
| ReasonPassed           (* '通过' *)
| ReasonNoFilter         (* '未启用敏感词过滤' *)
| ReasonUserRate         (* '发送太频繁，请稍后再试（N条/秒）' *)
| ReasonRoomRate         (* '房间消息过多，请稍后再试' *)
| ReasonRatePassed       (* '通过频率限制' *)
| ReasonDuplicate        (* '重复消息过多' *)
| ReasonDuplicatePassed  (* '通过重复检查' *)
| ReasonDuplicateError.  (* '重复检查异常，允许通过' *)

Record FilterResult : Type := mkFilterResult {
  allowed : bool;
  reason : Reason;
  content : jsstring
}.

(** [filterDanmaku(content)] with the module's [sensitiveWordTrie]. *)
Definition filterDanmaku (sensitiveWordTrie : option Trie.TrieNode)
    (content : jsval) : FilterResult :=
  if truthy content && negb (isString content) then
    mkFilterResult false ReasonBadFormat []
  else
    let trimmedContent :=
      match content with
      | JStr s => if truthy content then trim s else []
      | _ => []
      end in
    if truthy content && (50 <? length trimmedContent) then
      mkFilterResult false ReasonTooLong trimmedContent
    else
      match sensitiveWordTrie with
      | Some trie =>
          let filterResult := Trie.filter trie trimmedContent in
          let hasSensitive :=
            negb (bool_decide (filterResult = trimmedContent)) in
          mkFilterResult (negb hasSensitive)
            (if hasSensitive then ReasonSensitive else ReasonPassed)
            filterResult
      | None => mkFilterResult true ReasonNoFilter trimmedContent
      end.

Record CheckResult : Type := mkCheckResult {
  ck_allowed : bool;
  ck_reason : Reason;
  ck_limit : option Z;
  ck_current : option Z
}.

(** [checkRateLimit(userId, roomId)].  Nothing in the body throws for
    string ids, so the [catch] branch has no counterpart. *)
Definition checkRateLimit (cfg : Config) (userId roomId : jsstring)
    (now : Z) (redisClient : option RedisServer)
  : CheckResult * option RedisServer :=
  let userKey := lit "rate_limit:user:" ++ userId in
  let '(userResult, redis1) :=
    incrWithExpire userKey (timeWindow (userRateLimit cfg)) now redisClient in
  if hasRedis userResult
     && (messagesPerSecond (userRateLimit cfg) <? value userResult)%Z
  then
    (mkCheckResult false ReasonUserRate
       (Some (messagesPerSecond (userRateLimit cfg)))
       (Some (value userResult)), redis1)
  else
    let roomKey := lit "rate_limit:room:" ++ roomId in
    let '(roomResult, redis2) :=
      incrWithExpire roomKey (timeWindow (roomRateLimit cfg)) now redis1 in
    if hasRedis roomResult
       && (messagesPerSecond (roomRateLimit cfg) <? value roomResult)%Z
    then
      (mkCheckResult false ReasonRoomRate
         (Some (messagesPerSecond (roomRateLimit cfg)))
         (Some (value roomResult)), redis2)
    else (mkCheckResult true ReasonRatePassed None None, redis2).

(** The loop of [hashString]: [hash << 5] and [hash & hash] are 32-bit. *)
Definition hashStep (hash : Z) (char : N) : Z :=
  toInt32 (toInt32 (hash * 32) - hash + Z.of_N char).

(** [hashString(str)]; [None] when the body throws a [TypeError]
    ([undefined] and [null] have no [length], an array has no
    [charCodeAt]).  A value without [length] skips the loop. *)
Definition hashString (str : jsval) : option jsstring :=
  match str with
  | JUndefined | JNull => None
  | JStr s =>
      if length s =? 0 then Some (lit "0")
      else Some (toString36 (Z.to_N (Z.abs (foldl hashStep 0%Z s))))
  | JArr len => if len =? 0 then Some (lit "0") else None
  | JBool _ | JNum _ | JObj => Some (lit "0")
  end.

(** [checkDuplicateMessage(userId, content)] *)
Definition checkDuplicateMessage (cfg : Config) (userId : jsstring)
    (content : jsval) (now : Z) (redisClient : option RedisServer)
  : CheckResult * option RedisServer :=
  match hashString content with
  | None => (mkCheckResult true ReasonDuplicateError None None, redisClient)
  | Some h =>
      let messageKey := lit "duplicate:" ++ userId ++ lit ":" ++ h in
      let '(result, redis1) :=
        incrWithExpire messageKey (duplicateTimeWindow cfg) now redisClient in
      if hasRedis result && (maxDuplicateCount cfg <? value result)%Z
      then
        (mkCheckResult false ReasonDuplicate
           (Some (maxDuplicateCount cfg)) (Some (value result)), redis1)
      else (mkCheckResult true ReasonDuplicatePassed None None, redis1)
  end.




End FilterRules.

(** ** Socket handlers ([socketHandlers.js]) *)

Module SocketHandlers.

Import Database.

Record EmojiInfo : Type := mkEmojiInfo {
  emojiType : jsstring;
  emojiValue : jsstring
}.

(** The [danmaku] object of a [send-danmaku] request: the fields the
    handlers read, and [color] for the fields they only copy. *)
Record Danmaku : Type := mkDanmaku {
  d_id : option jsstring;
  d_userId : option jsstring;
  d_content : jsval;
  d_type : jsstring;
  d_color : jsstring;
  d_emojiInfo : option EmojiInfo
}.

Record Data : Type := mkData {
  roomId : jsstring;
  danmaku : Danmaku
}.

(** [finalDanmaku]: [{ id: nanoid(), ...danmaku, content, timestamp,
    emojiInfo }]. *)
Record FinalDanmaku : Type := mkFinal {
  f_id : jsstring;
  f_userId : option jsstring;
  f_content : jsval;
  f_type : jsstring;
  f_color : jsstring;
  f_timestamp : Z;
  f_emojiInfo : option EmojiInfo
}.

(** An element of [messageQueue]: [{ socket, data }], the socket by its
    id. *)
Record Pending : Type := mkPending {
  p_socket : jsstring;
  p_data : Data
}.

Record Room : Type := mkRoom {
  onlineUsers : gset jsstring;
  messageQueue : list Pending;
  lastProcessTime : Z
}.

(** The [reason] of a ['send-failed'] notice. *)
Inductive Notice : Type :=
| NoticeRate (r : FilterRules.Reason)  (* rateLimitResult.reason *)
| NoticeDuplicate                      (* '请勿发送重复消息' *)
| NoticeSensitive                      (* '内容包含敏感词' *)
| NoticeNoRoom.                        (* '房间不存在' *)

(** What a handler does, in order: the messages it emits, and the two
    internal steps of [send-danmaku]. *)
Inductive Event : Type :=
| SendFailed (socket : jsstring) (n : Notice)
| NewDanmaku (room : jsstring) (d : FinalDanmaku)
| OnlineCount (room : jsstring) (count : nat)
| QueuePush (room : jsstring) (p : Pending)
| CallProcessDanmaku (socket : jsstring) (data : Data).

(** The module state: [roomInfo], [userMessages], and the state of the
    modules it imports.  [mongoClient] is [null]. *)
Record State : Type := mkState {
  redisClient : option RedisServer;
  sensitiveWordTrie : option Trie.TrieNode;
  cfg : FilterRules.Config;
  roomInfo : gmap jsstring Room;
  userMessages : gmap jsstring (list (jsval * Z))
}.

(** One reading of the environment: [Date.now()] and [nanoid()]. *)
Record Tick : Type := mkTick {
  now : Z;
  nanoid : jsstring
}.

Definition setRedis (r : option RedisServer) (st : State) : State :=
  mkState r (sensitiveWordTrie st) (cfg st) (roomInfo st) (userMessages st).
Definition setRooms (r : gmap jsstring Room) (st : State) : State :=
  mkState (redisClient st) (sensitiveWordTrie st) (cfg st) r (userMessages st).
Definition setUserMessages (u : gmap jsstring (list (jsval * Z)))
    (st : State) : State :=
  mkState (redisClient st) (sensitiveWordTrie st) (cfg st) (roomInfo st) u.

(** [initRoom(roomId)] *)
Definition initRoom (rid : jsstring) (t : Z) (rooms : gmap jsstring Room)
  : gmap jsstring Room :=
  match rooms !! rid with
  | Some _ => rooms
  | None => <[rid := mkRoom ∅ [] t]> rooms
  end.

(** [updateOnlineCount(io, roomId)] *)
Definition updateOnlineCount (rid : jsstring) (rooms : gmap jsstring Room)
  : list Event :=
  match rooms !! rid with
  | Some room => [OnlineCount rid (size (onlineUsers room))]
  | None => []
  end.

(** [danmaku.userId || socket.id] *)
Definition senderOf (socket : jsstring) (d : Danmaku) : jsstring :=
  match d_userId d with
  | Some u => if bool_decide (u = []) then socket else u
  | None => socket
  end.

(** The content the duplicate check hashes. *)
Definition checkContentOf (d : Danmaku) : jsval :=
  match d_emojiInfo d with
  | Some info =>
      if bool_decide (d_type d = lit "emoji")
      then JStr (lit "[emoji:" ++ emojiValue info ++ lit "]")
      else d_content d
  | None => d_content d
  end.

(** Step 5: the sender's recent messages, at most ten. *)
Definition remember (userId : jsstring) (c : jsval) (t : Z)
    (um : gmap jsstring (list (jsval * Z))) : gmap jsstring (list (jsval * Z)) :=
  let messages := default [] (um !! userId) ++ [(c, t)] in
  <[userId := if 10 <? length messages then drop 1 messages else messages]> um.

(** [processDanmaku(io, socket, data)] *)
Definition processDanmaku (tk : Tick) (socket : jsstring) (data : Data)
    (st : State) : State * list Event :=
  let d := danmaku data in
  let userId := senderOf socket d in
  let '(rateLimitResult, redis1) :=
    FilterRules.checkRateLimit (cfg st) userId (roomId data) (now tk)
      (redisClient st) in
  if negb (FilterRules.ck_allowed rateLimitResult) then
    (setRedis redis1 st,
     [SendFailed socket (NoticeRate (FilterRules.ck_reason rateLimitResult))])
  else
    let '(duplicateResult, redis2) :=
      FilterRules.checkDuplicateMessage (cfg st) userId (checkContentOf d)
        (now tk) redis1 in
    if negb (FilterRules.ck_allowed duplicateResult) then
      (setRedis redis2 st, [SendFailed socket NoticeDuplicate])
    else
      let filterResult :=
        if truthy (d_content d) then
          let r := FilterRules.filterDanmaku (sensitiveWordTrie st)
                     (d_content d) in
          (FilterRules.allowed r, JStr (FilterRules.content r))
        else (true, d_content d) in
      if negb (fst filterResult) then
        (setRedis redis2 st, [SendFailed socket NoticeSensitive])
      else
        let finalDanmaku :=
          mkFinal (default (nanoid tk) (d_id d)) (d_userId d)
            (snd filterResult) (d_type d) (d_color d) (now tk)
            (if bool_decide (d_type d = lit "emoji") then d_emojiInfo d
             else None) in
        (setUserMessages
           (remember userId (d_content d) (now tk) (userMessages st))
           (setRedis redis2 st),
         [NewDanmaku (roomId data) finalDanmaku]).

(** The loop of [processMessageQueue] over the batch, the [k]-th message
    with the reading [ticks k]. *)
Fixpoint processBatch (ticks : nat -> Tick) (k : nat) (batch : list Pending)
    (st : State) : State * list Event :=
  match batch with
  | [] => (st, [])
  | p :: batch' =>
      let '(st1, ev1) :=
        processDanmaku (ticks k) (p_socket p) (p_data p) st in
      let '(st2, ev2) := processBatch ticks (S k) batch' st1 in
      (st2, CallProcessDanmaku (p_socket p) (p_data p) :: ev1 ++ ev2)
  end.

Definition batchSize : nat := 50.

(** [processMessageQueue(io, roomId)] *)
Definition processMessageQueue (ticks : nat -> Tick) (rid : jsstring)
    (st : State) : State * list Event :=
  match roomInfo st !! rid with
  | None => (st, [])
  | Some room =>
      if length (messageQueue room) =? 0 then (st, [])
      else
        let messagesToProcess := take batchSize (messageQueue room) in
        let spliced :=
          mkRoom (onlineUsers room) (drop batchSize (messageQueue room))
            (lastProcessTime room) in
        let st0 := setRooms (<[rid := spliced]> (roomInfo st)) st in
        let '(st1, ev) := processBatch ticks 0 messagesToProcess st0 in
        let done :=
          mkRoom (onlineUsers spliced) (messageQueue spliced)
            (now (ticks (length messagesToProcess))) in
        (setRooms (<[rid := done]> (roomInfo st1)) st1, ev)
  end.

(** The ['join-room'] handler. *)
Definition joinRoom (t : Z) (socket rid : jsstring) (st : State)
  : State * list Event :=
  let rooms1 := initRoom rid t (roomInfo st) in
  let rooms2 :=
    match rooms1 !! rid with
    | Some room =>
        <[rid := mkRoom ({[socket]} ∪ onlineUsers room) (messageQueue room)
                   (lastProcessTime room)]> rooms1
    | None => rooms1
    end in
  (setRooms rooms2 st, updateOnlineCount rid rooms2).

(** Removal of [socket] from [room], and the clean-up test that follows
    it in both ['leave-room'] and ['disconnect']: [None] when the room is
    deleted. *)
Definition removeUser (socket : jsstring) (room : Room) : Room :=
  mkRoom (onlineUsers room ∖ {[socket]}) (messageQueue room)
    (lastProcessTime room).

Definition keepRoom (room : Room) : bool :=
  negb ((size (onlineUsers room) =? 0) && (length (messageQueue room) =? 0)).

(** The ['leave-room'] handler. *)
Definition leaveRoom (socket rid : jsstring) (st : State)
  : State * list Event :=
  match roomInfo st !! rid with
  | None => (st, [])
  | Some room =>
      let room' := removeUser socket room in
      let rooms1 := <[rid := room']> (roomInfo st) in
      let ev := updateOnlineCount rid rooms1 in
      (setRooms (if keepRoom room' then rooms1 else delete rid rooms1) st,
       ev)
  end.

(** The ['disconnect'] handler: every room of the socket, then the
    socket's entry of [userMessages].  The handler sends one
    ['online-count'] notice to each room the socket was in, with the number
    of members left; it visits the rooms in the order in which they were
    put into [roomInfo], which the map of the rooms does not keep, so the
    notices are given as the count sent to each room, without an order. *)
Definition disconnectRoom (socket : jsstring) (room : Room) : option Room :=
  if bool_decide (socket ∈ onlineUsers room) then
    let room' := removeUser socket room in
    if keepRoom room' then Some room' else None
  else Some room.

Definition disconnectCount (socket : jsstring) (room : Room) : option nat :=
  if bool_decide (socket ∈ onlineUsers room)
  then Some (size (onlineUsers (removeUser socket room)))
  else None.

Definition disconnect (socket : jsstring) (st : State)
  : State * gmap jsstring nat :=
  (setUserMessages (delete socket (userMessages st))
     (setRooms (omap (disconnectRoom socket) (roomInfo st)) st),
   omap (disconnectCount socket) (roomInfo st)).

(** *** Calls that have started and not returned

    [processDanmaku] and [processMessageQueue] are [async] functions: a
    call runs up to its first [await] and returns to its caller, and what
    follows an [await] runs later, up to the next [await].  The two
    definitions above are one call run from its first line to its last
    with nothing in between.  The ['send-danmaku'] handler and the 50 ms
    timer call them without [await], so for these callers a call is taken
    apart: the part that runs inside the caller, and one step for each
    later part.

    A step ends where the call waits: for a reply of Redis, for
    [incrWithExpire] when it returned without a command, for
    [filterDanmaku], or, in the loop of [processMessageQueue], for
    [processDanmaku].  The returns of [incrWithExpire] and of the two
    checks to the functions that await them each come one turn of the
    job queue later; they read and write nothing shared, and are taken
    into the step that follows them.  A command sent to Redis is run by
    the server when it is sent; its reply is kept by the waiting call. *)

Inductive Counter : Type :=
| UserCounter        (* rate_limit:user:${userId} *)
| RoomCounter        (* rate_limit:room:${roomId} *)
| DuplicateCounter.  (* duplicate:${userId}:${hashString(content)} *)

(** Where a call of [processDanmaku] waits. *)
Inductive Wait : Type :=
| AwaitIncr (c : Counter) (fullKey : jsstring) (expireSeconds : Z) (value : Z)
    (* [await redisClient.incr(fullKey)], sent, with the reply to come *)
| AwaitIncrWithExpire (c : Counter) (result : IncrResult)
    (* [await redisUtils.incrWithExpire(...)]: [incrWithExpire] sends
       nothing more and returns [result] *)
| AwaitCheckDuplicate
    (* [await checkDuplicateMessage(...)] after [hashString] threw *)
| AwaitFilter (filterResult : FilterRules.FilterResult).
    (* [await filterDanmaku(danmaku.content)] *)

(** [redisUtils.incrWithExpire(key, expireSeconds)] up to its first
    [await], for the counter [c]: without a client it returns at once,
    otherwise [INCR] is sent. *)
Definition startIncrWithExpire (c : Counter) (key : jsstring)
    (expireSeconds : Z) (now : Z) (st : State) : State * Wait :=
  match redisClient st with
  | None => (st, AwaitIncrWithExpire c (mkIncr 1 false))
  | Some srv =>
      let fullKey := lit "danmaku:" ++ key in
      if reachable srv then
        let '(v, srv1) := incr fullKey now srv in
        (setRedis (Some srv1) st, AwaitIncr c fullKey expireSeconds v)
      else (st, AwaitIncrWithExpire c (mkIncr 1 false))
  end.

(** [incrWithExpire] after the reply [value] of [INCR]: [EXPIRE] is sent
    when the value is 1. *)
Definition sendExpire (c : Counter) (fullKey : jsstring) (expireSeconds : Z)
    (value : Z) (now : Z) (st : State) : State * Wait :=
  match redisClient st with
  | None => (st, AwaitIncrWithExpire c (mkIncr 1 false))
  | Some srv =>
      if reachable srv then
        (setRedis (Some (expire fullKey expireSeconds now srv)) st,
         AwaitIncrWithExpire c (mkIncr value true))
      else (st, AwaitIncrWithExpire c (mkIncr 1 false))
  end.

(** [processDanmaku(io, socket, data)] up to its first [await]: it enters
    [checkRateLimit], which enters [incrWithExpire] for the sender's
    counter. *)
Definition startProcessDanmaku (tk : Tick) (socket : jsstring) (data : Data)
    (st : State) : State * Wait :=
  let userId := senderOf socket (danmaku data) in
  startIncrWithExpire UserCounter (lit "rate_limit:user:" ++ userId)
    (FilterRules.timeWindow (FilterRules.userRateLimit (cfg st))) (now tk) st.

(** The ends of [processDanmaku]: a notice to the sender, or steps 4 to 6
    with the broadcast. *)
Definition sendFailed (socket : jsstring) (n : Notice) (st : State)
  : State * (list Event * option Wait) :=
  (st, ([SendFailed socket n], None)).

Definition broadcastDanmaku (tk : Tick) (socket : jsstring) (data : Data)
    (content : jsval) (st : State) : State * (list Event * option Wait) :=
  let d := danmaku data in
  let userId := senderOf socket d in
  let finalDanmaku :=
    mkFinal (default (nanoid tk) (d_id d)) (d_userId d) content (d_type d)
      (d_color d) (now tk)
      (if bool_decide (d_type d = lit "emoji") then d_emojiInfo d else None) in
  (setUserMessages (remember userId (d_content d) (now tk) (userMessages st))
     st,
   ([NewDanmaku (roomId data) finalDanmaku], None)).

(** Step 3 of [processDanmaku], entered once the duplicate check has
    passed. *)
Definition filterStep (tk : Tick) (socket : jsstring) (data : Data)
    (st : State) : State * (list Event * option Wait) :=
  let d := danmaku data in
  if truthy (d_content d) then
    (st, ([], Some (AwaitFilter
                      (FilterRules.filterDanmaku (sensitiveWordTrie st)
                         (d_content d)))))
  else broadcastDanmaku tk socket data (d_content d) st.

(** Step 2 of [processDanmaku], entered once the rate check has passed:
    the call of [checkDuplicateMessage] up to its first [await]. *)
Definition duplicateStep (tk : Tick) (socket : jsstring) (data : Data)
    (st : State) : State * (list Event * option Wait) :=
  let d := danmaku data in
  let userId := senderOf socket d in
  match FilterRules.hashString (checkContentOf d) with
  | None => (st, ([], Some AwaitCheckDuplicate))
  | Some h =>
      let '(st1, w) :=
        startIncrWithExpire DuplicateCounter
          (lit "duplicate:" ++ userId ++ lit ":" ++ h)
          (FilterRules.duplicateTimeWindow (cfg st)) (now tk) st in
      (st1, ([], Some w))
  end.

(** What follows the result of [incrWithExpire] for the counter [c]: the
    comparison with the limit in [checkRateLimit] or
    [checkDuplicateMessage], then a notice or the next check. *)
Definition afterIncrWithExpire (tk : Tick) (socket : jsstring) (data : Data)
    (c : Counter) (result : IncrResult) (st : State)
  : State * (list Event * option Wait) :=
  match c with
  | UserCounter =>
      if hasRedis result
         && (FilterRules.messagesPerSecond (FilterRules.userRateLimit (cfg st))
             <? value result)%Z
      then sendFailed socket (NoticeRate FilterRules.ReasonUserRate) st
      else
        let '(st1, w) :=
          startIncrWithExpire RoomCounter
            (lit "rate_limit:room:" ++ roomId data)
            (FilterRules.timeWindow (FilterRules.roomRateLimit (cfg st)))
            (now tk) st in
        (st1, ([], Some w))
  | RoomCounter =>
      if hasRedis result
         && (FilterRules.messagesPerSecond (FilterRules.roomRateLimit (cfg st))
             <? value result)%Z
      then sendFailed socket (NoticeRate FilterRules.ReasonRoomRate) st
      else duplicateStep tk socket data st
  | DuplicateCounter =>
      if hasRedis result
         && (FilterRules.maxDuplicateCount (cfg st) <? value result)%Z
      then sendFailed socket NoticeDuplicate st
      else filterStep tk socket data st
  end.

(** One step of a call of [processDanmaku] that waits at [w]; [None] when
    the call has returned. *)
Definition resumeProcessDanmaku (tk : Tick) (socket : jsstring) (data : Data)
    (w : Wait) (st : State) : State * (list Event * option Wait) :=
  match w with
  | AwaitIncr c fullKey expireSeconds v =>
      if (v =? 1)%Z then
        let '(st1, w1) := sendExpire c fullKey expireSeconds v (now tk) st in
        (st1, ([], Some w1))
      else afterIncrWithExpire tk socket data c (mkIncr v true) st
  | AwaitIncrWithExpire c result =>
      afterIncrWithExpire tk socket data c result st
  | AwaitCheckDuplicate => filterStep tk socket data st
  | AwaitFilter filterResult =>
      if FilterRules.allowed filterResult
      then broadcastDanmaku tk socket data
             (JStr (FilterRules.content filterResult)) st
      else sendFailed socket NoticeSensitive st
  end.

(** A call of [processDanmaku] taken on from [r] to its end, every step
    with the reading [tk] and no other step in between.  [steps] bounds
    the number of steps; seven are all a call has. *)
Fixpoint finishProcessDanmaku (steps : nat) (tk : Tick) (socket : jsstring)
    (data : Data) (r : State * (list Event * option Wait))
  : State * (list Event * option Wait) :=
  match steps, r with
  | S steps', (st, (ev, Some w)) =>
      let '(st1, (ev1, w1)) := resumeProcessDanmaku tk socket data w st in
      finishProcessDanmaku steps' tk socket data (st1, (ev ++ ev1, w1))
  | _, _ => r
  end.

(** A call that a handler or a timer has started and not awaited.  A call
    of [processMessageQueue] keeps its batch: the message whose
    [processDanmaku] it awaits, if that has not returned, and the messages
    after it.  It also keeps the room object it read at its start, on which
    it writes [lastProcessTime] at its end: [registered] tells whether that
    object is still the one in [roomInfo]. *)
Inductive Call : Type :=
| ProcessDanmakuCall (socket : jsstring) (data : Data) (w : Wait)
| ProcessMessageQueueCall (rid : jsstring) (registered : bool)
    (current : option (Pending * Wait)) (rest : list Pending).

(** [room.lastProcessTime = Date.now()] at the end of
    [processMessageQueue]. *)
Definition setLastProcessTime (rid : jsstring) (t : Z) (st : State) : State :=
  match roomInfo st !! rid with
  | Some room =>
      setRooms (<[rid := mkRoom (onlineUsers room) (messageQueue room) t]>
                  (roomInfo st)) st
  | None => st
  end.

(** The loop of [processMessageQueue] at the head of an iteration: the
    next message's [processDanmaku] up to its first [await], or the end of
    the function. *)
Definition nextInBatch (tk : Tick) (rid : jsstring) (registered : bool)
    (batch : list Pending) (st : State) : State * (list Event * option Call) :=
  match batch with
  | p :: rest =>
      let '(st1, w) := startProcessDanmaku tk (p_socket p) (p_data p) st in
      (st1, ([CallProcessDanmaku (p_socket p) (p_data p)],
             Some (ProcessMessageQueueCall rid registered (Some (p, w)) rest)))
  | [] =>
      (if registered then setLastProcessTime rid (now tk) st else st,
       ([], None))
  end.

(** [processMessageQueue(io, roomId)] up to its first [await]: the batch
    is taken from the queue, and [processDanmaku] is entered for its first
    message. *)
Definition startProcessMessageQueue (tk : Tick) (rid : jsstring) (st : State)
  : State * (list Event * option Call) :=
  match roomInfo st !! rid with
  | None => (st, ([], None))
  | Some room =>
      if length (messageQueue room) =? 0 then (st, ([], None))
      else
        let messagesToProcess := take batchSize (messageQueue room) in
        let spliced :=
          mkRoom (onlineUsers room) (drop batchSize (messageQueue room))
            (lastProcessTime room) in
        nextInBatch tk rid true messagesToProcess
          (setRooms (<[rid := spliced]> (roomInfo st)) st)
  end.

(** One step of a started call. *)
Definition resume (tk : Tick) (call : Call) (st : State)
  : State * (list Event * option Call) :=
  match call with
  | ProcessDanmakuCall socket data w =>
      let '(st1, (ev, w1)) := resumeProcessDanmaku tk socket data w st in
      (st1, (ev, ProcessDanmakuCall socket data <$> w1))
  | ProcessMessageQueueCall rid registered (Some (p, w)) rest =>
      let '(st1, (ev, w1)) :=
        resumeProcessDanmaku tk (p_socket p) (p_data p) w st in
      (st1, (ev, Some (ProcessMessageQueueCall rid registered
                         (pair p <$> w1) rest)))
  | ProcessMessageQueueCall rid registered None rest =>
      nextInBatch tk rid registered rest st
  end.

(** A call under way taken on to its end with nothing in between.  Every
    message of a batch has one reading for all its steps: [ticks k] for
    the message at hand, [ticks (S k)] for the next one, and so on; the
    time of the drain is read after the last message.  [steps] bounds the
    number of steps; a message takes eight at most. *)
Fixpoint finish (steps : nat) (ticks : nat -> Tick) (k : nat)
    (r : State * (list Event * option Call))
  : State * (list Event * option Call) :=
  match steps, r with
  | S steps', (st, (ev, Some call)) =>
      let k' :=
        match call with
        | ProcessMessageQueueCall _ _ None _ => S k
        | _ => k
        end in
      let '(st1, (ev1, call1)) := resume (ticks k') call st in
      finish steps' ticks k' (st1, (ev ++ ev1, call1))
  | _, _ => r
  end.

(** The ['send-danmaku'] handler: the state when the handler returns, what
    it has done by then, and the call it has started and not awaited. *)
Definition sendDanmaku (tk : Tick) (socket : jsstring) (data : Data)
    (st : State) : State * (list Event * option Call) :=
  match roomInfo st !! roomId data with
  | None => (st, ([SendFailed socket NoticeNoRoom], None))
  | Some room =>
      if 100 <? length (messageQueue room) then
        let '(st1, w) := startProcessDanmaku tk socket data st in
        (st1, ([CallProcessDanmaku socket data],
               Some (ProcessDanmakuCall socket data w)))
      else
        let p := mkPending socket data in
        let room' :=
          mkRoom (onlineUsers room) (messageQueue room ++ [p])
            (lastProcessTime room) in
        let st1 := setRooms (<[roomId data := room']> (roomInfo st)) st in
        if (100 <? now tk - lastProcessTime room)%Z then
          let '(st2, (ev, call)) :=
            startProcessMessageQueue tk (roomId data) st1 in
          (st2, (QueuePush (roomId data) p :: ev, call))
        else (st1, ([QueuePush (roomId data) p], None))
  end.

(** The body of the 60-second timer: every sender keeps the messages of
    the last minute, and a sender without any is dropped. *)
Definition cleanupUserMessages (t : Z)
    (um : gmap jsstring (list (jsval * Z))) : gmap jsstring (list (jsval * Z)) :=
  omap (fun messages =>
          let filteredMessages :=
            filter (fun msg => (t - msg.2 < 60000)%Z) messages in
          if 0 <? length filteredMessages then Some filteredMessages
          else None) um.

(** *** The backend: the module state and the calls under way

    Socket events, timers and replies come one at a time; each runs to its
    end, or to an [await], before the next.  A started call goes on
    whenever its reply is there: any of the calls under way may take the
    next step. *)
Record Backend : Type := mkBackend {
  memory : State;
  underway : list Call
}.

Inductive Input : Type :=
| OnJoinRoom (t : Z) (socket rid : jsstring)
| OnLeaveRoom (socket rid : jsstring)
| OnSendDanmaku (tk : Tick) (socket : jsstring) (data : Data)
| OnDisconnect (socket : jsstring)
| OnQueueTimer (tk : Tick) (rid : jsstring)
    (* the 50 ms timer at one room: [processMessageQueue(io, roomId)] *)
| OnUserMessagesTimer (t : Z)
| OnReply (i : nat) (tk : Tick).
    (* the [i]-th call under way takes its next step *)

(** A call of [processMessageQueue] whose room has been deleted from
    [roomInfo] holds a room object that is in the map no more, also when a
    later ['join-room'] makes a new room of the same id. *)
Definition unregister (rooms : gmap jsstring Room) (call : Call) : Call :=
  match call with
  | ProcessMessageQueueCall rid registered current rest =>
      ProcessMessageQueueCall rid
        (registered && bool_decide (is_Some (rooms !! rid))) current rest
  | ProcessDanmakuCall _ _ _ => call
  end.

Definition started (call : option Call) : list Call :=
  match call with
  | Some t => [t]
  | None => []
  end.

Definition step (i : Input) (b : Backend) : Backend :=
  match i with
  | OnJoinRoom t socket rid =>
      mkBackend (joinRoom t socket rid (memory b)).1 (underway b)
  | OnLeaveRoom socket rid =>
      let st1 := (leaveRoom socket rid (memory b)).1 in
      mkBackend st1 (unregister (roomInfo st1) <$> underway b)
  | OnSendDanmaku tk socket data =>
      let '(st1, (_, call)) := sendDanmaku tk socket data (memory b) in
      mkBackend st1 (underway b ++ started call)
  | OnDisconnect socket =>
      let st1 := (disconnect socket (memory b)).1 in
      mkBackend st1 (unregister (roomInfo st1) <$> underway b)
  | OnQueueTimer tk rid =>
      let '(st1, (_, call)) := startProcessMessageQueue tk rid (memory b) in
      mkBackend st1 (underway b ++ started call)
  | OnUserMessagesTimer t =>
      mkBackend
        (setUserMessages (cleanupUserMessages t (userMessages (memory b)))
           (memory b))
        (underway b)
  | OnReply i tk =>
      match underway b !! i with
      | None => b
      | Some call =>
          let '(st1, (_, call')) := resume tk call (memory b) in
          mkBackend st1
            (match call' with
             | Some t => <[i := t]> (underway b)
             | None => delete i (underway b)
             end)
      end
  end.

(** The backend after the inputs, first to last. *)
Definition run (inputs : list Input) (b : Backend) : Backend :=
  foldl (fun b' i => step i b') b inputs.

End SocketHandlers.

(** ** Notions used in the statements *)

(** [text.includes(w)] *)
Fixpoint startsWith (w text : jsstring) : bool :=
  match w, text with
  | [], _ => true
  | c :: w', d :: text' => bool_decide (c = d) && startsWith w' text'
  | _ :: _, [] => false
  end.

Fixpoint includes (w text : jsstring) : bool :=
  startsWith w text
  || match text with
     | [] => false
     | _ :: text' => includes w text'
     end.

(** A high surrogate directly followed by a low surrogate: a character
    outside the Basic Multilingual Plane. *)
Fixpoint hasSurrogatePair (s : jsstring) : bool :=
  match s with
  | c :: rest =>
      match rest with
      | d :: _ => isHighSurrogate c && isLowSurrogate d || hasSurrogatePair rest
      | [] => false
      end
  | [] => false
  end.

(** A nonempty word of the Basic Multilingual Plane without the mask
    character. *)
Definition plainWord (w : jsstring) : bool :=
  negb (length w =? 0) && negb (bool_decide (star ∈ w))
  && negb (hasSurrogatePair w).

(** The node reached from [node] along [keys], and whether a word ends
    there. *)
Fixpoint descend (node : Trie.TrieNode) (keys : list jsstring)
  : option Trie.TrieNode :=
  match keys with
  | [] => Some node
  | k :: keys' =>
      match Trie.Map_get k (Trie.children node) with
      | Some child => descend child keys'
      | None => None
      end
  end.

Definition accepts (node : Trie.TrieNode) (keys : list jsstring) : bool :=
  match descend node keys with
  | Some n => Trie.isEnd n
  | None => false
  end.

(** A match lies inside a text of length [n] and its word has the length
    of its span. *)
Definition wfMatch (n : nat) (m : Trie.Match) : Prop :=
  Trie.start m < Trie.end_ m ∧ Trie.end_ m ≤ n
  ∧ length (Trie.word m) = Trie.end_ m - Trie.start m.

(** Two spans share a position. *)
Definition overlap (a b : nat * nat) : bool :=
  (a.1 <? b.2) && (b.1 <? a.2).

(** Length of the span a position key stands for. *)
Definition spanLength (key : nat * nat) : nat := key.2 - key.1.

(** The orders of the sorted matches and of the recorded keys. *)
Definition longerFirst (a b : Trie.Match) : Prop :=
  length (Trie.word b) ≤ length (Trie.word a).

Definition longerKeyFirst (a b : nat * nat) : Prop :=
  spanLength b ≤ spanLength a.

(** The invariant of the replacement loop: the text keeps its length, every
    position of a recorded span is masked, and no position holds anything
    but its original character or the mask. *)
Definition maskInv (text : jsstring) (st : jsstring * list (nat * nat))
  : Prop :=
  length st.1 = length text
  ∧ (∀ s e k, (s, e) ∈ st.2 → s ≤ k < e → st.1 !! k = Some star)
  ∧ (∀ k, st.1 !! k = text !! k ∨ st.1 !! k = Some star).

(** Neither end of a text is white space. *)
Definition trimmedEnds (c : jsstring) : Prop :=
  (∀ x, head c = Some x → isWhiteSpace x = false)
  ∧ (∀ x, last c = Some x → isWhiteSpace x = false).

(** The rate-limit check and the duplicate check of [processDanmaku] both
    allow the message. *)
Definition checksPass (tk : SocketHandlers.Tick) (socket : jsstring)
    (data : SocketHandlers.Data) (st : SocketHandlers.State) : bool :=
  let d := SocketHandlers.danmaku data in
  let userId := SocketHandlers.senderOf socket d in
  let '(r1, redis1) :=
    FilterRules.checkRateLimit (SocketHandlers.cfg st) userId
      (SocketHandlers.roomId data) (SocketHandlers.now tk)
      (SocketHandlers.redisClient st) in
  FilterRules.ck_allowed r1
  && FilterRules.ck_allowed
       (FilterRules.checkDuplicateMessage (SocketHandlers.cfg st) userId
          (SocketHandlers.checkContentOf d) (SocketHandlers.now tk) redis1).1.

(** The module state after start-up ([initializeFilterRules] done, default
    [config], no room) with the given Redis client. *)
Definition startState (redis : option Database.RedisServer)
  : SocketHandlers.State :=
  SocketHandlers.mkState redis FilterRules.initializeFilterRules
    FilterRules.config ∅ ∅.

(** A reachable Redis server that holds nothing. *)
Definition emptyServer : Database.RedisServer :=
  Database.mkServer true ∅ [].

(** A text message and an emote message of the client. *)
Definition textMessage (room text : jsstring) : SocketHandlers.Data :=
  SocketHandlers.mkData room
    (SocketHandlers.mkDanmaku None None (JStr text) (lit "scroll")
       (lit "#ffffff") None).

Definition emojiMessage (room value : jsstring) : SocketHandlers.Data :=
  SocketHandlers.mkData room
    (SocketHandlers.mkDanmaku None None (JStr []) (lit "emoji")
       (lit "#ffffff")
       (Some (SocketHandlers.mkEmojiInfo (lit "unicode") value))).

(** The Redis client is [null], or its server rejects the commands. *)
Definition unavailable (redis : option Database.RedisServer) : bool :=
  match redis with
  | None => true
  | Some srv => negb (Database.reachable srv)
  end.

(** The keys of the [INCR] commands of a log, in order. *)
Definition incrKeys (cmds : list Database.RedisCommand) : list jsstring :=
  flat_map (fun c => match c with
                     | Database.INCR k => [k]
                     | Database.EXPIRE _ _ => []
                     end) cmds.

(** The Redis keys of the three counters. *)
Definition userKey (userId : jsstring) : jsstring :=
  lit "danmaku:" ++ lit "rate_limit:user:" ++ userId.
Definition roomKey (roomId : jsstring) : jsstring :=
  lit "danmaku:" ++ lit "rate_limit:room:" ++ roomId.
Definition duplicateKey (userId hash : jsstring) : jsstring :=
  lit "danmaku:" ++ lit "duplicate:" ++ userId ++ lit ":" ++ hash.

(** The entry [incrWithExpire] leaves under a key of a reachable server. *)
Definition nextEntry (srv : Database.RedisServer) (now : Z)
    (fullKey : jsstring) (ttl : Z) : Database.RedisEntry :=
  match Database.live srv now fullKey with
  | Some e =>
      if (Database.count e + 1 =? 1)%Z
      then Database.mkEntry 1 (Some (now + 1000 * ttl)%Z)
      else Database.mkEntry (Database.count e + 1) (Database.expireAt e)
  | None => Database.mkEntry 1 (Some (now + 1000 * ttl)%Z)
  end.

(** The room counter holds at most [n]. *)
Definition roomBelow (n : Z) (srv : Database.RedisServer) (r : jsstring)
  : Prop :=
  ∀ e, Database.data srv !! roomKey r = Some e → (Database.count e ≤ n)%Z.

(** The results of the two checks under the default [config], by the
    post-increment value of the counter. *)
Definition rateVerdict (c : Z) : FilterRules.CheckResult :=
  if (2 <? c)%Z
  then FilterRules.mkCheckResult false FilterRules.ReasonUserRate
         (Some 2%Z) (Some c)
  else FilterRules.mkCheckResult true FilterRules.ReasonRatePassed None None.

Definition duplicateVerdict (c : Z) : FilterRules.CheckResult :=
  if (3 <? c)%Z
  then FilterRules.mkCheckResult false FilterRules.ReasonDuplicate
         (Some 3%Z) (Some c)
  else FilterRules.mkCheckResult true FilterRules.ReasonDuplicatePassed
         None None.

(** The hash [checkDuplicateMessage] puts in the key of a text. *)
Definition hashText (s : jsstring) : jsstring :=
  default [] (FilterRules.hashString (JStr s)).

(** A state with the one room "r1", whose only member is the socket "s1"
    and whose queue holds [queue], last drained at time 0. *)
Definition oneRoomState (queue : list SocketHandlers.Pending)
  : SocketHandlers.State :=
  SocketHandlers.mkState None FilterRules.initializeFilterRules
    FilterRules.config
    {[ lit "r1" := SocketHandlers.mkRoom {[ lit "s1" ]} queue 0 ]} ∅.

(** The clock of the examples: the [k]-th reading is at [t + k]. *)
Definition ticksFrom (t : Z) (k : nat) : SocketHandlers.Tick :=
  SocketHandlers.mkTick (t + Z.of_nat k) (lit "id").

(** The result of [checkDuplicateMessage] under [cfg], by the
    post-increment value of the counter. *)
Definition duplicateVerdictFor (cfg : FilterRules.Config) (c : Z)
  : FilterRules.CheckResult :=
  if (FilterRules.maxDuplicateCount cfg <? c)%Z
  then FilterRules.mkCheckResult false FilterRules.ReasonDuplicate
         (Some (FilterRules.maxDuplicateCount cfg)) (Some c)
  else FilterRules.mkCheckResult true FilterRules.ReasonDuplicatePassed
         None None.

(** Position [k] lies in the span of one of the matches. *)
Definition covered (k : nat) (ms : list Trie.Match) : bool :=
  existsb (fun m => (Trie.start m <=? k) && (k <? Trie.end_ m)) ms.

(** A digit of [toString(36)]: '0'..'9' or 'a'..'z'. *)
Definition isDigit36 (c : N) : Prop :=
  (48 ≤ c ∧ c ≤ 57)%N ∨ (97 ≤ c ∧ c ≤ 122)%N.

(** [incrWithExpire] called once per element of [times], in order: the
    values returned and the store afterwards. *)
Fixpoint incrMany (key : jsstring) (ttl : Z) (times : list Z)
    (redis : option Database.RedisServer)
  : list Z * option Database.RedisServer :=
  match times with
  | [] => ([], redis)
  | t :: times' =>
      let '(r, redis1) := Database.incrWithExpire key ttl t redis in
      let '(vs, redis2) := incrMany key ttl times' redis1 in
      (Database.value r :: vs, redis2)
  end.

(** [checkRateLimit] and [checkDuplicateMessage] called once per element of
    [times], in order, by one sender. *)
Fixpoint rateRun (cfg : FilterRules.Config) (u r : jsstring) (times : list Z)
    (redis : option Database.RedisServer)
  : list FilterRules.CheckResult * option Database.RedisServer :=
  match times with
  | [] => ([], redis)
  | t :: times' =>
      let '(res, redis1) := FilterRules.checkRateLimit cfg u r t redis in
      let '(rs, redis2) := rateRun cfg u r times' redis1 in
      (res :: rs, redis2)
  end.

Fixpoint duplicateRun (cfg : FilterRules.Config) (u : jsstring)
    (content : jsval) (times : list Z) (redis : option Database.RedisServer)
  : list FilterRules.CheckResult * option Database.RedisServer :=
  match times with
  | [] => ([], redis)
  | t :: times' =>
      let '(res, redis1) :=
        FilterRules.checkDuplicateMessage cfg u content t redis in
      let '(rs, redis2) := duplicateRun cfg u content times' redis1 in
      (res :: rs, redis2)
  end.

(** No sender has more than ten remembered messages. *)
Definition userMessagesBounded (um : gmap jsstring (list (jsval * Z)))
  : Prop :=
  ∀ u messages, um !! u = Some messages → length messages ≤ 10.

(** No room has more than 101 queued messages. *)
Definition queuesBounded (rooms : gmap jsstring SocketHandlers.Room) : Prop :=
  ∀ rid room, rooms !! rid = Some room →
              length (SocketHandlers.messageQueue room) ≤ 101.

(** The events other than the markers of calls to [processDanmaku]. *)
Definition emitted (ev : list SocketHandlers.Event)
  : list SocketHandlers.Event :=
  List.filter (fun e => match e with
                        | SocketHandlers.CallProcessDanmaku _ _ => false
                        | _ => true
                        end) ev.

(** The messages [processDanmaku] was called on, in order. *)
Definition calls (ev : list SocketHandlers.Event)
  : list SocketHandlers.Pending :=
  flat_map (fun e => match e with
                     | SocketHandlers.CallProcessDanmaku s d =>
                         [SocketHandlers.mkPending s d]
                     | _ => []
                     end) ev.

(** [e] is the answer to the queued message [p]: a notice to its socket or
    a broadcast to its room. *)
Definition answers (p : SocketHandlers.Pending) (e : SocketHandlers.Event)
  : Prop :=
  match e with
  | SocketHandlers.SendFailed s _ => s = SocketHandlers.p_socket p
  | SocketHandlers.NewDanmaku r _ =>
      r = SocketHandlers.roomId (SocketHandlers.p_data p)
  | _ => False
  end.

(** ** The embedding on concrete inputs *)

Example codePoints_astral :
  codePoints [97; 55357; 56832]%N = [[97]; [55357; 56832]]%N.
Proof. reflexivity. Qed.

Example trim_spaces : trim (lit "  a b  ") = lit "a b".
Proof. vm_compute. reflexivity. Qed.

Example hashString_hello :
  FilterRules.hashString (JStr (lit "hello")) = Some (lit "1n1e4y").
Proof. vm_compute. reflexivity. Qed.

Example check_overlapping :
  Trie.words (Trie.check (Trie.build [lit "ab"; lit "abcd"; lit "bc"])
                (lit "abcd"))
  = [ Trie.mkMatch (lit "ab") 0 2; Trie.mkMatch (lit "abcd") 0 4;
      Trie.mkMatch (lit "bc") 1 3 ].
Proof. vm_compute. reflexivity. Qed.

Example filter_default_words :
  Trie.filter (Trie.build FilterRules.sensitiveWords)
    (lit "spamspam x" ++ [24191; 21578]%N ++ lit "x")
  = lit "******** x**x".
Proof. vm_compute. reflexivity. Qed.

Example incrWithExpire_twice :
  let r1 := Database.incrWithExpire (lit "k") 1 0 (Some emptyServer) in
  let r2 := Database.incrWithExpire (lit "k") 1 500 r1.2 in
  let r3 := Database.incrWithExpire (lit "k") 1 1000 r2.2 in
  (Database.value r1.1, Database.value r2.1, Database.value r3.1)
  = (1%Z, 2%Z, 1%Z).
Proof. vm_compute. reflexivity. Qed.

(** ** The trie: words added are words accepted *)

Section TrieFacts.

Import Trie.

Lemma Map_get_set_eq {V} k (v : V) m : Map_get k (Map_set k v m) = Some v.
Proof.
  induction m as [|[k' v'] m IH]; simpl.
  - by rewrite decide_True.
  - destruct (decide (k = k')) as [->|Hne]; simpl.
    + by rewrite decide_True.
    + by rewrite decide_False.
Qed.

Lemma Map_get_set_ne {V} k k' (v : V) m :
  k ≠ k' → Map_get k' (Map_set k v m) = Map_get k' m.
Proof.
  intros Hne. induction m as [|[k0 v0] m IH]; simpl.
  - by rewrite decide_False.
  - destruct (decide (k = k0)) as [->|Hne0]; simpl.
    + by rewrite !decide_False.
    + by rewrite IH.
Qed.

Lemma accepts_addPath_same ks n : accepts (addPath ks n) ks = true.
Proof.
  revert n. induction ks as [|k ks IH]; intros n; [done|].
  unfold accepts in *. simpl. rewrite Map_get_set_eq. apply IH.
Qed.

Lemma accepts_addPath_other ks' ks n :
  accepts n ks = true → accepts (addPath ks' n) ks = true.
Proof.
  revert n ks. induction ks' as [|k' ks' IH]; intros n ks Hacc.
  - destruct ks as [|k ks]; [done|]. exact Hacc.
  - destruct ks as [|k ks]; [exact Hacc|].
    unfold accepts in *. simpl in *.
    destruct (decide (k' = k)) as [->|Hne].
    + rewrite Map_get_set_eq.
      destruct (Map_get k (children n)) as [c|]; [|done].
      by apply IH.
    + by rewrite Map_get_set_ne.
Qed.

Lemma accepts_foldl_addWord words t ks :
  accepts t ks = true ∨ (∃ w, w ∈ words ∧ codePoints w = ks) →
  accepts (foldl (λ root w, addWord w root) t words) ks = true.
Proof.
  revert t. induction words as [|w0 words IH]; intros t [Hacc|(w & Hin & Hw)].
  - done.
  - by apply elem_of_nil in Hin.
  - simpl. apply IH. left. by apply accepts_addPath_other.
  - simpl. apply IH. apply elem_of_cons in Hin as [->|Hin].
    + left. rewrite <- Hw. apply accepts_addPath_same.
    + right. eauto.
Qed.

Lemma accepts_build words w :
  w ∈ words → accepts (build words) (codePoints w) = true.
Proof. intros Hin. apply accepts_foldl_addWord. right. eauto. Qed.

Lemma codePoints_plain w :
  hasSurrogatePair w = false → codePoints w = (λ c, [c]) <$> w.
Proof.
  induction w as [|c w IH]; [done|]. simpl.
  destruct w as [|d w]; [done|].
  intros H. apply orb_false_iff in H as [H1 H2].
  rewrite H1. rewrite (IH H2). done.
Qed.

(** The walk finds a word that is accepted from its start node. *)
Lemma walk_complete w post node i j cur :
  w ≠ [] →
  accepts node ((λ c, [c]) <$> w) = true →
  mkMatch (cur ++ w) i (j + length w) ∈ walk node (w ++ post) i j cur.
Proof.
  revert node j cur. induction w as [|c w IH]; intros node j cur Hne Hacc;
    [done|].
  unfold accepts in Hacc. simpl in Hacc. simpl.
  destruct (Map_get [c] (children node)) as [child|]; [|done].
  destruct w as [|c' w].
  - simpl in Hacc. rewrite Hacc.
    replace (j + S (length (@nil N))) with (S j) by (simpl; lia).
    apply elem_of_app. left. apply list_elem_of_singleton. done.
  - apply elem_of_app. right.
    replace (cur ++ c :: c' :: w) with ((cur ++ [c]) ++ c' :: w)
      by (by rewrite <- app_assoc).
    match goal with
    | |- context [mkMatch _ _ ?e] =>
        replace e with (S j + length (c' :: w)) by (simpl; lia)
    end.
    by apply IH.
Qed.

Lemma scanFrom_complete pre w post root i :
  w ≠ [] →
  accepts root ((λ c, [c]) <$> w) = true →
  mkMatch w (i + length pre) (i + length pre + length w)
    ∈ scanFrom root i (pre ++ w ++ post).
Proof.
  intros Hne Hacc. revert i. induction pre as [|c pre IH]; intros i.
  - simpl. destruct w as [|c w]; [done|].
    change (scanFrom root i ((c :: w) ++ post))
      with (walk root ((c :: w) ++ post) i i []
              ++ scanFrom root (S i) (w ++ post)).
    apply elem_of_app. left. replace (i + 0) with i by lia.
    by apply (walk_complete (c :: w) post root i i []).
  - simpl. apply elem_of_app. right.
    replace (i + S (length pre)) with (S i + length pre) by lia.
    apply IH.
Qed.

Lemma walk_wf rest node i j cur m :
  m ∈ walk node rest i j cur →
  start m = i ∧ j < end_ m ∧ end_ m ≤ j + length rest
  ∧ length (word m) = length cur + (end_ m - j).
Proof.
  revert node j cur. induction rest as [|c rest IH]; intros node j cur Hin.
  - by apply elem_of_nil in Hin.
  - simpl in Hin. destruct (Map_get [c] (children node)) as [child|];
      [|by apply elem_of_nil in Hin].
    apply elem_of_app in Hin as [Hin|Hin].
    + destruct (isEnd child); [|by apply elem_of_nil in Hin].
      apply list_elem_of_singleton in Hin as ->. simpl.
      rewrite length_app. simpl. lia.
    + apply IH in Hin as (Hs & Hj & He & Hlen).
      rewrite length_app in Hlen. simpl in *. lia.
Qed.

Lemma scanFrom_wf root i suffix m :
  m ∈ scanFrom root i suffix →
  i ≤ start m ∧ wfMatch (i + length suffix) m.
Proof.
  revert i. induction suffix as [|c suffix IH]; intros i Hin.
  - by apply elem_of_nil in Hin.
  - change (scanFrom root i (c :: suffix))
      with (walk root (c :: suffix) i i [] ++ scanFrom root (S i) suffix)
      in Hin.
    apply elem_of_app in Hin as [Hin|Hin].
    + apply walk_wf in Hin as (Hs & Hj & He & Hlen). unfold wfMatch.
      simpl in *. lia.
    + apply IH in Hin as (Hs & Hj & He & Hlen). unfold wfMatch.
      simpl in *. lia.
Qed.

Lemma elem_of_insertDesc m a l : m ∈ insertDesc a l ↔ m = a ∨ m ∈ l.
Proof.
  induction l as [|b l IH]; simpl.
  - rewrite list_elem_of_singleton, elem_of_nil. tauto.
  - destruct (length (word a) <? length (word b)).
    + rewrite !elem_of_cons, IH. tauto.
    + rewrite !elem_of_cons. tauto.
Qed.

Lemma elem_of_sortDesc m l : m ∈ sortDesc l ↔ m ∈ l.
Proof.
  induction l as [|a l IH]; simpl; [done|].
  rewrite elem_of_insertDesc, elem_of_cons, IH. done.
Qed.

End TrieFacts.

(** ** The replacement loop of [filter] *)

Section MaskFacts.

Import Trie.

(** [substring(0, s) + '*'.repeat(e - s) + substring(e)], position by
    position. *)
Lemma splice_length (ft : jsstring) s e :
  s ≤ e → e ≤ length ft →
  length (take s ft ++ replicate (e - s) star ++ drop e ft) = length ft.
Proof.
  intros Hse He.
  rewrite !length_app, length_take, length_replicate, length_drop. lia.
Qed.

Lemma splice_lookup (ft : jsstring) s e k :
  s ≤ e → e ≤ length ft →
  (take s ft ++ replicate (e - s) star ++ drop e ft) !! k
  = if bool_decide (s ≤ k ∧ k < e) then
      Some star
    else ft !! k.
Proof.
  intros Hse He.
  destruct (decide (k < s)) as [Hks|Hks].
  - rewrite bool_decide_false by lia.
    rewrite lookup_app_l by (rewrite length_take; lia).
    by rewrite lookup_take_lt.
  - rewrite lookup_app_r by (rewrite length_take; lia).
    rewrite length_take, Nat.min_l by lia.
    destruct (decide (k < e)) as [Hke|Hke].
    + rewrite bool_decide_true by lia.
      rewrite lookup_app_l by (rewrite length_replicate; lia).
      apply lookup_replicate_2. lia.
    + rewrite bool_decide_false by lia.
      rewrite lookup_app_r by (rewrite length_replicate; lia).
      rewrite length_replicate, lookup_drop. f_equal. lia.
Qed.

Lemma maskInv_init text : maskInv text (text, []).
Proof.
  split; [done|]. split; [|by left].
  intros s e k Hin. by apply elem_of_nil in Hin.
Qed.

Lemma maskStep_inv text st m :
  wfMatch (length text) m → maskInv text st →
  maskInv text (maskStep st m)
  ∧ (start m, end_ m) ∈ (maskStep st m).2
  ∧ (∀ key, key ∈ st.2 → key ∈ (maskStep st m).2).
Proof.
  intros (Hlt & Hle & Hlen) Hinv. pose proof Hinv as (Hl & Hcov & Hpt).
  destruct st as [ft uniq]. unfold maskStep. simpl in *.
  case_bool_decide as Hkey; simpl.
  - split; [done|]. split; [done|auto].
  - rewrite Hlen. split; [split; [|split]|split]; simpl.
    + rewrite splice_length; lia.
    + intros s e k Hin Hk. rewrite splice_lookup by lia.
      case_bool_decide; [done|].
      apply elem_of_app in Hin as [Hin|Hin]; [by eapply Hcov|].
      apply list_elem_of_singleton in Hin. simplify_eq. lia.
    + intros k. rewrite splice_lookup by lia.
      case_bool_decide; [by right|]. apply Hpt.
    + apply elem_of_app. right. by apply list_elem_of_singleton.
    + intros key Hin. apply elem_of_app. by left.
Qed.

Lemma maskLoop_inv text l st :
  (∀ m, m ∈ l → wfMatch (length text) m) → maskInv text st →
  maskInv text (foldl maskStep st l)
  ∧ (∀ m, m ∈ l → (start m, end_ m) ∈ (foldl maskStep st l).2)
  ∧ (∀ key, key ∈ st.2 → key ∈ (foldl maskStep st l).2).
Proof.
  revert st. induction l as [|m l IH]; intros st Hwf Hinv; simpl.
  - split; [done|]. split; [|auto]. intros m Hm. by apply elem_of_nil in Hm.
  - destruct (maskStep_inv text st m) as (Hinv1 & Hkey & Hmono);
      [apply Hwf; by left|done|].
    destruct (IH (maskStep st m)) as (Hinv2 & Hall & Hmono2);
      [intros m' Hm'; apply Hwf; by right|done|].
    split; [done|]. split; [|auto].
    intros m' Hm'. apply elem_of_cons in Hm' as [->|Hm']; auto.
Qed.

Lemma check_wf root text m :
  m ∈ words (check root text) → wfMatch (length text) m.
Proof. intros Hin. by apply scanFrom_wf in Hin as [_ Hwf]. Qed.

Lemma filterRun_inv root text :
  maskInv text (filterRun root text)
  ∧ (∀ m, m ∈ words (check root text) →
          (start m, end_ m) ∈ (filterRun root text).2).
Proof.
  unfold filterRun.
  destruct (hasSensitive (check root text)) eqn:Hhas.
  - destruct (maskLoop_inv text (sortDesc (words (check root text)))
                (text, [])) as (Hinv & Hall & _).
    + intros m Hm. rewrite elem_of_sortDesc in Hm. by apply (check_wf root).
    + apply maskInv_init.
    + split; [done|]. intros m Hm. apply Hall. by rewrite elem_of_sortDesc.
  - split.
    + apply maskInv_init.
    + intros m Hm. simpl in Hhas, Hm. apply Nat.ltb_ge in Hhas.
      destruct (scanFrom root 0 text); [by apply elem_of_nil in Hm|].
      simpl in Hhas. lia.
Qed.

Lemma filter_length root text : length (filter root text) = length text.
Proof. by destruct (filterRun_inv root text) as ((Hl & _) & _). Qed.

Lemma filter_pointwise root text k :
  filter root text !! k = text !! k ∨ filter root text !! k = Some star.
Proof. destruct (filterRun_inv root text) as ((_ & _ & Hpt) & _). apply Hpt. Qed.

Lemma filter_masks_match root text m k :
  m ∈ words (check root text) → start m ≤ k < end_ m →
  filter root text !! k = Some star.
Proof.
  intros Hm Hk. destruct (filterRun_inv root text) as ((_ & Hcov & _) & Hall).
  eapply Hcov; [by apply Hall|done].
Qed.

End MaskFacts.

(** ** Occurrences of a word in a text *)

Section Occurrences.

Lemma startsWith_app w post : startsWith w (w ++ post) = true.
Proof.
  induction w as [|c w IH]; [done|]. simpl.
  by rewrite bool_decide_true, IH.
Qed.

Lemma startsWith_inv w text :
  startsWith w text = true → ∃ post, text = w ++ post.
Proof.
  revert text. induction w as [|c w IH]; intros text H.
  - by exists text.
  - destruct text as [|d text]; [done|]. simpl in H.
    apply andb_true_iff in H as [Hcd Hw].
    apply bool_decide_eq_true in Hcd as ->.
    destruct (IH _ Hw) as [post ->]. by exists post.
Qed.

Lemma includes_app pre w post : includes w (pre ++ w ++ post) = true.
Proof.
  induction pre as [|c pre IH].
  - pose proof (startsWith_app w post) as H. simpl.
    destruct (w ++ post); simpl; by rewrite H.
  - simpl. rewrite IH. apply orb_true_r.
Qed.

Lemma includes_inv w text :
  includes w text = true → ∃ pre post, text = pre ++ w ++ post.
Proof.
  induction text as [|c text IH]; simpl; intros H.
  - rewrite orb_false_r in H. apply startsWith_inv in H as [post ->].
    by exists [], post.
  - apply orb_true_iff in H as [H|H].
    + apply startsWith_inv in H as [post ->]. by exists [], post.
    + destruct (IH H) as (pre & post & ->). by exists (c :: pre), post.
Qed.

(** A text that agrees with [w] from position [p] on splits around it. *)
Lemma occurs_split (text w : jsstring) p :
  p + length w ≤ length text →
  (∀ j c, w !! j = Some c → text !! (p + j) = Some c) →
  text = take p text ++ w ++ drop (p + length w) text.
Proof.
  intros Hlen Hw. apply list_eq. intros i.
  destruct (decide (i < p)) as [Hip|Hip].
  - rewrite lookup_app_l by (rewrite length_take; lia).
    by rewrite lookup_take_lt.
  - rewrite lookup_app_r by (rewrite length_take; lia).
    rewrite length_take, Nat.min_l by lia.
    destruct (decide (i - p < length w)) as [Hiw|Hiw].
    + rewrite lookup_app_l by done.
      destruct (lookup_lt_is_Some_2 w (i - p) Hiw) as [c Hc].
      rewrite Hc. rewrite <- (Hw _ _ Hc). f_equal. lia.
    + rewrite lookup_app_r by lia. rewrite lookup_drop. f_equal. lia.
Qed.

Lemma hasSurrogatePair_prefix w suffix :
  hasSurrogatePair (w ++ suffix) = false → hasSurrogatePair w = false.
Proof.
  induction w as [|c w IH]; [done|].
  destruct w as [|d w]; [done|].
  change (hasSurrogatePair ((c :: d :: w) ++ suffix))
    with (isHighSurrogate c && isLowSurrogate d
          || hasSurrogatePair ((d :: w) ++ suffix)).
  change (hasSurrogatePair (c :: d :: w))
    with (isHighSurrogate c && isLowSurrogate d
          || hasSurrogatePair (d :: w)).
  intros H. apply orb_false_iff in H as [-> H]. by rewrite IH.
Qed.

Lemma plainWord_inv w :
  plainWord w = true → w ≠ [] ∧ (star ∉ w) ∧ hasSurrogatePair w = false.
Proof.
  unfold plainWord. intros H.
  apply andb_true_iff in H as [H H3]. apply andb_true_iff in H as [H1 H2].
  apply negb_true_iff in H1, H2, H3.
  apply bool_decide_eq_false in H2. split; [|done].
  intros ->. done.
Qed.

End Occurrences.

(** ** What [filter] does to an occurrence of a configured word *)

Section FilterFacts.

Import Trie.

Lemma build_accepts words w :
  w ∈ words → hasSurrogatePair w = false →
  accepts (build words) ((λ c, [c]) <$> w) = true.
Proof.
  intros Hin Hp. rewrite <- codePoints_plain by done. by apply accepts_build.
Qed.

(** A word accepted by the trie is found at each of its occurrences. *)
Lemma check_finds root pre w post :
  w ≠ [] → accepts root ((λ c, [c]) <$> w) = true →
  mkMatch w (length pre) (length pre + length w)
    ∈ words (check root (pre ++ w ++ post)).
Proof.
  intros Hne Hacc. simpl.
  by apply (scanFrom_complete pre w post root 0).
Qed.

Lemma filter_masks_occurrence root pre w post k :
  w ≠ [] → accepts root ((λ c, [c]) <$> w) = true →
  length pre ≤ k < length pre + length w →
  filter root (pre ++ w ++ post) !! k = Some star.
Proof.
  intros Hne Hacc Hk.
  by apply (filter_masks_match _ _ _ _ (check_finds root pre w post Hne Hacc)).
Qed.

(** The run of masks over an occurrence. *)
Lemma filter_run_of_masks root pre w post :
  w ≠ [] → accepts root ((λ c, [c]) <$> w) = true →
  take (length w) (drop (length pre) (filter root (pre ++ w ++ post)))
  = replicate (length w) star.
Proof.
  intros Hne Hacc. apply list_eq. intros i.
  destruct (decide (i < length w)) as [Hi|Hi].
  - rewrite lookup_take_lt, lookup_drop by done.
    rewrite filter_masks_occurrence by (done || lia).
    symmetry. by apply lookup_replicate_2.
  - rewrite lookup_take_ge by lia. symmetry.
    apply lookup_replicate_None. lia.
Qed.

(** No accepted word without a mask character survives in the output. *)
Lemma filter_removes root w text :
  w ≠ [] → star ∉ w → accepts root ((λ c, [c]) <$> w) = true →
  includes w (filter root text) = false.
Proof.
  intros Hne Hstar Hacc.
  destruct (includes w (filter root text)) eqn:Hinc; [exfalso|done].
  apply includes_inv in Hinc as (pre & post & Hout).
  assert (Hlen : length pre + length w ≤ length text).
  { rewrite <- (filter_length root text), Hout, !length_app. lia. }
  assert (Hsame : ∀ j c, w !! j = Some c →
                         text !! (length pre + j) = Some c).
  { intros j c Hc.
    assert (Ho : filter root text !! (length pre + j) = Some c).
    { rewrite Hout, lookup_app_r by lia.
      replace (length pre + j - length pre) with j by lia.
      by apply lookup_app_l_Some. }
    destruct (filter_pointwise root text (length pre + j)) as [E|E].
    - by rewrite <- E.
    - rewrite Ho in E. simplify_eq.
      exfalso. apply Hstar. by eapply list_elem_of_lookup_2. }
  pose proof (occurs_split text w (length pre) Hlen Hsame) as Hsplit.
  destruct w as [|c w]; [done|].
  assert (Hmask : filter root text !! length pre = Some star).
  { rewrite Hsplit at 1.
    set (pre' := take (length pre) text).
    assert (Hpre' : length pre' = length pre).
    { unfold pre'. rewrite length_take. simpl in Hlen. lia. }
    rewrite <- Hpre'. apply filter_masks_occurrence; [done|done|].
    simpl. lia. }
  rewrite Hout, lookup_app_r in Hmask by lia.
  rewrite Nat.sub_diag in Hmask. simpl in Hmask. simplify_eq.
  apply Hstar. by left.
Qed.

End FilterFacts.

(** ** The order of the replacements *)

Section OrderFacts.

Import Trie.

Lemma insertDesc_sorted a l :
  StronglySorted longerFirst l → StronglySorted longerFirst (insertDesc a l).
Proof.
  induction 1 as [|b l Hs IH Hall]; simpl.
  - constructor; constructor.
  - destruct (length (word a) <? length (word b)) eqn:E.
    + apply Nat.ltb_lt in E. constructor; [done|].
      apply Forall_forall. intros x Hx.
      apply elem_of_insertDesc in Hx as [->|Hx].
      * unfold longerFirst. lia.
      * by eapply Forall_forall in Hall.
    + apply Nat.ltb_ge in E. constructor; [by constructor|].
      constructor; [done|].
      eapply Forall_impl; [exact Hall|].
      unfold longerFirst. intros x Hx. lia.
Qed.

Lemma sortDesc_sorted l : StronglySorted longerFirst (sortDesc l).
Proof.
  induction l as [|a l IH]; simpl; [constructor|].
  by apply insertDesc_sorted.
Qed.

Lemma sorted_snoc (l : list (nat * nat)) y :
  StronglySorted longerKeyFirst l → Forall (λ x, longerKeyFirst x y) l →
  StronglySorted longerKeyFirst (l ++ [y]).
Proof.
  induction 1 as [|x l Hs IH Hall]; intros Hy; simpl.
  - constructor; constructor.
  - apply Forall_cons in Hy as [Hxy Hy]. constructor; [by apply IH|].
    apply Forall_app. split; [done|]. by constructor.
Qed.

(** While the loop runs over a list sorted by descending length, the
    keys are recorded in descending span length. *)
Lemma maskLoop_sorted n l st :
  StronglySorted longerFirst l → (∀ m, m ∈ l → wfMatch n m) →
  StronglySorted longerKeyFirst st.2 →
  (∀ key m, key ∈ st.2 → m ∈ l → length (word m) ≤ spanLength key) →
  StronglySorted longerKeyFirst (foldl maskStep st l).2.
Proof.
  intros Hs. revert st. induction Hs as [|m l Hs IH Hall];
    intros st Hwf Hsorted Hge; simpl; [done|].
  apply IH.
  - intros m' Hm'. apply Hwf. by right.
  - destruct st as [ft uniq]. unfold maskStep. simpl in *.
    case_bool_decide; simpl; [done|].
    apply sorted_snoc; [done|]. apply Forall_forall. intros key Hkey.
    destruct (Hwf m) as (_ & _ & Hlen); [by left|].
    specialize (Hge key m Hkey). unfold longerKeyFirst, spanLength in *.
    simpl. rewrite <- Hlen. apply Hge. by left.
  - intros key m' Hkey Hm'.
    assert (Hmm : length (word m') ≤ length (word m))
      by (by eapply Forall_forall in Hall).
    destruct st as [ft uniq]. unfold maskStep in Hkey. simpl in *.
    case_bool_decide; simpl in Hkey.
    + apply Hge; [done|by right].
    + apply elem_of_app in Hkey as [Hkey|Hkey].
      * apply Hge; [done|by right].
      * apply list_elem_of_singleton in Hkey as ->.
        destruct (Hwf m) as (_ & _ & Hlen); [by left|].
        unfold spanLength. simpl. lia.
Qed.

Lemma filterRun_sorted root text :
  StronglySorted longerKeyFirst (filterRun root text).2.
Proof.
  unfold filterRun. destruct (hasSensitive (check root text)).
  - apply (maskLoop_sorted (length text)).
    + apply sortDesc_sorted.
    + intros m Hm. rewrite elem_of_sortDesc in Hm. by apply (check_wf root).
    + constructor.
    + intros key m Hkey. by apply elem_of_nil in Hkey.
  - constructor.
Qed.

Lemma sorted_longer_before (l : list (nat * nat)) k1 k2 :
  StronglySorted longerKeyFirst l → k1 ∈ l → k2 ∈ l →
  spanLength k1 < spanLength k2 →
  ∃ a b c, l = a ++ k2 :: b ++ k1 :: c.
Proof.
  induction 1 as [|x l Hs IH Hall]; intros H1 H2 Hlt.
  - by apply elem_of_nil in H1.
  - apply elem_of_cons in H2 as [->|H2].
    + apply elem_of_cons in H1 as [->|H1]; [lia|].
      apply list_elem_of_split in H1 as (b & c & ->). by exists [], b, c.
    + apply elem_of_cons in H1 as [->|H1].
      * eapply Forall_forall in Hall; [|exact H2].
        unfold longerKeyFirst in Hall. lia.
      * destruct (IH H1 H2 Hlt) as (a & b & c & ->).
        by exists (x :: a), b, c.
Qed.

End OrderFacts.

(** ** C3: the output of [filter] holds no configured word *)

(** C3, as stated, fails at two inputs.  A word outside the Basic
    Multilingual Plane (here U+1F600, the units 55357 and 56832) is stored
    by [addWord] under one two-unit key, while [check] looks single units
    up: the word is never found and the text comes back unmasked.  And the
    empty word is a substring of every output. *)
Lemma C3_counterexample :
  ((star ∉ [55357; 56832]%N)
   ∧ includes [55357; 56832]%N [55357; 56832]%N = true
   ∧ includes [55357; 56832]%N
       (Trie.filter (Trie.build [[55357; 56832]%N]) [55357; 56832]%N) = true)
  ∧ ((star ∉ ([] : jsstring))
     ∧ includes [] (lit "abc") = true
     ∧ includes [] (Trie.filter (Trie.build [[]]) (lit "abc")) = true).
Proof.
  split; (split; [|split; vm_compute; reflexivity]).
  - intros H. apply list_elem_of_In in H. vm_compute in H. intuition discriminate.
  - intros H. by apply elem_of_nil in H.
Qed.

(** C3 (amended): for every automaton built from a list of nonempty words
    that hold neither the mask character ['*'] nor a surrogate pair, and
    every text containing one of them, the output of [filter] contains no
    configured word as a contiguous substring. *)
Theorem C3_filter_output_has_no_plain_word (words : list jsstring) text :
  (∀ w, w ∈ words → plainWord w = true) →
  (∃ w, w ∈ words ∧ includes w text = true) →
  ∀ w, w ∈ words →
    includes w (Trie.filter (Trie.build words) text) = false.
Proof.
  intros Hplain _ w Hw.
  destruct (plainWord_inv w (Hplain w Hw)) as (Hne & Hstar & Hpair).
  apply filter_removes; [done|done|]. by apply build_accepts.
Qed.

Lemma C3_filter_output_has_no_plain_word_witness :
  includes (lit "spam")
    (Trie.filter (Trie.build FilterRules.sensitiveWords) (lit "buy spam now"))
  = false.
Proof.
  apply (C3_filter_output_has_no_plain_word FilterRules.sensitiveWords
           (lit "buy spam now")).
  - intros w Hw. apply list_elem_of_In in Hw. vm_compute in Hw.
    repeat (destruct Hw as [<-|Hw]; [vm_compute; reflexivity|]).
    destruct Hw.
  - exists (lit "spam"). split; [|vm_compute; reflexivity].
    apply list_elem_of_In. vm_compute. tauto.
  - apply list_elem_of_In. vm_compute. tauto.
Defined.

(** ** C8: a word and a longer word it is a prefix of *)

(** C8, as stated, fails at two inputs.  For "ab" and "abcd" on the text
    "abcd" the loop records and replaces both spans, (0,4) and then (0,2):
    the position keys differ, so the second replacement is not skipped,
    and positions 0 and 1 are masked twice.  And when the longer word holds
    a surrogate pair (here "a" followed by U+1F600) it is never matched:
    only the shorter span is masked. *)
Lemma C8_counterexample :
  (Trie.filterRun (Trie.build [lit "ab"; lit "abcd"]) (lit "abcd")
   = (lit "****", [(0, 4); (0, 2)])
   ∧ overlap (0, 4) (0, 2) = true)
  ∧ Trie.filter (Trie.build [lit "a"; [97; 55357; 56832]%N])
      [97; 55357; 56832]%N
    = [42; 55357; 56832]%N.
Proof. vm_compute. done. Qed.

(** C8 (amended): for configured words [w1] and [w2 = w1 ++ suffix], [w1]
    and [suffix] nonempty and [w2] without a surrogate pair, masking a text
    with an occurrence of [w2] keeps the length of the text and leaves a
    run of [length w2] mask characters over the occurrence.  Both spans are
    replaced, the longer one first and the shorter one, which overlaps it,
    afterwards. *)
Theorem C8_prefix_words_mask (words : list jsstring) w1 suffix pre post :
  w1 ∈ words → (w1 ++ suffix) ∈ words →
  w1 ≠ [] → suffix ≠ [] → hasSurrogatePair (w1 ++ suffix) = false →
  let w2 := w1 ++ suffix in
  let text := pre ++ w2 ++ post in
  let out := Trie.filter (Trie.build words) text in
  let longer := (length pre, length pre + length w2) in
  let shorter := (length pre, length pre + length w1) in
  length out = length text
  ∧ take (length w2) (drop (length pre) out) = replicate (length w2) star
  ∧ overlap longer shorter = true
  ∧ ∃ a b c,
      (Trie.filterRun (Trie.build words) text).2
      = a ++ longer :: b ++ shorter :: c.
Proof.
  intros H1 H2 Hne1 Hnes Hpair w2 text out longer shorter.
  assert (Hne2 : w2 ≠ []).
  { unfold w2. intros E. by apply app_eq_nil in E as [? ?]. }
  assert (Hacc2 : accepts (Trie.build words) ((λ c, [c]) <$> w2) = true)
    by by apply build_accepts.
  assert (Hacc1 : accepts (Trie.build words) ((λ c, [c]) <$> w1) = true).
  { apply build_accepts; [done|]. by eapply hasSurrogatePair_prefix. }
  split; [apply filter_length|].
  split; [by apply filter_run_of_masks|].
  split.
  { unfold overlap, longer, shorter. simpl.
    destruct w1; [done|]. apply andb_true_iff.
    split; apply Nat.ltb_lt; unfold w2; rewrite ?length_app; simpl; lia. }
  apply sorted_longer_before.
  - apply filterRun_sorted.
  - destruct (filterRun_inv (Trie.build words) text) as [_ Hall].
    assert (Htext : text = pre ++ w1 ++ (suffix ++ post)).
    { unfold text, w2. by rewrite <- !app_assoc. }
    assert (Hin : Trie.mkMatch w1 (length pre) (length pre + length w1)
                  ∈ Trie.words (Trie.check (Trie.build words) text)).
    { rewrite Htext. by apply check_finds. }
    exact (Hall _ Hin).
  - destruct (filterRun_inv (Trie.build words) text) as [_ Hall].
    apply (Hall (Trie.mkMatch w2 (length pre) (length pre + length w2))).
    by apply check_finds.
  - unfold spanLength, shorter, longer, w2. simpl. rewrite length_app.
    destruct suffix; [done|]. simpl. lia.
Qed.

Lemma C8_prefix_words_mask_witness :
  length (Trie.filter (Trie.build [lit "ab"; lit "abcd"]) (lit "xabcdy"))
  = length (lit "xabcdy")
  ∧ take 4 (drop 1 (Trie.filter (Trie.build [lit "ab"; lit "abcd"])
                       (lit "xabcdy")))
    = replicate 4 star
  ∧ overlap (1, 5) (1, 3) = true
  ∧ ∃ a b c,
      (Trie.filterRun (Trie.build [lit "ab"; lit "abcd"]) (lit "xabcdy")).2
      = a ++ (1, 5) :: b ++ (1, 3) :: c.
Proof.
  apply (C8_prefix_words_mask [lit "ab"; lit "abcd"] (lit "ab") (lit "cd")
           (lit "x") (lit "y")).
  - apply list_elem_of_In. vm_compute. tauto.
  - apply list_elem_of_In. vm_compute. tauto.
  - discriminate.
  - discriminate.
  - vm_compute. reflexivity.
Defined.

(** ** [trim] *)

Section TrimFacts.

Lemma trimStart_head s x :
  head (trimStart s) = Some x → isWhiteSpace x = false.
Proof.
  induction s as [|c s IH]; [done|]. simpl.
  destruct (isWhiteSpace c) eqn:E; [done|].
  simpl. intros [= <-]. done.
Qed.

Lemma trimStart_last s :
  trimStart s ≠ [] → last (trimStart s) = last s.
Proof.
  induction s as [|c s IH]; [done|]. simpl.
  destruct (isWhiteSpace c); [|done].
  intros Hne. rewrite IH by done.
  destruct s as [|d s]; [done|]. by rewrite last_cons_cons.
Qed.

Lemma trimEnd_last s x :
  last (trimEnd s) = Some x → isWhiteSpace x = false.
Proof. unfold trimEnd. rewrite last_reverse. apply trimStart_head. Qed.

Lemma trimEnd_head s x :
  (∀ y, head s = Some y → isWhiteSpace y = false) →
  head (trimEnd s) = Some x → isWhiteSpace x = false.
Proof.
  unfold trimEnd. rewrite head_reverse. intros Hs Hx.
  apply Hs. rewrite <- last_reverse, <- Hx. symmetry.
  apply trimStart_last. intros E. by rewrite E in Hx.
Qed.

Lemma trim_trimmedEnds s : trimmedEnds (trim s).
Proof.
  split; intros x Hx.
  - eapply trimEnd_head; [|exact Hx]. apply trimStart_head.
  - by eapply trimEnd_last.
Qed.

End TrimFacts.

(** ** C10: validation in [filterDanmaku] *)

Section Validation.

Import FilterRules.

Lemma filter_empty root : Trie.filter root [] = [].
Proof. reflexivity. Qed.

(** What an accepted result holds. *)
Lemma filterDanmaku_allowed trie v :
  allowed (filterDanmaku trie v) = true →
  content (filterDanmaku trie v)
  = match v with JStr s => trim s | _ => [] end.
Proof.
  unfold filterDanmaku.
  destruct (truthy v && negb (isString v)) eqn:E1; [done|].
  destruct v as [| |b|z|s|n|]; simpl in *; try done;
    try (destruct trie; done).
  - destruct b; [done|]. destruct trie; done.
  - destruct (negb (z =? 0)%Z); [done|]. destruct trie; done.
  - case_bool_decide as Hs; simpl.
    + subst s. destruct trie; done.
    + destruct (50 <? length (trim s)); [done|].
      destruct trie as [t|]; simpl; [|done].
      case_bool_decide as Hf; [done|]. done.
Qed.

End Validation.

(** ** The shape of what [processDanmaku] emits *)

Section PipelineFacts.

Import FilterRules SocketHandlers.

(** Opens [processDanmaku] along its three checks. *)
Ltac open_pipeline :=
  unfold processDanmaku;
  repeat match goal with
    | |- context [checkRateLimit ?a ?b ?c ?d ?e] =>
        destruct (checkRateLimit a b c d e) as [? ?]
    | |- context [checkDuplicateMessage ?a ?b ?c ?d ?e] =>
        destruct (checkDuplicateMessage a b c d e) as [? ?]
    | |- context [negb (ck_allowed ?r)] => destruct (ck_allowed r); simpl
    end.

(** A broadcast carries the filter's content, or the falsy content the
    filter was not run on. *)
Lemma processDanmaku_broadcast tk socket data st room f :
  NewDanmaku room f ∈ (processDanmaku tk socket data st).2 →
  if truthy (d_content (danmaku data)) then
    allowed (filterDanmaku (sensitiveWordTrie st) (d_content (danmaku data)))
    = true
    ∧ f_content f
      = JStr (content (filterDanmaku (sensitiveWordTrie st)
                         (d_content (danmaku data))))
  else f_content f = d_content (danmaku data).
Proof.
  open_pipeline;
    try (intros Hin; apply list_elem_of_singleton in Hin; discriminate).
  destruct (truthy (d_content (danmaku data))); simpl.
  - destruct (allowed _) eqn:Ha; simpl;
      intros Hin; apply list_elem_of_singleton in Hin; [|discriminate].
    by injection Hin as _ ->.
  - intros Hin; apply list_elem_of_singleton in Hin.
    by injection Hin as _ ->.
Qed.

(** Nothing but one notice or one broadcast is emitted. *)
Lemma processDanmaku_events tk socket data st :
  (∃ n, (processDanmaku tk socket data st).2 = [SendFailed socket n])
  ∨ (∃ f, (processDanmaku tk socket data st).2
          = [NewDanmaku (roomId data) f]).
Proof.
  open_pipeline; eauto.
  destruct (negb _); simpl; eauto.
Qed.

Lemma processDanmaku_roomInfo tk socket data st :
  roomInfo (processDanmaku tk socket data st).1 = roomInfo st.
Proof.
  open_pipeline; try done.
  destruct (negb _); done.
Qed.

End PipelineFacts.

Section SensitiveContent.

Import FilterRules SocketHandlers.

Lemma includes_nil_r w : w ≠ [] → includes w [] = false.
Proof. by destruct w. Qed.

(** A configured plain word in the text makes [filter] change it. *)
Lemma filter_changes (words : list jsstring) w text :
  w ∈ words → plainWord w = true → includes w text = true →
  Trie.filter (Trie.build words) text ≠ text.
Proof.
  intros Hw Hplain Hinc E.
  destruct (plainWord_inv w Hplain) as (Hne & Hstar & Hpair).
  pose proof (filter_removes (Trie.build words) w text Hne Hstar
                (build_accepts words w Hw Hpair)) as Hrem.
  rewrite E in Hrem. congruence.
Qed.

(** After the two counter checks, the message is judged by
    [filterDanmaku] on its text alone. *)
Lemma processDanmaku_after_checks tk socket data st :
  checksPass tk socket data st = true →
  (processDanmaku tk socket data st).2
  = if truthy (d_content (danmaku data)) then
      let r := filterDanmaku (sensitiveWordTrie st)
                 (d_content (danmaku data)) in
      if allowed r then
        [NewDanmaku (roomId data)
           (mkFinal (default (nanoid tk) (d_id (danmaku data)))
              (d_userId (danmaku data)) (JStr (content r))
              (d_type (danmaku data)) (d_color (danmaku data)) (now tk)
              (if bool_decide (d_type (danmaku data) = lit "emoji")
               then d_emojiInfo (danmaku data) else None))]
      else [SendFailed socket NoticeSensitive]
    else
      [NewDanmaku (roomId data)
         (mkFinal (default (nanoid tk) (d_id (danmaku data)))
            (d_userId (danmaku data)) (d_content (danmaku data))
            (d_type (danmaku data)) (d_color (danmaku data)) (now tk)
            (if bool_decide (d_type (danmaku data) = lit "emoji")
             then d_emojiInfo (danmaku data) else None))].
Proof.
  unfold checksPass, processDanmaku.
  destruct (checkRateLimit _ _ _ _ _) as [r1 redis1].
  destruct (checkDuplicateMessage _ _ _ _ _) as [r2 redis2]. simpl.
  intros H. apply andb_true_iff in H as [-> ->]. simpl.
  destruct (truthy (d_content (danmaku data))); simpl; [|done].
  by destruct (allowed _).
Qed.

End SensitiveContent.

(** ** C10: what [filterDanmaku] rejects and what it lets through *)

(** C10, as stated, fails for non-string content that is falsy: the number
    0 and [null] pass the format test, which only rejects truthy values,
    and are accepted as an empty text. *)
Lemma C10_counterexample :
  (isString (JNum 0) = false
   ∧ FilterRules.filterDanmaku FilterRules.initializeFilterRules (JNum 0)
     = FilterRules.mkFilterResult true FilterRules.ReasonPassed [])
  ∧ (isString JNull = false
     ∧ FilterRules.filterDanmaku FilterRules.initializeFilterRules JNull
       = FilterRules.mkFilterResult true FilterRules.ReasonPassed []).
Proof. vm_compute. done. Qed.

(** C10 (amended): [filterDanmaku] rejects a string whose trimmed content
    is longer than 50 code units (with the length reason) and rejects every
    truthy non-string content (with the format reason); falsy non-string
    content ([undefined], [null], [false], 0) is accepted as the empty
    text.  Accepted textual content is the trimmed input, and the text of a
    broadcast message has white space at neither end. *)
Theorem C10_filterDanmaku_validation (trie : option Trie.TrieNode) (v : jsval) :
  (∀ s, v = JStr s → 50 < length (trim s) →
        FilterRules.filterDanmaku trie v
        = FilterRules.mkFilterResult false FilterRules.ReasonTooLong (trim s))
  ∧ (isString v = false → truthy v = true →
     FilterRules.filterDanmaku trie v
     = FilterRules.mkFilterResult false FilterRules.ReasonBadFormat [])
  ∧ (isString v = false → truthy v = false →
     FilterRules.allowed (FilterRules.filterDanmaku trie v) = true
     ∧ FilterRules.content (FilterRules.filterDanmaku trie v) = [])
  ∧ (FilterRules.allowed (FilterRules.filterDanmaku trie v) = true →
     FilterRules.content (FilterRules.filterDanmaku trie v)
     = match v with JStr s => trim s | _ => [] end
     ∧ trimmedEnds (FilterRules.content (FilterRules.filterDanmaku trie v)))
  ∧ (∀ tk socket data st room f c,
       SocketHandlers.NewDanmaku room f
         ∈ (SocketHandlers.processDanmaku tk socket data st).2 →
       SocketHandlers.f_content f = JStr c → trimmedEnds c).
Proof.
  split; [|split; [|split; [|split]]].
  - intros s -> Hlong. unfold FilterRules.filterDanmaku. simpl.
    assert (Hs : s ≠ []) by (intros ->; vm_compute in Hlong; lia).
    rewrite bool_decide_false by done. simpl.
    apply Nat.ltb_lt in Hlong. by rewrite Hlong.
  - intros Hns Ht. unfold FilterRules.filterDanmaku. by rewrite Ht, Hns.
  - intros Hns Ht. unfold FilterRules.filterDanmaku. rewrite Ht. simpl.
    destruct v; try done; destruct trie; done.
  - intros Ha. pose proof (filterDanmaku_allowed trie v Ha) as Hc.
    split; [done|]. rewrite Hc. destruct v; try done.
    apply trim_trimmedEnds.
  - intros tk socket data st room f c Hin Hc.
    apply processDanmaku_broadcast in Hin.
    destruct (truthy _) eqn:Ht.
    + destruct Hin as [Ha Hf]. rewrite Hf in Hc. injection Hc as <-.
      rewrite (filterDanmaku_allowed _ _ Ha).
      destruct (SocketHandlers.d_content _); try done.
      apply trim_trimmedEnds.
    + rewrite Hin in Hc. rewrite Hc in Ht. simpl in Ht.
      apply negb_false_iff, bool_decide_eq_true in Ht as ->. done.
Qed.

Lemma C10_filterDanmaku_validation_witness :
  FilterRules.filterDanmaku FilterRules.initializeFilterRules
    (JStr (lit " " ++ replicate 51 97%N ++ lit " "))
  = FilterRules.mkFilterResult false FilterRules.ReasonTooLong
      (trim (lit " " ++ replicate 51 97%N ++ lit " ")).
Proof.
  apply (proj1 (C10_filterDanmaku_validation FilterRules.initializeFilterRules
                  (JStr (lit " " ++ replicate 51 97%N ++ lit " ")))
           (lit " " ++ replicate 51 97%N ++ lit " ") eq_refl).
  vm_compute. lia.
Defined.

(** ** C1: a message with a forbidden word *)




(** ** The counter store *)

Section CounterFacts.

Import Database.

Lemma live_insert_eq srv r cmds now key e :
  live (mkServer r (<[key := e]> (data srv)) cmds) now key
  = match expireAt e with
    | Some t => if (t <=? now)%Z then None else Some e
    | None => Some e
    end.
Proof. unfold live. simpl. by rewrite lookup_insert_eq. Qed.

Lemma live_insert_ne srv r cmds now key key' e :
  key ≠ key' →
  live (mkServer r (<[key := e]> (data srv)) cmds) now key'
  = live srv now key'.
Proof. intros Hne. unfold live. simpl. by rewrite lookup_insert_ne. Qed.

(** [incrWithExpire] on a reachable server, in one step. *)
Lemma incrWithExpire_reachable key ttl now srv :
  reachable srv = true →
  incrWithExpire key ttl now (Some srv)
  = let fullKey := lit "danmaku:" ++ key in
    let e := nextEntry srv now fullKey ttl in
    (mkIncr (count e) true,
     Some (mkServer true (<[fullKey := e]> (data srv))
             (commands srv
                ++ INCR fullKey
                :: (if (count e =? 1)%Z then [EXPIRE fullKey ttl] else [])))).
Proof.
  intros Hr. unfold incrWithExpire, incr, expire, nextEntry. rewrite Hr.
  cbv zeta. set (fullKey := lit "danmaku:" ++ key).
  destruct (live srv now fullKey) as [e|] eqn:Hlive; simpl.
  - destruct (count e + 1 =? 1)%Z eqn:E; simpl.
    + pose proof (proj1 (Z.eqb_eq _ _) E) as Hc. rewrite Hc.
      rewrite live_insert_eq. simpl.
      assert (Hnew : live srv now fullKey = Some e) by done.
      unfold live in Hnew.
      destruct (data srv !! fullKey) as [e0|]; [|done].
      destruct (expireAt e0) as [t|] eqn:Ht.
      * destruct (t <=? now)%Z eqn:Hexp; [done|]. simplify_eq.
        rewrite Ht, Hexp. simpl. rewrite insert_insert_eq.
        by rewrite <- app_assoc.
      * simplify_eq. rewrite Ht. simpl. rewrite insert_insert_eq.
        by rewrite <- app_assoc.
    + by rewrite E.
  - rewrite live_insert_eq. simpl. rewrite insert_insert_eq.
    by rewrite <- app_assoc.
Qed.

Lemma incrWithExpire_unavailable key ttl now redis :
  unavailable redis = true →
  incrWithExpire key ttl now redis = (mkIncr 1 false, redis).
Proof.
  destruct redis as [srv|]; [|done]. simpl. intros H.
  apply negb_true_iff in H. unfold incrWithExpire. by rewrite H.
Qed.

Lemma incrKeys_app l1 l2 : incrKeys (l1 ++ l2) = incrKeys l1 ++ incrKeys l2.
Proof. unfold incrKeys. apply flat_map_app. Qed.

Lemma userKey_roomKey u r : userKey u ≠ roomKey r.
Proof. unfold userKey, roomKey. cbn. intros E. discriminate E. Qed.

Lemma userKey_duplicateKey u u' h : userKey u ≠ duplicateKey u' h.
Proof. unfold userKey, duplicateKey. cbn. intros E. discriminate E. Qed.

Lemma roomKey_duplicateKey r u h : roomKey r ≠ duplicateKey u h.
Proof. unfold roomKey, duplicateKey. cbn. intros E. discriminate E. Qed.

Lemma duplicateKey_sender u u' h : u ≠ u' → duplicateKey u h ≠ duplicateKey u' h.
Proof.
  unfold duplicateKey. intros Hne E.
  do 2 apply app_inv_head in E. by apply app_inv_tail in E.
Qed.

Lemma nextEntry_room_bound srv now r n ttl :
  (0 ≤ n)%Z → roomBelow n srv r →
  (count (nextEntry srv now (roomKey r) ttl) ≤ n + 1)%Z.
Proof.
  intros Hn Hb. unfold nextEntry, live.
  destruct (data srv !! roomKey r) as [e|] eqn:He; simpl; [|lia].
  specialize (Hb e He).
  destruct (expireAt e) as [t|]; [destruct (t <=? now)%Z|]; simpl; try lia;
    destruct (count e + 1 =? 1)%Z; simpl; lia.
Qed.

(** [nextEntry] read off the stored entry. *)
Lemma nextEntry_fresh srv now key ttl :
  live srv now key = None →
  nextEntry srv now key ttl = mkEntry 1 (Some (now + 1000 * ttl)%Z).
Proof. intros H. unfold nextEntry. by rewrite H. Qed.

Lemma nextEntry_live srv now key ttl c t :
  data srv !! key = Some (mkEntry c (Some t)) → (now < t)%Z → (1 ≤ c)%Z →
  nextEntry srv now key ttl = mkEntry (c + 1) (Some t).
Proof.
  intros Hd Ht Hc. unfold nextEntry, live. rewrite Hd. simpl.
  replace (t <=? now)%Z with false by (symmetry; apply Z.leb_gt; lia).
  simpl. by replace (c + 1 =? 1)%Z with false
    by (symmetry; apply Z.eqb_neq; lia).
Qed.

Lemma nextEntry_expired srv now key ttl c t :
  data srv !! key = Some (mkEntry c (Some t)) → (t ≤ now)%Z →
  nextEntry srv now key ttl = mkEntry 1 (Some (now + 1000 * ttl)%Z).
Proof.
  intros Hd Ht. apply nextEntry_fresh. unfold live. rewrite Hd. simpl.
  by replace (t <=? now)%Z with true by (symmetry; apply Z.leb_le; lia).
Qed.

Lemma nextEntry_ext srv srv' now key ttl :
  data srv !! key = data srv' !! key →
  nextEntry srv now key ttl = nextEntry srv' now key ttl.
Proof. intros H. unfold nextEntry, live. by rewrite H. Qed.

Lemma nextEntry_bound srv now key ttl n :
  (1 ≤ n)%Z →
  (∀ e, live srv now key = Some e → (count e < n)%Z) →
  (count (nextEntry srv now key ttl) ≤ n)%Z.
Proof.
  intros Hn Hb. unfold nextEntry.
  destruct (live srv now key) as [e|]; simpl; [|lia].
  specialize (Hb e eq_refl).
  destruct (count e + 1 =? 1)%Z; simpl; lia.
Qed.

Lemma hashString_text s :
  FilterRules.hashString (JStr s) = Some (hashText s).
Proof.
  unfold hashText, FilterRules.hashString. by destruct (length s =? 0).
Qed.

End CounterFacts.

(** ** C6: fail-open when the counter store is unavailable *)

(** C6: for every input, when the Redis client is missing or its server
    rejects the commands, [incrWithExpire] reports [hasRedis = false], and
    both the rate-limit check and the duplicate check allow the message and
    leave the store as it is. *)
Theorem C6_fail_open (cfg : FilterRules.Config) (userId roomId : jsstring)
    (content : jsval) (now : Z) (redis : option Database.RedisServer) :
  unavailable redis = true →
  FilterRules.checkRateLimit cfg userId roomId now redis
  = (FilterRules.mkCheckResult true FilterRules.ReasonRatePassed None None,
     redis)
  ∧ FilterRules.ck_allowed
      (FilterRules.checkDuplicateMessage cfg userId content now redis).1
    = true
  ∧ (FilterRules.checkDuplicateMessage cfg userId content now redis).2 = redis
  ∧ (∀ key ttl,
       Database.hasRedis (Database.incrWithExpire key ttl now redis).1 = false).
Proof.
  intros Hun. split; [|split; [|split]].
  - unfold FilterRules.checkRateLimit.
    by rewrite !incrWithExpire_unavailable by done.
  - unfold FilterRules.checkDuplicateMessage.
    destruct (FilterRules.hashString content); [|done].
    by rewrite incrWithExpire_unavailable by done.
  - unfold FilterRules.checkDuplicateMessage.
    destruct (FilterRules.hashString content); [|done].
    by rewrite incrWithExpire_unavailable by done.
  - intros key ttl. by rewrite incrWithExpire_unavailable by done.
Qed.

Lemma C6_fail_open_witness :
  FilterRules.checkRateLimit FilterRules.config (lit "u1") (lit "r1") 0
    (Some (Database.mkServer false ∅ []))
  = (FilterRules.mkCheckResult true FilterRules.ReasonRatePassed None None,
     Some (Database.mkServer false ∅ []))
  ∧ FilterRules.ck_allowed
      (FilterRules.checkDuplicateMessage FilterRules.config (lit "u1")
         (JStr (lit "hello")) 0 (Some (Database.mkServer false ∅ []))).1
    = true
  ∧ (FilterRules.checkDuplicateMessage FilterRules.config (lit "u1")
       (JStr (lit "hello")) 0 (Some (Database.mkServer false ∅ []))).2
    = Some (Database.mkServer false ∅ [])
  ∧ (∀ key ttl,
       Database.hasRedis
         (Database.incrWithExpire key ttl 0
            (Some (Database.mkServer false ∅ []))).1 = false).
Proof.
  apply (C6_fail_open FilterRules.config (lit "u1") (lit "r1")
           (JStr (lit "hello")) 0 (Some (Database.mkServer false ∅ []))).
  reflexivity.
Defined.

(** ** One call of a counter check on a reachable server *)

Section CheckSteps.

Import Database FilterRules.

#[local] Opaque lit userKey roomKey duplicateKey incrWithExpire nextEntry.

(** A reachable server, a sender and the time of the call. *)
Variable srv : RedisServer.
Hypothesis Hr : reachable srv = true.
Variables (u : jsstring) (now : Z).

Lemma checkRateLimit_step r n :
  (0 ≤ n < 1000)%Z → roomBelow n srv r →
  ∃ srv',
    checkRateLimit config u r now (Some srv)
    = (rateVerdict (count (nextEntry srv now (userKey u) 1)), Some srv')
    ∧ reachable srv' = true
    ∧ data srv' !! userKey u = Some (nextEntry srv now (userKey u) 1)
    ∧ roomBelow (n + 1) srv' r.
Proof.
  intros Hn Hb. unfold checkRateLimit.
  rewrite incrWithExpire_reachable by done. cbv zeta.
  change (lit "danmaku:" ++ lit "rate_limit:user:" ++ u) with (userKey u).
  simpl. unfold rateVerdict.
  destruct (2 <? count (nextEntry srv now (userKey u) 1))%Z eqn:E.
  - eexists. split; [done|]. simpl. split; [done|]. split.
    + by rewrite lookup_insert_eq.
    + intros e. simpl. rewrite lookup_insert_ne by apply userKey_roomKey.
      intros He. specialize (Hb e He). lia.
  - rewrite incrWithExpire_reachable by done. cbv zeta.
    change (lit "danmaku:" ++ lit "rate_limit:room:" ++ r) with (roomKey r).
    simpl.
    match goal with
    | |- context [nextEntry ?s now (roomKey r) 1] => set (srvU := s)
    end.
    assert (HbU : roomBelow n srvU r).
    { intros e. unfold srvU. simpl.
      rewrite lookup_insert_ne by apply userKey_roomKey. apply Hb. }
    pose proof (nextEntry_room_bound srvU now r n 1 ltac:(lia) HbU) as Hle.
    replace (1000 <? count (nextEntry srvU now (roomKey r) 1))%Z with false
      by (symmetry; apply Z.ltb_ge; lia).
    eexists. split; [done|]. simpl. split; [done|]. split.
    + rewrite lookup_insert_ne
        by (intros E'; symmetry in E'; by apply userKey_roomKey in E').
      unfold srvU. simpl. by rewrite lookup_insert_eq.
    + intros e. simpl. rewrite lookup_insert_eq. intros [= <-]. done.
Qed.

Lemma checkDuplicateMessage_step content h :
  hashString content = Some h →
  ∃ srv',
    checkDuplicateMessage config u content now (Some srv)
    = (duplicateVerdict (count (nextEntry srv now (duplicateKey u h) 10)),
       Some srv')
    ∧ reachable srv' = true
    ∧ data srv' = <[duplicateKey u h :=
                      nextEntry srv now (duplicateKey u h) 10]> (data srv).
Proof.
  intros Hh. unfold checkDuplicateMessage. rewrite Hh.
  rewrite incrWithExpire_reachable by done. cbv zeta.
  change (lit "danmaku:" ++ lit "duplicate:" ++ u ++ lit ":" ++ h)
    with (duplicateKey u h).
  simpl. unfold duplicateVerdict.
  destruct (3 <? count (nextEntry srv now (duplicateKey u h) 10))%Z;
    eexists; (split; [done|]); simpl; by split.
Qed.

End CheckSteps.

(** ** C4: the sender's fixed window *)

(** C4: with the default limits (2 messages per 1-second window for a
    sender), on a reachable server where the sender has no live counter and
    the room counter is far from its limit, three [checkRateLimit] calls of
    one sender within the window are allowed, allowed and denied (with the
    count 3); a call after the counter's expiry is allowed again, and the
    sender's counter is then 1 with a new expiry. *)
Theorem C4_rate_limit_window (srv : Database.RedisServer)
    (u r : jsstring) (t0 t1 t2 t3 : Z) :
  Database.reachable srv = true →
  Database.live srv t0 (userKey u) = None →
  roomBelow 900 srv r →
  (t0 ≤ t1)%Z → (t1 ≤ t2)%Z → (t2 < t0 + 1000)%Z → (t0 + 1000 ≤ t3)%Z →
  ∃ s1 s2 s3 s4,
    FilterRules.checkRateLimit FilterRules.config u r t0 (Some srv)
    = (FilterRules.mkCheckResult true FilterRules.ReasonRatePassed None None,
       Some s1)
    ∧ FilterRules.checkRateLimit FilterRules.config u r t1 (Some s1)
      = (FilterRules.mkCheckResult true FilterRules.ReasonRatePassed None None,
         Some s2)
    ∧ FilterRules.checkRateLimit FilterRules.config u r t2 (Some s2)
      = (FilterRules.mkCheckResult false FilterRules.ReasonUserRate
           (Some 2%Z) (Some 3%Z), Some s3)
    ∧ FilterRules.checkRateLimit FilterRules.config u r t3 (Some s3)
      = (FilterRules.mkCheckResult true FilterRules.ReasonRatePassed None None,
         Some s4)
    ∧ Database.live s4 t3 (userKey u)
      = Some (Database.mkEntry 1 (Some (t3 + 1000)%Z)).
Proof.
  intros Hr Hfresh Hroom H01 H12 H2 H3.
  destruct (checkRateLimit_step srv Hr u t0 r 900 ltac:(lia) Hroom)
    as (s1 & E1 & Hr1 & Hd1 & Hroom1).
  rewrite nextEntry_fresh in E1, Hd1 by done.
  destruct (checkRateLimit_step s1 Hr1 u t1 r (900 + 1) ltac:(lia) Hroom1)
    as (s2 & E2 & Hr2 & Hd2 & Hroom2).
  rewrite (nextEntry_live s1 t1 _ 1 1 (t0 + 1000 * 1)) in E2, Hd2
    by (done || lia).
  destruct (checkRateLimit_step s2 Hr2 u t2 r (900 + 1 + 1) ltac:(lia) Hroom2)
    as (s3 & E3 & Hr3 & Hd3 & Hroom3).
  rewrite (nextEntry_live s2 t2 _ 1 (1 + 1) (t0 + 1000 * 1)) in E3, Hd3
    by (done || lia).
  destruct (checkRateLimit_step s3 Hr3 u t3 r (900 + 1 + 1 + 1) ltac:(lia) Hroom3)
    as (s4 & E4 & Hr4 & Hd4 & Hroom4).
  rewrite (nextEntry_expired s3 t3 _ 1 (1 + 1 + 1) (t0 + 1000 * 1))
    in E4, Hd4 by (done || lia).
  exists s1, s2, s3, s4.
  split; [exact E1|]. split; [exact E2|]. split; [exact E3|].
  split; [exact E4|].
  unfold Database.live. rewrite Hd4. simpl.
  replace (t3 + 1000 * 1 <=? t3)%Z with false
    by (symmetry; apply Z.leb_gt; lia).
  repeat f_equal; lia.
Qed.

Lemma C4_rate_limit_window_witness :
  ∃ s1 s2 s3 s4,
    FilterRules.checkRateLimit FilterRules.config (lit "u1") (lit "r1") 0
      (Some emptyServer)
    = (FilterRules.mkCheckResult true FilterRules.ReasonRatePassed None None,
       Some s1)
    ∧ FilterRules.checkRateLimit FilterRules.config (lit "u1") (lit "r1") 300
        (Some s1)
      = (FilterRules.mkCheckResult true FilterRules.ReasonRatePassed None None,
         Some s2)
    ∧ FilterRules.checkRateLimit FilterRules.config (lit "u1") (lit "r1") 600
        (Some s2)
      = (FilterRules.mkCheckResult false FilterRules.ReasonUserRate
           (Some 2%Z) (Some 3%Z), Some s3)
    ∧ FilterRules.checkRateLimit FilterRules.config (lit "u1") (lit "r1") 1000
        (Some s3)
      = (FilterRules.mkCheckResult true FilterRules.ReasonRatePassed None None,
         Some s4)
    ∧ Database.live s4 1000 (userKey (lit "u1"))
      = Some (Database.mkEntry 1 (Some (1000 + 1000)%Z)).
Proof.
  apply (C4_rate_limit_window emptyServer (lit "u1") (lit "r1") 0 300 600 1000).
  - reflexivity.
  - reflexivity.
  - intros e He. vm_compute in He. discriminate He.
  - lia.
  - lia.
  - lia.
  - lia.
Defined.

(** ** C5: repeated content *)

(** C5: with the default limits (3 repeats in a 10-second window), on a
    reachable server where sender [a] has no live counter for the text,
    four [checkDuplicateMessage] calls of [a] with the same text within the
    window are allowed three times and denied the fourth time (with the
    count 4).  Another sender [b] has another key, and a call of [b] with
    the same text, whose own counter is below 3, is allowed. *)
Theorem C5_duplicate_window (srv : Database.RedisServer)
    (a b s : jsstring) (t0 t1 t2 t3 tb : Z) :
  Database.reachable srv = true →
  a ≠ b →
  Database.live srv t0 (duplicateKey a (hashText s)) = None →
  (∀ e, Database.live srv tb (duplicateKey b (hashText s)) = Some e →
        (Database.count e < 3)%Z) →
  (t0 ≤ t1)%Z → (t1 ≤ t2)%Z → (t2 ≤ t3)%Z → (t3 < t0 + 10000)%Z →
  duplicateKey a (hashText s) ≠ duplicateKey b (hashText s)
  ∧ ∃ s1 s2 s3 s4 s5,
      FilterRules.checkDuplicateMessage FilterRules.config a (JStr s) t0
        (Some srv)
      = (FilterRules.mkCheckResult true FilterRules.ReasonDuplicatePassed
           None None, Some s1)
      ∧ FilterRules.checkDuplicateMessage FilterRules.config a (JStr s) t1
          (Some s1)
        = (FilterRules.mkCheckResult true FilterRules.ReasonDuplicatePassed
             None None, Some s2)
      ∧ FilterRules.checkDuplicateMessage FilterRules.config a (JStr s) t2
          (Some s2)
        = (FilterRules.mkCheckResult true FilterRules.ReasonDuplicatePassed
             None None, Some s3)
      ∧ FilterRules.checkDuplicateMessage FilterRules.config a (JStr s) t3
          (Some s3)
        = (FilterRules.mkCheckResult false FilterRules.ReasonDuplicate
             (Some 3%Z) (Some 4%Z), Some s4)
      ∧ FilterRules.checkDuplicateMessage FilterRules.config b (JStr s) tb
          (Some s4)
        = (FilterRules.mkCheckResult true FilterRules.ReasonDuplicatePassed
             None None, Some s5).
Proof.
  intros Hr Hab Hfresh Hb H01 H12 H23 H3.
  pose proof (duplicateKey_sender a b (hashText s) Hab) as Hkeys.
  split; [done|].
  set (ka := duplicateKey a (hashText s)) in *.
  set (kb := duplicateKey b (hashText s)) in *.
  pose proof (hashString_text s) as Hh.
  destruct (checkDuplicateMessage_step srv Hr a t0 (JStr s) _ Hh)
    as (s1 & E1 & Hr1 & Hd1).
  fold ka in E1, Hd1. rewrite nextEntry_fresh in E1, Hd1 by done.
  destruct (checkDuplicateMessage_step s1 Hr1 a t1 (JStr s) _ Hh)
    as (s2 & E2 & Hr2 & Hd2).
  fold ka in E2, Hd2.
  rewrite (nextEntry_live s1 t1 ka 10 1 (t0 + 1000 * 10)) in E2, Hd2
    by (rewrite ?Hd1, ?lookup_insert_eq; done || lia).
  destruct (checkDuplicateMessage_step s2 Hr2 a t2 (JStr s) _ Hh)
    as (s3 & E3 & Hr3 & Hd3).
  fold ka in E3, Hd3.
  rewrite (nextEntry_live s2 t2 ka 10 (1 + 1) (t0 + 1000 * 10)) in E3, Hd3
    by (rewrite ?Hd2, ?lookup_insert_eq; done || lia).
  destruct (checkDuplicateMessage_step s3 Hr3 a t3 (JStr s) _ Hh)
    as (s4 & E4 & Hr4 & Hd4).
  fold ka in E4, Hd4.
  rewrite (nextEntry_live s3 t3 ka 10 (1 + 1 + 1) (t0 + 1000 * 10))
    in E4, Hd4 by (rewrite ?Hd3, ?lookup_insert_eq; done || lia).
  destruct (checkDuplicateMessage_step s4 Hr4 b tb (JStr s) _ Hh)
    as (s5 & E5 & Hr5 & Hd5).
  fold kb in E5, Hd5.
  assert (Hsame : Database.data s4 !! kb = Database.data srv !! kb).
  { rewrite Hd4, Hd3, Hd2, Hd1. by rewrite !lookup_insert_ne. }
  rewrite (nextEntry_ext s4 srv tb kb 10 Hsame) in E5.
  pose proof (nextEntry_bound srv tb kb 10 3 ltac:(lia) Hb) as Hle.
  exists s1, s2, s3, s4, s5.
  split; [exact E1|]. split; [exact E2|]. split; [exact E3|].
  split; [exact E4|].
  rewrite E5. unfold duplicateVerdict.
  by replace (3 <? Database.count (nextEntry srv tb kb 10))%Z with false
    by (symmetry; apply Z.ltb_ge; lia).
Qed.

Lemma C5_duplicate_window_witness :
  duplicateKey (lit "alice") (hashText (lit "hello"))
  ≠ duplicateKey (lit "bob") (hashText (lit "hello"))
  ∧ ∃ s1 s2 s3 s4 s5,
      FilterRules.checkDuplicateMessage FilterRules.config (lit "alice")
        (JStr (lit "hello")) 0 (Some emptyServer)
      = (FilterRules.mkCheckResult true FilterRules.ReasonDuplicatePassed
           None None, Some s1)
      ∧ FilterRules.checkDuplicateMessage FilterRules.config (lit "alice")
          (JStr (lit "hello")) 2000 (Some s1)
        = (FilterRules.mkCheckResult true FilterRules.ReasonDuplicatePassed
             None None, Some s2)
      ∧ FilterRules.checkDuplicateMessage FilterRules.config (lit "alice")
          (JStr (lit "hello")) 4000 (Some s2)
        = (FilterRules.mkCheckResult true FilterRules.ReasonDuplicatePassed
             None None, Some s3)
      ∧ FilterRules.checkDuplicateMessage FilterRules.config (lit "alice")
          (JStr (lit "hello")) 6000 (Some s3)
        = (FilterRules.mkCheckResult false FilterRules.ReasonDuplicate
             (Some 3%Z) (Some 4%Z), Some s4)
      ∧ FilterRules.checkDuplicateMessage FilterRules.config (lit "bob")
          (JStr (lit "hello")) 6500 (Some s4)
        = (FilterRules.mkCheckResult true FilterRules.ReasonDuplicatePassed
             None None, Some s5).
Proof.
  apply (C5_duplicate_window emptyServer (lit "alice") (lit "bob")
           (lit "hello") 0 2000 4000 6000 6500).
  - reflexivity.
  - intros E. vm_compute in E. discriminate E.
  - reflexivity.
  - intros e He. vm_compute in He. discriminate He.
  - lia.
  - lia.
  - lia.
  - lia.
Defined.

(** ** C9: the life of a room *)

Section RoomFacts.

Import SocketHandlers.

Lemma keepRoom_last socket room :
  onlineUsers room = {[socket]} → messageQueue room = [] →
  keepRoom (removeUser socket room) = false.
Proof.
  intros Hu Hq. unfold keepRoom, removeUser. simpl. rewrite Hu, Hq.
  rewrite difference_diag_L, size_empty. done.
Qed.

Lemma joinRoom_fresh t socket rid st :
  roomInfo st !! rid = None →
  initRoom rid t (roomInfo st) !! rid = Some (mkRoom ∅ [] t)
  ∧ roomInfo (joinRoom t socket rid st).1 !! rid
    = Some (mkRoom {[socket]} [] t).
Proof.
  intros Hnone. unfold joinRoom, initRoom. rewrite Hnone.
  unfold setRooms. cbn [fst roomInfo].
  rewrite !lookup_insert_eq. cbn [onlineUsers messageQueue lastProcessTime].
  by rewrite (right_id_L ∅ (∪)).
Qed.

End RoomFacts.

(** C9: when the only member of a room with an empty queue leaves, by
    ['leave-room'] or by ['disconnect'], the room is no longer in
    [roomInfo]; a later ['join-room'] for the same id makes [initRoom]
    create a room with no member and an empty queue, to which the joining
    socket is then added. *)
Theorem C9_room_lifecycle (st : SocketHandlers.State)
    (socket rid : jsstring) (room : SocketHandlers.Room) :
  SocketHandlers.roomInfo st !! rid = Some room →
  SocketHandlers.onlineUsers room = {[socket]} →
  SocketHandlers.messageQueue room = [] →
  let left := (SocketHandlers.leaveRoom socket rid st).1 in
  let gone := (SocketHandlers.disconnect socket st).1 in
  SocketHandlers.roomInfo left !! rid = None
  ∧ SocketHandlers.roomInfo gone !! rid = None
  ∧ ∀ t socket',
      SocketHandlers.initRoom rid t (SocketHandlers.roomInfo left) !! rid
      = Some (SocketHandlers.mkRoom ∅ [] t)
      ∧ SocketHandlers.roomInfo
          (SocketHandlers.joinRoom t socket' rid left).1 !! rid
        = Some (SocketHandlers.mkRoom {[socket']} [] t)
      ∧ SocketHandlers.initRoom rid t (SocketHandlers.roomInfo gone) !! rid
        = Some (SocketHandlers.mkRoom ∅ [] t)
      ∧ SocketHandlers.roomInfo
          (SocketHandlers.joinRoom t socket' rid gone).1 !! rid
        = Some (SocketHandlers.mkRoom {[socket']} [] t).
Proof.
  intros Hroom Hu Hq left gone.
  assert (Hleft : SocketHandlers.roomInfo left !! rid = None).
  { unfold left, SocketHandlers.leaveRoom. rewrite Hroom. simpl.
    rewrite (keepRoom_last socket room Hu Hq). apply lookup_delete_eq. }
  assert (Hgone : SocketHandlers.roomInfo gone !! rid = None).
  { unfold gone, SocketHandlers.disconnect. simpl.
    rewrite lookup_omap, Hroom. simpl.
    unfold SocketHandlers.disconnectRoom.
    rewrite bool_decide_true by (rewrite Hu; set_solver).
    by rewrite (keepRoom_last socket room Hu Hq). }
  split; [done|]. split; [done|]. intros t socket'.
  destruct (joinRoom_fresh t socket' rid left Hleft) as [? ?].
  destruct (joinRoom_fresh t socket' rid gone Hgone) as [? ?].
  done.
Qed.

Lemma C9_room_lifecycle_witness :
  SocketHandlers.roomInfo
    (SocketHandlers.leaveRoom (lit "s1") (lit "r1") (oneRoomState [])).1
    !! lit "r1" = None
  ∧ SocketHandlers.roomInfo
      (SocketHandlers.disconnect (lit "s1") (oneRoomState [])).1
      !! lit "r1" = None
  ∧ ∀ t socket',
      SocketHandlers.initRoom (lit "r1") t
        (SocketHandlers.roomInfo
           (SocketHandlers.leaveRoom (lit "s1") (lit "r1") (oneRoomState [])).1)
        !! lit "r1"
      = Some (SocketHandlers.mkRoom ∅ [] t)
      ∧ SocketHandlers.roomInfo
          (SocketHandlers.joinRoom t socket' (lit "r1")
             (SocketHandlers.leaveRoom (lit "s1") (lit "r1")
                (oneRoomState [])).1).1 !! lit "r1"
        = Some (SocketHandlers.mkRoom {[socket']} [] t)
      ∧ SocketHandlers.initRoom (lit "r1") t
          (SocketHandlers.roomInfo
             (SocketHandlers.disconnect (lit "s1") (oneRoomState [])).1)
          !! lit "r1"
        = Some (SocketHandlers.mkRoom ∅ [] t)
      ∧ SocketHandlers.roomInfo
          (SocketHandlers.joinRoom t socket' (lit "r1")
             (SocketHandlers.disconnect (lit "s1") (oneRoomState [])).1).1
          !! lit "r1"
        = Some (SocketHandlers.mkRoom {[socket']} [] t).
Proof.
  apply (C9_room_lifecycle (oneRoomState []) (lit "s1") (lit "r1")
           (SocketHandlers.mkRoom {[ lit "s1" ]} [] 0)).
  - vm_compute. reflexivity.
  - reflexivity.
  - reflexivity.
Defined.

(** ** C7: queue or bypass *)

Section SendFacts.

Import SocketHandlers.

Lemma processBatch_roomInfo ticks k batch st :
  roomInfo (processBatch ticks k batch st).1 = roomInfo st.
Proof.
  revert k st. induction batch as [|p batch IH]; intros k st; [done|].
  simpl.
  pose proof (processDanmaku_roomInfo (ticks k) (p_socket p) (p_data p) st)
    as H1.
  destruct (processDanmaku (ticks k) (p_socket p) (p_data p) st)
    as [st1 ev1].
  pose proof (IH (S k) st1) as H2.
  destruct (processBatch ticks (S k) batch st1) as [st2 ev2].
  simpl in *. congruence.
Qed.

End SendFacts.

(** *** The steps of a call of [processDanmaku] *)

Section CallSteps.

Import Database FilterRules SocketHandlers.

Lemma incr_reachable key t srv :
  reachable (incr key t srv).2 = reachable srv.
Proof. done. Qed.

#[local] Opaque lit incr expire.

(** Sending a command touches nothing but the Redis client. *)
Lemma startIncrWithExpire_state c key ttl t st :
  let st1 := (startIncrWithExpire c key ttl t st).1 in
  roomInfo st1 = roomInfo st ∧ userMessages st1 = userMessages st
  ∧ cfg st1 = cfg st ∧ sensitiveWordTrie st1 = sensitiveWordTrie st.
Proof.
  unfold startIncrWithExpire. destruct (redisClient st) as [srv|]; [|done].
  destruct (reachable srv); [|done].
  by destruct (incr _ t srv).
Qed.

Lemma sendExpire_state c fullKey ttl v t st :
  let st1 := (sendExpire c fullKey ttl v t st).1 in
  roomInfo st1 = roomInfo st ∧ userMessages st1 = userMessages st
  ∧ cfg st1 = cfg st ∧ sensitiveWordTrie st1 = sensitiveWordTrie st.
Proof.
  unfold sendExpire. destruct (redisClient st) as [srv|]; [|done].
  by destruct (reachable srv).
Qed.

Lemma startProcessDanmaku_state tk socket data st :
  let st1 := (startProcessDanmaku tk socket data st).1 in
  roomInfo st1 = roomInfo st ∧ userMessages st1 = userMessages st
  ∧ cfg st1 = cfg st ∧ sensitiveWordTrie st1 = sensitiveWordTrie st.
Proof. apply startIncrWithExpire_state. Qed.

(** The two steps of [incrWithExpire] with nothing in between are
    [incrWithExpire]. *)
Lemma startIncrWithExpire_alone c key ttl t st :
  let r := incrWithExpire key ttl t (redisClient st) in
  let s := startIncrWithExpire c key ttl t st in
  match s.2 with
  | AwaitIncr c' fullKey ttl' v =>
      c' = c ∧ ttl' = ttl ∧ r.1 = mkIncr v true
      ∧ (if (v =? 1)%Z
         then sendExpire c fullKey ttl v t s.1
              = (setRedis r.2 st, AwaitIncrWithExpire c (mkIncr v true))
         else s.1 = setRedis r.2 st)
  | AwaitIncrWithExpire c' result =>
      c' = c ∧ result = r.1 ∧ s.1 = st ∧ r.2 = redisClient st
  | _ => False
  end.
Proof.
  unfold incrWithExpire, startIncrWithExpire, sendExpire.
  destruct (redisClient st) as [srv|] eqn:Hc; [|done].
  destruct (reachable srv) eqn:Hr; [|done].
  destruct (incr _ t srv) as [v srv1] eqn:Hi. cbn [fst snd].
  assert (Hr1 : reachable srv1 = true).
  { pose proof (incr_reachable (lit "danmaku:" ++ key) t srv) as Hr1.
    rewrite Hi in Hr1. cbn [snd] in Hr1. congruence. }
  split; [done|]. split; [done|]. split; [done|].
  destruct (v =? 1)%Z; [|done].
  cbn [redisClient setRedis]. by rewrite Hr1.
Qed.

End CallSteps.

Section CallAlone.

Import Database FilterRules SocketHandlers.

Variables (tk : Tick) (socket : jsstring) (data : Data).

#[local] Opaque lit incr expire.

#[local] Abbreviation fin n r := (finishProcessDanmaku n tk socket data r).

Lemma finishProcessDanmaku_done n st ev :
  fin n (st, (ev, None)) = (st, (ev, None)).
Proof. by destruct n. Qed.

Lemma finishProcessDanmaku_more n m r st ev :
  fin n r = (st, (ev, None)) → n ≤ m → fin m r = (st, (ev, None)).
Proof.
  revert m r. induction n as [|n IH]; intros m r Hfin Hle.
  - simpl in Hfin. subst r. apply finishProcessDanmaku_done.
  - destruct m as [|m]; [lia|].
    destruct r as [st0 [ev0 [w|]]]; [|by destruct m].
    simpl in *. destruct (resumeProcessDanmaku tk socket data w st0)
      as [st1 [ev1 w1]].
    apply IH; [done|lia].
Qed.

Lemma finishProcessDanmaku_step n w st :
  fin (S n) (st, ([], Some w)) = fin n (resumeProcessDanmaku tk socket data w st).
Proof.
  simpl. by destruct (resumeProcessDanmaku tk socket data w st) as [? [? ?]].
Qed.

(** The content filter of a call that runs alone. *)
Lemma finishProcessDanmaku_filterStep n st :
  fin (S n) (filterStep tk socket data st)
  = if truthy (d_content (danmaku data)) then
      if allowed (filterDanmaku (sensitiveWordTrie st)
                    (d_content (danmaku data)))
      then broadcastDanmaku tk socket data
             (JStr (content (filterDanmaku (sensitiveWordTrie st)
                               (d_content (danmaku data))))) st
      else sendFailed socket NoticeSensitive st
    else broadcastDanmaku tk socket data (d_content (danmaku data)) st.
Proof.
  unfold filterStep. destruct (truthy _).
  - cbn [finishProcessDanmaku resumeProcessDanmaku].
    destruct (allowed _); cbn [broadcastDanmaku sendFailed app];
      apply finishProcessDanmaku_done.
  - apply finishProcessDanmaku_done.
Qed.

(** A counter of a call that runs alone: after at most two steps the call
    is where [incrWithExpire] leaves it. *)
Lemma finishProcessDanmaku_counter c key ttl n st :
  let r := incrWithExpire key ttl (now tk) (redisClient st) in
  let s := startIncrWithExpire c key ttl (now tk) st in
  ∃ m, n ≤ m
       ∧ fin (2 + n) (s.1, ([], Some s.2))
         = fin m (afterIncrWithExpire tk socket data c r.1 (setRedis r.2 st)).
Proof.
  intros r s.
  pose proof (startIncrWithExpire_alone c key ttl (now tk) st) as Ha.
  cbv zeta in Ha. fold r s in Ha.
  destruct s as [st1 w]. cbn [fst snd] in *.
  destruct w as [c' fullKey ttl' v|c' result| |]; try done.
  - destruct Ha as (-> & -> & Hr & Hv).
    cbn [finishProcessDanmaku resumeProcessDanmaku plus].
    destruct (v =? 1)%Z.
    + rewrite Hv. cbn [app finishProcessDanmaku resumeProcessDanmaku].
      exists n. split; [done|]. rewrite Hr.
      by destruct (afterIncrWithExpire _ _ _ _ _ _) as [st2 [ev2 w2]].
    + subst st1. exists (S n). split; [lia|]. rewrite Hr.
      by destruct (afterIncrWithExpire _ _ _ _ _ _) as [st2 [ev2 w2]].
  - destruct Ha as (-> & -> & -> & Hr).
    exists (S n). split; [lia|].
    cbn [finishProcessDanmaku resumeProcessDanmaku plus].
    rewrite Hr. replace (setRedis (redisClient st) st) with st by (by destruct st).
    by destruct (afterIncrWithExpire _ _ _ _ _ _) as [st2 [ev2 w2]].
Qed.

Lemma finishProcessDanmaku_counter_then c key ttl n st res :
  fin n (afterIncrWithExpire tk socket data c
           (incrWithExpire key ttl (now tk) (redisClient st)).1
           (setRedis (incrWithExpire key ttl (now tk) (redisClient st)).2 st))
  = (res.1, (res.2, None)) →
  fin (2 + n)
    (let '(st0, w) := startIncrWithExpire c key ttl (now tk) st in
     (st0, ([], Some w)))
  = (res.1, (res.2, None)).
Proof.
  intros Hfin.
  destruct (finishProcessDanmaku_counter c key ttl n st) as (m & Hle & Hm).
  destruct (startIncrWithExpire c key ttl (now tk) st) as [st0 w].
  cbn [fst snd] in Hm. rewrite Hm.
  by eapply finishProcessDanmaku_more.
Qed.

(** A call of [processDanmaku] that runs alone, every step with the
    reading [tk], is [processDanmaku]. *)
Lemma finishProcessDanmaku_alone st :
  finishProcessDanmaku 7 tk socket data
    (let '(st0, w) := startProcessDanmaku tk socket data st in
     (st0, ([], Some w)))
  = ((processDanmaku tk socket data st).1,
     ((processDanmaku tk socket data st).2, None)).
Proof.
  unfold startProcessDanmaku.
  apply (finishProcessDanmaku_counter_then UserCounter _ _ 5 st).
  unfold processDanmaku, checkRateLimit.
  destruct (incrWithExpire _ _ _ (redisClient st)) as [userResult redis1].
  cbn [fst snd afterIncrWithExpire cfg setRedis].
  destruct (hasRedis userResult && _) eqn:Huser.
  { cbn [negb ck_allowed ck_reason fst snd]. apply finishProcessDanmaku_done. }
  apply (finishProcessDanmaku_counter_then RoomCounter _ _ 3
           (setRedis redis1 st)).
  cbn [redisClient setRedis cfg sensitiveWordTrie roomInfo userMessages].
  destruct (incrWithExpire _ _ _ redis1) as [roomResult redis2].
  cbn [fst snd afterIncrWithExpire cfg setRedis].
  destruct (hasRedis roomResult && _) eqn:Hroom.
  { cbn [negb ck_allowed ck_reason fst snd]. apply finishProcessDanmaku_done. }
  cbn [negb ck_allowed ck_reason fst snd].
  unfold duplicateStep, checkDuplicateMessage.
  cbn [redisClient setRedis cfg sensitiveWordTrie roomInfo userMessages].
  change (setRedis redis2 (setRedis redis1 st)) with (setRedis redis2 st).
  destruct (hashString _) as [h|].
  - apply (finishProcessDanmaku_counter_then DuplicateCounter _ _ 1
             (setRedis redis2 st)).
    cbn [redisClient setRedis cfg sensitiveWordTrie roomInfo userMessages].
    destruct (incrWithExpire _ _ _ redis2) as [result redis3].
    cbn [fst snd afterIncrWithExpire cfg setRedis].
    destruct (hasRedis result && _) eqn:Hdup.
    { cbn [negb ck_allowed ck_reason fst snd]. apply finishProcessDanmaku_done. }
    cbn [negb ck_allowed ck_reason fst snd].
    rewrite finishProcessDanmaku_filterStep.
    cbn [sensitiveWordTrie setRedis].
    destruct (truthy _); [|done]. by destruct (allowed _).
  - cbn [negb ck_allowed ck_reason fst snd].
    rewrite finishProcessDanmaku_step. cbn [resumeProcessDanmaku].
    rewrite finishProcessDanmaku_filterStep.
    cbn [sensitiveWordTrie setRedis].
    destruct (truthy _); [|done]. by destruct (allowed _).
Qed.

End CallAlone.

(** *** The synchronous part of the handler *)

Section HandlerFacts.

Import SocketHandlers.

Lemma take_batch_cons (q : list Pending) :
  q ≠ [] → ∃ p rest, take batchSize q = p :: rest.
Proof. destruct q as [|p q]; [done|]. intros _. by eexists _, _. Qed.

(** [processMessageQueue] up to its first [await] on a room with a queue:
    the batch is off the queue and [processDanmaku] is entered for its
    first message. *)
Lemma startProcessMessageQueue_queue tk rid st room :
  roomInfo st !! rid = Some room → messageQueue room ≠ [] →
  ∃ p rest w,
    take batchSize (messageQueue room) = p :: rest
    ∧ (startProcessMessageQueue tk rid st).2
      = ([CallProcessDanmaku (p_socket p) (p_data p)],
         Some (ProcessMessageQueueCall rid true (Some (p, w)) rest))
    ∧ roomInfo (startProcessMessageQueue tk rid st).1
      = <[rid := mkRoom (onlineUsers room)
                   (drop batchSize (messageQueue room))
                   (lastProcessTime room)]> (roomInfo st)
    ∧ userMessages (startProcessMessageQueue tk rid st).1 = userMessages st.
Proof.
  intros Hroom Hq. unfold startProcessMessageQueue. rewrite Hroom.
  replace (length (messageQueue room) =? 0) with false
    by (symmetry; apply Nat.eqb_neq; by destruct (messageQueue room)).
  destruct (take_batch_cons _ Hq) as (p & rest & Htake). rewrite Htake.
  unfold nextInBatch.
  match goal with
  | |- context [startProcessDanmaku ?t ?s ?d ?st0] =>
      destruct (startProcessDanmaku_state t s d st0) as (Hr & Hu & _);
      destruct (startProcessDanmaku t s d st0) as [st1 w]
  end.
  exists p, rest, w. cbn [fst snd] in *. by rewrite Hr, Hu.
Qed.

Lemma startProcessMessageQueue_idle tk rid st :
  (roomInfo st !! rid = None
   ∨ ∃ room, roomInfo st !! rid = Some room ∧ messageQueue room = []) →
  startProcessMessageQueue tk rid st = (st, ([], None)).
Proof.
  unfold startProcessMessageQueue.
  intros [->|(room & -> & ->)]; done.
Qed.

End HandlerFacts.

(** *** A call of [processMessageQueue] that runs alone *)

Section DrainAlone.

Import SocketHandlers.

Variables (ticks : nat → Tick) (rid : jsstring).

Lemma finish_done n k st ev : finish n ticks k (st, (ev, None)) = (st, (ev, None)).
Proof. by destruct n. Qed.

Lemma finish_more n m k r st ev :
  finish n ticks k r = (st, (ev, None)) → n ≤ m →
  finish m ticks k r = (st, (ev, None)).
Proof.
  revert m k r. induction n as [|n IH]; intros m k r Hfin Hle.
  - simpl in Hfin. subst r. apply finish_done.
  - destruct m as [|m]; [lia|].
    destruct r as [st0 [ev0 [call|]]]; [|by destruct m].
    simpl in *.
    destruct (resume _ call st0) as [st1 [ev1 call1]].
    apply IH; [done|lia].
Qed.

(** The events already there stay in front. *)
Lemma finishProcessDanmaku_events n tk socket data st ev w :
  finishProcessDanmaku n tk socket data (st, (ev, w))
  = ((finishProcessDanmaku n tk socket data (st, ([], w))).1,
     (ev ++ (finishProcessDanmaku n tk socket data (st, ([], w))).2.1,
      (finishProcessDanmaku n tk socket data (st, ([], w))).2.2)).
Proof.
  revert st ev w. induction n as [|n IH]; intros st ev w.
  - simpl. by rewrite app_nil_r.
  - destruct w as [w|]; [|simpl; by rewrite app_nil_r].
    simpl. destruct (resumeProcessDanmaku tk socket data w st)
      as [st1 [ev1 w1]].
    rewrite IH. rewrite (IH st1 ([] ++ ev1)). simpl.
    by rewrite app_assoc.
Qed.

(** The message at hand: when its [processDanmaku] ends within [f] steps,
    the loop is at the head of its next iteration. *)
Lemma finish_current f n k registered p rest st ev w st2 ev2 res :
  finishProcessDanmaku f (ticks k) (p_socket p) (p_data p) (st, (ev, Some w))
  = (st2, (ev2, None)) →
  finish n ticks k
    (st2, (ev2, Some (ProcessMessageQueueCall rid registered None rest)))
  = (res.1, (res.2, None)) →
  finish (f + n) ticks k
    (st, (ev, Some (ProcessMessageQueueCall rid registered (Some (p, w)) rest)))
  = (res.1, (res.2, None)).
Proof.
  revert st ev w. induction f as [|f IH]; intros st ev w Hpd Hrest; [done|].
  cbn [finishProcessDanmaku] in Hpd. cbn [plus finish resume].
  destruct (resumeProcessDanmaku (ticks k) (p_socket p) (p_data p) w st)
    as [st1 [ev1 [w1|]]]; cbn [fmap option_fmap option_map].
  - by apply IH.
  - rewrite finishProcessDanmaku_done in Hpd. injection Hpd as -> ->.
    eapply finish_more; [exact Hrest|lia].
Qed.

(** The rest of a batch. *)
Lemma finish_batch rest k st ev :
  finish (8 * length rest + 1) ticks k
    (st, (ev, Some (ProcessMessageQueueCall rid true None rest)))
  = (setLastProcessTime rid (now (ticks (S k + length rest)))
       (processBatch ticks (S k) rest st).1,
     (ev ++ (processBatch ticks (S k) rest st).2, None)).
Proof.
  revert k st ev. induction rest as [|p rest IH]; intros k st ev.
  - cbn. by rewrite Nat.add_0_r.
  - replace (8 * length (p :: rest) + 1)
      with (S (7 + (8 * length rest + 1))) by (simpl; lia).
    cbn [finish resume nextInBatch processBatch].
    pose proof (finishProcessDanmaku_alone (ticks (S k)) (p_socket p)
                  (p_data p) st) as Hpd.
    destruct (startProcessDanmaku (ticks (S k)) (p_socket p) (p_data p) st)
      as [st1 w].
    destruct (processDanmaku (ticks (S k)) (p_socket p) (p_data p) st)
      as [st2 ev2].
    cbn [fst snd] in Hpd.
    specialize (IH (S k) st2
                  ((ev ++ [CallProcessDanmaku (p_socket p) (p_data p)])
                     ++ ev2)).
    destruct (processBatch ticks (S (S k)) rest st2) as [st3 ev3].
    cbn [fst snd] in *.
    etrans.
    { apply (finish_current 7 _ _ _ _ _ _ _ _ st2
               ((ev ++ [CallProcessDanmaku (p_socket p) (p_data p)]) ++ ev2)
               (setLastProcessTime rid
                  (now (ticks (S (S k) + length rest))) st3,
                ((ev ++ [CallProcessDanmaku (p_socket p) (p_data p)]) ++ ev2)
                  ++ ev3)).
      - rewrite finishProcessDanmaku_events, Hpd. done.
      - cbn [fst snd]. by rewrite IH. }
    cbn [fst snd length]. rewrite Nat.add_succ_r.
    f_equal. f_equal. by rewrite <- !app_assoc.
Qed.

(** A call of [processMessageQueue] that runs alone, the [k]-th message of
    its batch with the reading [ticks k], is [processMessageQueue]. *)
Lemma processMessageQueue_alone st :
  finish (8 * batchSize) ticks 0 (startProcessMessageQueue (ticks 0) rid st)
  = ((processMessageQueue ticks rid st).1,
     ((processMessageQueue ticks rid st).2, None)).
Proof.
  unfold startProcessMessageQueue, processMessageQueue.
  destruct (roomInfo st !! rid) as [room|] eqn:Hroom; [|done].
  destruct (length (messageQueue room) =? 0) eqn:Hlen; [done|].
  apply Nat.eqb_neq in Hlen.
  assert (Hq : messageQueue room ≠ []) by (by destruct (messageQueue room)).
  destruct (take_batch_cons _ Hq) as (p & rest & Htake).
  assert (Hrest : S (length rest) ≤ batchSize).
  { rewrite <- (length_cons p), <- Htake, length_take. lia. }
  rewrite Htake.
  set (spliced := mkRoom (onlineUsers room)
                    (drop batchSize (messageQueue room))
                    (lastProcessTime room)).
  set (st0 := setRooms (<[rid := spliced]> (roomInfo st)) st).
  cbn [nextInBatch processBatch].
  pose proof (finishProcessDanmaku_alone (ticks 0) (p_socket p) (p_data p) st0)
    as Hpd.
  destruct (startProcessDanmaku (ticks 0) (p_socket p) (p_data p) st0)
    as [st1 w].
  pose proof (processDanmaku_roomInfo (ticks 0) (p_socket p) (p_data p) st0)
    as Hr2.
  destruct (processDanmaku (ticks 0) (p_socket p) (p_data p) st0)
    as [st2 ev2].
  cbn [fst snd] in Hpd, Hr2.
  pose proof (finish_batch rest 0 st2
                ([CallProcessDanmaku (p_socket p) (p_data p)] ++ ev2))
    as Hb.
  pose proof (processBatch_roomInfo ticks 1 rest st2) as Hr3.
  destruct (processBatch ticks 1 rest st2) as [st3 ev3].
  cbn [fst snd] in *.
  apply finish_more with (n := 7 + (8 * length rest + 1)); [|lia].
  etrans.
  { apply (finish_current 7 _ _ _ _ _ _ _ _ st2
             ([CallProcessDanmaku (p_socket p) (p_data p)] ++ ev2)
             (setLastProcessTime rid (now (ticks (1 + length rest))) st3,
              ([CallProcessDanmaku (p_socket p) (p_data p)] ++ ev2) ++ ev3)).
    - rewrite finishProcessDanmaku_events, Hpd. done.
    - cbn [fst snd]. by rewrite Hb. }
  cbn [fst snd length plus app]. f_equal.
  unfold setLastProcessTime. rewrite Hr3, Hr2.
  unfold st0. cbn [roomInfo setRooms]. by rewrite lookup_insert_eq.
Qed.

(** The events already there stay in front. *)
Lemma finish_events n k st ev call :
  finish n ticks k (st, (ev, call))
  = ((finish n ticks k (st, ([], call))).1,
     (ev ++ (finish n ticks k (st, ([], call))).2.1,
      (finish n ticks k (st, ([], call))).2.2)).
Proof.
  revert k st ev call. induction n as [|n IH]; intros k st ev call.
  - simpl. by rewrite app_nil_r.
  - destruct call as [call|]; [|simpl; by rewrite app_nil_r].
    cbn [finish]. destruct (resume _ call st) as [st1 [ev1 call1]].
    rewrite IH. rewrite (IH _ st1 ([] ++ ev1)). simpl.
    by rewrite app_assoc.
Qed.

(** A call of [processDanmaku] under way that runs alone. *)
Lemma finish_processDanmaku n k socket data st ev w :
  finish n ticks k (st, (ev, ProcessDanmakuCall socket data <$> w))
  = ((finishProcessDanmaku n (ticks k) socket data (st, (ev, w))).1,
     ((finishProcessDanmaku n (ticks k) socket data (st, (ev, w))).2.1,
      ProcessDanmakuCall socket data
        <$> (finishProcessDanmaku n (ticks k) socket data (st, (ev, w))).2.2)).
Proof.
  revert st ev w. induction n as [|n IH]; intros st ev w; [done|].
  destruct w as [w|]; [|done].
  cbn [finish finishProcessDanmaku resume fmap option_fmap option_map].
  destruct (resumeProcessDanmaku (ticks k) socket data w st)
    as [st1 [ev1 w1]].
  apply IH.
Qed.

End DrainAlone.

(** C7, as stated, fails in its last part: the handler does not wait for
    the pipeline.  With 101 messages in the queue of the room, the handler
    has called [processDanmaku] on the new message when it returns, and
    that call waits at its first [await]: the state is as before and
    nothing has been sent to anyone, while [processDanmaku], run to its
    end, broadcasts the message.  With a Redis client, the call has sent
    the [INCR] of the sender's counter by then, and nothing else. *)
Lemma C7_counterexample :
  let data := textMessage (lit "r1") (lit "hi") in
  let queued :=
    SocketHandlers.mkPending (lit "s1") (textMessage (lit "r1") (lit "old")) in
  let st := oneRoomState (replicate 101 queued) in
  let st' :=
    SocketHandlers.setRedis (Some emptyServer)
      (oneRoomState (replicate 101 queued)) in
  let tk := ticksFrom 50 0 in
  let res := SocketHandlers.sendDanmaku tk (lit "s1") data st in
  let res' := SocketHandlers.sendDanmaku tk (lit "s1") data st' in
  res = (st,
         ([SocketHandlers.CallProcessDanmaku (lit "s1") data],
          Some (SocketHandlers.ProcessDanmakuCall (lit "s1") data
                  (SocketHandlers.AwaitIncrWithExpire
                     SocketHandlers.UserCounter (Database.mkIncr 1 false)))))
  ∧ (SocketHandlers.processDanmaku tk (lit "s1") data st).2
    = [SocketHandlers.NewDanmaku (lit "r1")
         (SocketHandlers.mkFinal (lit "id") None (JStr (lit "hi"))
            (lit "scroll") (lit "#ffffff") 50 None)]
  ∧ res'.2
    = ([SocketHandlers.CallProcessDanmaku (lit "s1") data],
       Some (SocketHandlers.ProcessDanmakuCall (lit "s1") data
               (SocketHandlers.AwaitIncr SocketHandlers.UserCounter
                  (userKey (lit "s1")) 1 1)))
  ∧ (Database.commands <$> SocketHandlers.redisClient res'.1)
    = Some [Database.INCR (userKey (lit "s1"))]
  ∧ (Database.commands
       <$> SocketHandlers.redisClient
             (SocketHandlers.processDanmaku tk (lit "s1") data st').1)
    = Some [ Database.INCR (userKey (lit "s1"));
             Database.EXPIRE (userKey (lit "s1")) 1;
             Database.INCR (roomKey (lit "r1"));
             Database.EXPIRE (roomKey (lit "r1")) 1;
             Database.INCR (duplicateKey (lit "s1") (hashText (lit "hi")));
             Database.EXPIRE
               (duplicateKey (lit "s1") (hashText (lit "hi"))) 10 ].
Proof. vm_compute. done. Qed.

(** C7 (amended): for every send request to an existing room, the message
    is pushed to the back of the room's queue exactly when the queue holds
    at most 100 messages; when the last drain is more than 100 ms old the
    handler then calls [processMessageQueue], which takes a batch off the
    front of the queue and enters [processDanmaku] for its first message
    before the handler returns.  When the queue holds more than 100
    messages, nothing is pushed, the rooms stay as they are, and the
    handler itself calls [processDanmaku] on the message.  In neither case
    does the handler wait for the call: when it returns it has sent
    nothing and no sender's remembered messages have changed, and the call
    is under way, waiting at its first [await].  Such a call, taken on to
    its end with nothing in between, does what [processMessageQueue] does
    on the room with the message pushed, or what [processDanmaku] does on
    the message. *)
Theorem C7_enqueue_or_bypass (tk : SocketHandlers.Tick)
    (socket : jsstring) (data : SocketHandlers.Data)
    (st : SocketHandlers.State) (room : SocketHandlers.Room) :
  SocketHandlers.roomInfo st !! SocketHandlers.roomId data = Some room →
  let rid := SocketHandlers.roomId data in
  let p := SocketHandlers.mkPending socket data in
  let q := SocketHandlers.messageQueue room in
  let res := SocketHandlers.sendDanmaku tk socket data st in
  let stale :=
    (100 <? SocketHandlers.now tk - SocketHandlers.lastProcessTime room)%Z in
  let pushed :=
    SocketHandlers.setRooms
      (<[rid := SocketHandlers.mkRoom (SocketHandlers.onlineUsers room)
                  (q ++ [p]) (SocketHandlers.lastProcessTime room)]>
         (SocketHandlers.roomInfo st)) st in
  (SocketHandlers.QueuePush rid p ∈ res.2.1 ↔ length q ≤ 100)
  ∧ emitted res.2.1 = (if 100 <? length q then []
                       else [SocketHandlers.QueuePush rid p])
  ∧ SocketHandlers.userMessages res.1 = SocketHandlers.userMessages st
  ∧ (length q ≤ 100 →
     SocketHandlers.roomInfo res.1
     = <[rid := SocketHandlers.mkRoom (SocketHandlers.onlineUsers room)
                  (if stale then drop SocketHandlers.batchSize (q ++ [p])
                   else q ++ [p])
                  (SocketHandlers.lastProcessTime room)]>
         (SocketHandlers.roomInfo st)
     ∧ (stale = false → res = (pushed, ([SocketHandlers.QueuePush rid p], None)))
     ∧ (stale = true →
        (∃ first rest w,
           take SocketHandlers.batchSize (q ++ [p]) = first :: rest
           ∧ res.2
             = ([SocketHandlers.QueuePush rid p;
                 SocketHandlers.CallProcessDanmaku
                   (SocketHandlers.p_socket first)
                   (SocketHandlers.p_data first)],
                Some (SocketHandlers.ProcessMessageQueueCall rid true
                        (Some (first, w)) rest)))
        ∧ ∀ ticks, ticks 0 = tk →
            SocketHandlers.finish (8 * SocketHandlers.batchSize) ticks 0 res
            = ((SocketHandlers.processMessageQueue ticks rid pushed).1,
               (SocketHandlers.QueuePush rid p
                  :: (SocketHandlers.processMessageQueue ticks rid pushed).2,
                None))))
  ∧ (100 < length q →
     SocketHandlers.roomInfo res.1 = SocketHandlers.roomInfo st
     ∧ (∃ w,
          res.2 = ([SocketHandlers.CallProcessDanmaku socket data],
                   Some (SocketHandlers.ProcessDanmakuCall socket data w)))
     ∧ ∀ ticks, ticks 0 = tk →
         SocketHandlers.finish 7 ticks 0 res
         = ((SocketHandlers.processDanmaku tk socket data st).1,
            (SocketHandlers.CallProcessDanmaku socket data
               :: (SocketHandlers.processDanmaku tk socket data st).2,
             None))).
Proof.
  intros Hroom rid p q res stale pushed.
  unfold res, SocketHandlers.sendDanmaku. rewrite Hroom.
  fold rid q p stale pushed.
  destruct (100 <? length q) eqn:Hlen.
  - apply Nat.ltb_lt in Hlen.
    destruct (startProcessDanmaku_state tk socket data st) as (Hr & Hu & _).
    pose proof (finishProcessDanmaku_alone tk socket data st) as Hfin.
    destruct (SocketHandlers.startProcessDanmaku tk socket data st)
      as [st1 w].
    cbn [fst snd] in *.
    split; [|split; [done|split; [done|split; [lia|]]]].
    + split; [|lia]. intros Hin.
      apply list_elem_of_singleton in Hin. discriminate Hin.
    + intros _. split; [done|]. split; [by exists w|].
      intros ticks <-.
      rewrite (finish_processDanmaku ticks 7 0 socket data st1 _ (Some w)).
      rewrite finishProcessDanmaku_events, Hfin. done.
  - apply Nat.ltb_ge in Hlen.
    set (room1 := SocketHandlers.mkRoom (SocketHandlers.onlineUsers room)
                    (q ++ [p]) (SocketHandlers.lastProcessTime room)).
    destruct stale eqn:Hstale.
    + assert (Hroom1 : SocketHandlers.roomInfo pushed !! rid = Some room1)
        by apply lookup_insert_eq.
      assert (Hq1 : SocketHandlers.messageQueue room1 ≠ []).
      { simpl. intros E. by apply app_eq_nil in E as [_ ?]. }
      destruct (startProcessMessageQueue_queue tk rid pushed room1 Hroom1 Hq1)
        as (first & rest & w & Htake & Hev & Hrooms & Hum).
      assert (Halone : ∀ ticks, ticks 0 = tk →
        SocketHandlers.finish (8 * SocketHandlers.batchSize) ticks 0
          (SocketHandlers.startProcessMessageQueue tk rid pushed)
        = ((SocketHandlers.processMessageQueue ticks rid pushed).1,
           ((SocketHandlers.processMessageQueue ticks rid pushed).2, None))).
      { intros ticks <-. apply processMessageQueue_alone. }
      destruct (SocketHandlers.startProcessMessageQueue tk rid pushed)
        as [st2 [ev call]].
      cbn [fst snd] in *. injection Hev as -> ->.
      split; [|split; [done|split; [done|split; [|lia]]]].
      * split; [lia|]. intros _. by left.
      * intros _. split; [|split; [done|]].
        -- rewrite Hrooms. apply insert_insert_eq.
        -- intros _. split; [by exists first, rest, w|].
           intros ticks Htk. rewrite finish_events.
           specialize (Halone ticks Htk).
           rewrite finish_events in Halone.
           destruct (SocketHandlers.finish _ ticks 0 (st2, ([], _)))
             as [st3 [ev3 call3]].
           cbn [fst snd app] in *. by injection Halone as -> <- ->.
    + cbn [fst snd].
      split; [|split; [done|split; [done|split; [|lia]]]].
      * split; [lia|]. intros _. by left.
      * intros _. split; [done|]. split; [done|done].
Qed.

Lemma C7_enqueue_or_bypass_witness :
  let socket := lit "s2" in
  let data := textMessage (lit "r1") (lit "hi") in
  let queued :=
    SocketHandlers.mkPending (lit "s1") (textMessage (lit "r1") (lit "old")) in
  (let tk := ticksFrom 50 0 in
   let st := oneRoomState (replicate 101 queued) in
   let room := SocketHandlers.mkRoom {[ lit "s1" ]} (replicate 101 queued) 0 in
   let rid := SocketHandlers.roomId data in
   let p := SocketHandlers.mkPending socket data in
   let q := SocketHandlers.messageQueue room in
   let res := SocketHandlers.sendDanmaku tk socket data st in
   let stale :=
     (100 <? SocketHandlers.now tk - SocketHandlers.lastProcessTime room)%Z in
   let pushed :=
     SocketHandlers.setRooms
       (<[rid := SocketHandlers.mkRoom (SocketHandlers.onlineUsers room)
                   (q ++ [p]) (SocketHandlers.lastProcessTime room)]>
          (SocketHandlers.roomInfo st)) st in
   (SocketHandlers.QueuePush rid p ∈ res.2.1 ↔ length q ≤ 100)
   ∧ emitted res.2.1 = (if 100 <? length q then []
                        else [SocketHandlers.QueuePush rid p])
   ∧ SocketHandlers.userMessages res.1 = SocketHandlers.userMessages st
   ∧ (length q ≤ 100 →
      SocketHandlers.roomInfo res.1
      = <[rid := SocketHandlers.mkRoom (SocketHandlers.onlineUsers room)
                   (if stale then drop SocketHandlers.batchSize (q ++ [p])
                    else q ++ [p])
                   (SocketHandlers.lastProcessTime room)]>
          (SocketHandlers.roomInfo st)
      ∧ (stale = false → res = (pushed, ([SocketHandlers.QueuePush rid p], None)))
      ∧ (stale = true →
         (∃ first rest w,
            take SocketHandlers.batchSize (q ++ [p]) = first :: rest
            ∧ res.2
              = ([SocketHandlers.QueuePush rid p;
                  SocketHandlers.CallProcessDanmaku
                    (SocketHandlers.p_socket first)
                    (SocketHandlers.p_data first)],
                 Some (SocketHandlers.ProcessMessageQueueCall rid true
                         (Some (first, w)) rest)))
         ∧ ∀ ticks, ticks 0 = tk →
             SocketHandlers.finish (8 * SocketHandlers.batchSize) ticks 0 res
             = ((SocketHandlers.processMessageQueue ticks rid pushed).1,
                (SocketHandlers.QueuePush rid p
                   :: (SocketHandlers.processMessageQueue ticks rid pushed).2,
                 None))))
   ∧ (100 < length q →
      SocketHandlers.roomInfo res.1 = SocketHandlers.roomInfo st
      ∧ (∃ w,
           res.2 = ([SocketHandlers.CallProcessDanmaku socket data],
                    Some (SocketHandlers.ProcessDanmakuCall socket data w)))
      ∧ ∀ ticks, ticks 0 = tk →
          SocketHandlers.finish 7 ticks 0 res
          = ((SocketHandlers.processDanmaku tk socket data st).1,
             (SocketHandlers.CallProcessDanmaku socket data
                :: (SocketHandlers.processDanmaku tk socket data st).2,
              None))))
  ∧ (let tk := ticksFrom 50 0 in
     let st := oneRoomState [queued] in
     let room := SocketHandlers.mkRoom {[ lit "s1" ]} [queued] 0 in
     let rid := SocketHandlers.roomId data in
     let p := SocketHandlers.mkPending socket data in
     let q := SocketHandlers.messageQueue room in
     let res := SocketHandlers.sendDanmaku tk socket data st in
     let stale :=
       (100 <? SocketHandlers.now tk - SocketHandlers.lastProcessTime room)%Z in
     let pushed :=
       SocketHandlers.setRooms
         (<[rid := SocketHandlers.mkRoom (SocketHandlers.onlineUsers room)
                     (q ++ [p]) (SocketHandlers.lastProcessTime room)]>
            (SocketHandlers.roomInfo st)) st in
     (SocketHandlers.QueuePush rid p ∈ res.2.1 ↔ length q ≤ 100)
     ∧ emitted res.2.1 = (if 100 <? length q then []
                          else [SocketHandlers.QueuePush rid p])
     ∧ SocketHandlers.userMessages res.1 = SocketHandlers.userMessages st
     ∧ (length q ≤ 100 →
        SocketHandlers.roomInfo res.1
        = <[rid := SocketHandlers.mkRoom (SocketHandlers.onlineUsers room)
                     (if stale then drop SocketHandlers.batchSize (q ++ [p])
                      else q ++ [p])
                     (SocketHandlers.lastProcessTime room)]>
            (SocketHandlers.roomInfo st)
        ∧ (stale = false → res = (pushed, ([SocketHandlers.QueuePush rid p], None)))
        ∧ (stale = true →
           (∃ first rest w,
              take SocketHandlers.batchSize (q ++ [p]) = first :: rest
              ∧ res.2
                = ([SocketHandlers.QueuePush rid p;
                    SocketHandlers.CallProcessDanmaku
                      (SocketHandlers.p_socket first)
                      (SocketHandlers.p_data first)],
                   Some (SocketHandlers.ProcessMessageQueueCall rid true
                           (Some (first, w)) rest)))
           ∧ ∀ ticks, ticks 0 = tk →
               SocketHandlers.finish (8 * SocketHandlers.batchSize) ticks 0 res
               = ((SocketHandlers.processMessageQueue ticks rid pushed).1,
                  (SocketHandlers.QueuePush rid p
                     :: (SocketHandlers.processMessageQueue ticks rid pushed).2,
                   None))))
     ∧ (100 < length q →
        SocketHandlers.roomInfo res.1 = SocketHandlers.roomInfo st
        ∧ (∃ w,
             res.2 = ([SocketHandlers.CallProcessDanmaku socket data],
                      Some (SocketHandlers.ProcessDanmakuCall socket data w)))
        ∧ ∀ ticks, ticks 0 = tk →
            SocketHandlers.finish 7 ticks 0 res
            = ((SocketHandlers.processDanmaku tk socket data st).1,
               (SocketHandlers.CallProcessDanmaku socket data
                  :: (SocketHandlers.processDanmaku tk socket data st).2,
                None))))
  ∧ (let tk := ticksFrom 500 0 in
     let st := oneRoomState [queued] in
     let room := SocketHandlers.mkRoom {[ lit "s1" ]} [queued] 0 in
     let rid := SocketHandlers.roomId data in
     let p := SocketHandlers.mkPending socket data in
     let q := SocketHandlers.messageQueue room in
     let res := SocketHandlers.sendDanmaku tk socket data st in
     let stale :=
       (100 <? SocketHandlers.now tk - SocketHandlers.lastProcessTime room)%Z in
     let pushed :=
       SocketHandlers.setRooms
         (<[rid := SocketHandlers.mkRoom (SocketHandlers.onlineUsers room)
                     (q ++ [p]) (SocketHandlers.lastProcessTime room)]>
            (SocketHandlers.roomInfo st)) st in
     (SocketHandlers.QueuePush rid p ∈ res.2.1 ↔ length q ≤ 100)
     ∧ emitted res.2.1 = (if 100 <? length q then []
                          else [SocketHandlers.QueuePush rid p])
     ∧ SocketHandlers.userMessages res.1 = SocketHandlers.userMessages st
     ∧ (length q ≤ 100 →
        SocketHandlers.roomInfo res.1
        = <[rid := SocketHandlers.mkRoom (SocketHandlers.onlineUsers room)
                     (if stale then drop SocketHandlers.batchSize (q ++ [p])
                      else q ++ [p])
                     (SocketHandlers.lastProcessTime room)]>
            (SocketHandlers.roomInfo st)
        ∧ (stale = false → res = (pushed, ([SocketHandlers.QueuePush rid p], None)))
        ∧ (stale = true →
           (∃ first rest w,
              take SocketHandlers.batchSize (q ++ [p]) = first :: rest
              ∧ res.2
                = ([SocketHandlers.QueuePush rid p;
                    SocketHandlers.CallProcessDanmaku
                      (SocketHandlers.p_socket first)
                      (SocketHandlers.p_data first)],
                   Some (SocketHandlers.ProcessMessageQueueCall rid true
                           (Some (first, w)) rest)))
           ∧ ∀ ticks, ticks 0 = tk →
               SocketHandlers.finish (8 * SocketHandlers.batchSize) ticks 0 res
               = ((SocketHandlers.processMessageQueue ticks rid pushed).1,
                  (SocketHandlers.QueuePush rid p
                     :: (SocketHandlers.processMessageQueue ticks rid pushed).2,
                   None))))
     ∧ (100 < length q →
        SocketHandlers.roomInfo res.1 = SocketHandlers.roomInfo st
        ∧ (∃ w,
             res.2 = ([SocketHandlers.CallProcessDanmaku socket data],
                      Some (SocketHandlers.ProcessDanmakuCall socket data w)))
        ∧ ∀ ticks, ticks 0 = tk →
            SocketHandlers.finish 7 ticks 0 res
            = ((SocketHandlers.processDanmaku tk socket data st).1,
               (SocketHandlers.CallProcessDanmaku socket data
                  :: (SocketHandlers.processDanmaku tk socket data st).2,
                None)))).
Proof.
  intros socket data queued. split; [|split].
  - intros tk st room.
    apply (C7_enqueue_or_bypass tk socket data st room).
    vm_compute. reflexivity.
  - intros tk st room.
    apply (C7_enqueue_or_bypass tk socket data st room).
    vm_compute. reflexivity.
  - intros tk st room.
    apply (C7_enqueue_or_bypass tk socket data st room).
    vm_compute. reflexivity.
Defined.

(** ** C2: the order of the checks *)

Section OrderOfChecks.

Import Database FilterRules SocketHandlers.

#[local] Opaque lit userKey roomKey duplicateKey incrWithExpire nextEntry.

Lemma incrKeys_incr k ttl (b : bool) :
  incrKeys (INCR k :: (if b then [EXPIRE k ttl] else [])) = [k].
Proof. by destruct b. Qed.

(** The limits in force, a reachable server, a sender and the time of the
    call. *)
Variable cfg : Config.
Variable srv : RedisServer.
Hypothesis Hr : reachable srv = true.
Variables (u : jsstring) (now : Z).

(** The commands of [checkRateLimit]: the sender's counter first, the
    room's counter only when the sender passes. *)
Lemma checkRateLimit_trace r :
  ∃ res srv' new,
    checkRateLimit cfg u r now (Some srv) = (res, Some srv')
    ∧ reachable srv' = true
    ∧ commands srv' = commands srv ++ new
    ∧ ((ck_allowed res = false ∧ ck_reason res = ReasonUserRate
        ∧ incrKeys new = [userKey u])
       ∨ (ck_allowed res = false ∧ ck_reason res = ReasonRoomRate
          ∧ incrKeys new = [userKey u; roomKey r])
       ∨ (ck_allowed res = true ∧ incrKeys new = [userKey u; roomKey r])).
Proof.
  unfold checkRateLimit.
  rewrite incrWithExpire_reachable by done. cbv zeta.
  change (lit "danmaku:" ++ lit "rate_limit:user:" ++ u) with (userKey u).
  cbn [hasRedis value andb].
  destruct (messagesPerSecond (userRateLimit cfg) <? _)%Z.
  - do 3 eexists. split; [done|]. split; [done|]. split; [done|].
    left. split; [done|]. split; [done|]. apply incrKeys_incr.
  - rewrite incrWithExpire_reachable by done. cbv zeta.
    change (lit "danmaku:" ++ lit "rate_limit:room:" ++ r) with (roomKey r).
    cbn [hasRedis value andb commands].
    destruct (messagesPerSecond (roomRateLimit cfg) <? _)%Z;
      do 3 eexists; (split; [done|]); (split; [done|]);
      (split; [by rewrite <- app_assoc|]).
    + right. left. split; [done|]. split; [done|].
      by rewrite incrKeys_app, !incrKeys_incr.
    + right. right. split; [done|].
      by rewrite incrKeys_app, !incrKeys_incr.
Qed.

(** The commands of [checkDuplicateMessage]: one counter, unless the
    content cannot be hashed. *)
Lemma checkDuplicateMessage_trace content :
  ∃ res srv' new,
    checkDuplicateMessage cfg u content now (Some srv) = (res, Some srv')
    ∧ reachable srv' = true
    ∧ commands srv' = commands srv ++ new
    ∧ incrKeys new
      = match hashString content with
        | Some h => [duplicateKey u h]
        | None => []
        end.
Proof.
  unfold checkDuplicateMessage.
  destruct (hashString content) as [h|].
  - rewrite incrWithExpire_reachable by done. cbv zeta.
    change (lit "danmaku:" ++ lit "duplicate:" ++ u ++ lit ":" ++ h)
      with (duplicateKey u h).
    cbn [hasRedis value andb].
    destruct (maxDuplicateCount cfg <? _)%Z;
      do 3 eexists; (split; [done|]); (split; [done|]);
      (split; [done|]); apply incrKeys_incr.
  - exists (mkCheckResult true ReasonDuplicateError None None), srv, [].
    split; [done|]. split; [done|]. split; [by rewrite app_nil_r|done].
Qed.

End OrderOfChecks.

(** Without a usable store both counter checks pass and leave the client
    as it is. *)
Lemma checks_unavailable cfg u r content now redis :
  unavailable redis = true →
  FilterRules.checkRateLimit cfg u r now redis
  = (FilterRules.mkCheckResult true FilterRules.ReasonRatePassed None None,
     redis)
  ∧ FilterRules.ck_allowed
      (FilterRules.checkDuplicateMessage cfg u content now redis).1 = true
  ∧ (FilterRules.checkDuplicateMessage cfg u content now redis).2 = redis.
Proof.
  intros Hun. split; [|split].
  - unfold FilterRules.checkRateLimit.
    by rewrite !incrWithExpire_unavailable by done.
  - unfold FilterRules.checkDuplicateMessage.
    destruct (FilterRules.hashString content); [|done].
    by rewrite incrWithExpire_unavailable by done.
  - unfold FilterRules.checkDuplicateMessage.
    destruct (FilterRules.hashString content); [|done].
    by rewrite incrWithExpire_unavailable by done.
Qed.

Lemma processDanmaku_unavailable tk socket data st :
  unavailable (SocketHandlers.redisClient st) = true →
  SocketHandlers.redisClient
    (SocketHandlers.processDanmaku tk socket data st).1
  = SocketHandlers.redisClient st
  ∧ checksPass tk socket data st = true.
Proof.
  intros Hun.
  destruct (checks_unavailable (SocketHandlers.cfg st)
              (SocketHandlers.senderOf socket (SocketHandlers.danmaku data))
              (SocketHandlers.roomId data)
              (SocketHandlers.checkContentOf (SocketHandlers.danmaku data))
              (SocketHandlers.now tk) (SocketHandlers.redisClient st) Hun)
    as (E1 & E2 & E3).
  split.
  - unfold SocketHandlers.processDanmaku. rewrite E1.
    cbn [FilterRules.ck_allowed negb].
    destruct (FilterRules.checkDuplicateMessage _ _ _ _ _) as [r2 redis2].
    simpl in E2, E3. subst redis2. rewrite E2. cbn [negb].
    by destruct (negb _).
  - unfold checksPass. by rewrite E1, E2.
Qed.

(** C2, as stated, fails for emote messages: the duplicate check is not
    skipped.  An emote message without text increments the duplicate
    counter of the tag ["[emoji:smile]"], and the fourth such message
    within ten seconds is rejected as a duplicate. *)
Lemma C2_counterexample :
  let msg := emojiMessage (lit "r1") (lit "smile") in
  let run t st := SocketHandlers.processDanmaku
                    (SocketHandlers.mkTick t (lit "id")) (lit "s1") msg st in
  let st1 := (run 0%Z (startState (Some emptyServer))).1 in
  let st2 := (run 2000%Z st1).1 in
  let st3 := (run 4000%Z st2).1 in
  truthy (SocketHandlers.d_content (SocketHandlers.danmaku msg)) = false
  ∧ (Database.commands <$> SocketHandlers.redisClient st1)
    = Some [ Database.INCR (userKey (lit "s1"));
             Database.EXPIRE (userKey (lit "s1")) 1;
             Database.INCR (roomKey (lit "r1"));
             Database.EXPIRE (roomKey (lit "r1")) 1;
             Database.INCR
               (duplicateKey (lit "s1") (hashText (lit "[emoji:smile]")));
             Database.EXPIRE
               (duplicateKey (lit "s1") (hashText (lit "[emoji:smile]"))) 10 ]
  ∧ (run 6000%Z st3).2
    = [SocketHandlers.SendFailed (lit "s1") SocketHandlers.NoticeDuplicate].
Proof. vm_compute. done. Qed.

(** C2 (amended): [processDanmaku] runs its checks in the fixed order rate
    limiter (the sender's counter, then the room's), duplicate check,
    content filter, and stops at the first check that fails: on a
    reachable store a sender-rate rejection has incremented the sender's
    counter only, a room-rate rejection the sender's and the room's, and
    the duplicate counter is incremented only after both.  The duplicate
    check is not skipped for emote messages: it counts the tag
    [[emoji:value]] (only a content that cannot be hashed leaves no
    counter).  When the store is unavailable the two counter checks pass
    and nothing is incremented.  In both cases the content filter runs
    last, on the text alone, and only when there is a text. *)
Theorem C2_pipeline_order (tk : SocketHandlers.Tick) (socket : jsstring)
    (data : SocketHandlers.Data) (st : SocketHandlers.State) :
  let d := SocketHandlers.danmaku data in
  let u := SocketHandlers.senderOf socket d in
  let r := SocketHandlers.roomId data in
  let dupKeys :=
    match FilterRules.hashString (SocketHandlers.checkContentOf d) with
    | Some h => [duplicateKey u h]
    | None => []
    end in
  let verdict :=
    FilterRules.filterDanmaku (SocketHandlers.sensitiveWordTrie st)
      (SocketHandlers.d_content d) in
  let res := SocketHandlers.processDanmaku tk socket data st in
  (∀ srv,
     SocketHandlers.redisClient st = Some srv →
     Database.reachable srv = true →
     ∃ srv' new,
       SocketHandlers.redisClient res.1 = Some srv'
       ∧ Database.commands srv' = Database.commands srv ++ new
       ∧ ((incrKeys new = [userKey u]
           ∧ res.2 = [SocketHandlers.SendFailed socket
                        (SocketHandlers.NoticeRate FilterRules.ReasonUserRate)])
          ∨ (incrKeys new = [userKey u; roomKey r]
             ∧ res.2 = [SocketHandlers.SendFailed socket
                          (SocketHandlers.NoticeRate
                             FilterRules.ReasonRoomRate)])
          ∨ (incrKeys new = [userKey u; roomKey r] ++ dupKeys
             ∧ res.2 = [SocketHandlers.SendFailed socket
                          SocketHandlers.NoticeDuplicate])
          ∨ (incrKeys new = [userKey u; roomKey r] ++ dupKeys
             ∧ checksPass tk socket data st = true)))
  ∧ (unavailable (SocketHandlers.redisClient st) = true →
     SocketHandlers.redisClient res.1 = SocketHandlers.redisClient st
     ∧ checksPass tk socket data st = true)
  ∧ (checksPass tk socket data st = true →
     (truthy (SocketHandlers.d_content d) = false →
      ∃ f, res.2 = [SocketHandlers.NewDanmaku r f]
           ∧ SocketHandlers.f_content f = SocketHandlers.d_content d)
     ∧ (truthy (SocketHandlers.d_content d) = true →
        FilterRules.allowed verdict = false →
        res.2 = [SocketHandlers.SendFailed socket
                   SocketHandlers.NoticeSensitive])
     ∧ (truthy (SocketHandlers.d_content d) = true →
        FilterRules.allowed verdict = true →
        ∃ f, res.2 = [SocketHandlers.NewDanmaku r f]
             ∧ SocketHandlers.f_content f
               = JStr (FilterRules.content verdict))).
Proof.
  intros d u r dupKeys verdict res. split; [|split].
  - intros srv Hredis Hr.
    unfold res, checksPass, SocketHandlers.processDanmaku.
    fold d u r. rewrite Hredis.
    destruct (checkRateLimit_trace (SocketHandlers.cfg st) srv Hr u
                (SocketHandlers.now tk) r)
      as (r1 & srv1 & new1 & E1 & Hr1 & Hc1 & Hcase1).
    rewrite E1.
    destruct Hcase1 as [(Ha & Hreason & Hk)|[(Ha & Hreason & Hk)|(Ha & Hk)]];
      rewrite Ha; cbn [negb andb].
    + exists srv1, new1. split; [done|]. split; [done|].
      left. by rewrite Hreason.
    + exists srv1, new1. split; [done|]. split; [done|].
      right. left. by rewrite Hreason.
    + destruct (checkDuplicateMessage_trace (SocketHandlers.cfg st) srv1 Hr1
                  u (SocketHandlers.now tk) (SocketHandlers.checkContentOf d))
        as (r2 & srv2 & new2 & E2 & Hr2 & Hc2 & Hk2).
      rewrite E2. cbn [fst].
      assert (Hkeys : incrKeys (new1 ++ new2) = [userKey u; roomKey r] ++ dupKeys)
        by (by rewrite incrKeys_app, Hk, Hk2).
      assert (Hcmds : Database.commands srv2
                      = Database.commands srv ++ new1 ++ new2)
        by (by rewrite Hc2, Hc1, <- app_assoc).
      destruct (FilterRules.ck_allowed r2); cbn [negb].
      * exists srv2, (new1 ++ new2).
        destruct (negb _); (split; [done|]); (split; [done|]);
          right; right; right; done.
      * exists srv2, (new1 ++ new2). split; [done|]. split; [done|].
        right. right. left. done.
  - intros Hun.
    destruct (processDanmaku_unavailable tk socket data st Hun) as [? ?].
    done.
  - intros Hpass. unfold res.
    rewrite processDanmaku_after_checks by done. fold d r.
    split; [|split].
    + intros Ht. rewrite Ht. eexists. split; [done|]. done.
    + intros Ht Ha. rewrite Ht. cbv zeta. fold verdict. by rewrite Ha.
    + intros Ht Ha. rewrite Ht. cbv zeta. fold verdict. rewrite Ha.
      eexists. split; [done|]. done.
Qed.

Lemma C2_pipeline_order_witness :
  let tk := SocketHandlers.mkTick 0 (lit "id") in
  let socket := lit "s1" in
  let data := emojiMessage (lit "r1") (lit "smile") in
  let d := SocketHandlers.danmaku data in
  let u := SocketHandlers.senderOf socket d in
  let r := SocketHandlers.roomId data in
  let dupKeys :=
    match FilterRules.hashString (SocketHandlers.checkContentOf d) with
    | Some h => [duplicateKey u h]
    | None => []
    end in
  let res :=
    SocketHandlers.processDanmaku tk socket data
      (startState (Some emptyServer)) in
  let res' := SocketHandlers.processDanmaku tk socket data (startState None) in
  (∃ srv' new,
     SocketHandlers.redisClient res.1 = Some srv'
     ∧ Database.commands srv' = Database.commands emptyServer ++ new
     ∧ ((incrKeys new = [userKey u]
         ∧ res.2 = [SocketHandlers.SendFailed socket
                      (SocketHandlers.NoticeRate FilterRules.ReasonUserRate)])
        ∨ (incrKeys new = [userKey u; roomKey r]
           ∧ res.2 = [SocketHandlers.SendFailed socket
                        (SocketHandlers.NoticeRate FilterRules.ReasonRoomRate)])
        ∨ (incrKeys new = [userKey u; roomKey r] ++ dupKeys
           ∧ res.2 = [SocketHandlers.SendFailed socket
                        SocketHandlers.NoticeDuplicate])
        ∨ (incrKeys new = [userKey u; roomKey r] ++ dupKeys
           ∧ checksPass tk socket data (startState (Some emptyServer))
             = true)))
  ∧ (SocketHandlers.redisClient res'.1 = None
     ∧ checksPass tk socket data (startState None) = true)
  ∧ (∃ f, res'.2 = [SocketHandlers.NewDanmaku r f]
          ∧ SocketHandlers.f_content f = SocketHandlers.d_content d).
Proof.
  intros tk socket data d u r dupKeys res res'.
  pose proof (C2_pipeline_order tk socket data (startState (Some emptyServer)))
    as (H1 & _ & _).
  pose proof (C2_pipeline_order tk socket data (startState None))
    as (_ & H2 & H3).
  split; [|split].
  - exact (H1 emptyServer eq_refl eq_refl).
  - exact (H2 eq_refl).
  - exact (proj1 (H3 (proj2 (H2 eq_refl))) eq_refl).
Defined.

(** * Further properties of the code *)

(** ** The trie accepts nothing but the words added *)

Section TrieSoundness.

Import Trie.

Lemma accepts_newNode ks : accepts newNode ks = false.
Proof. by destruct ks. Qed.

Lemma accepts_addPath_inv ks' ks n :
  accepts (addPath ks' n) ks = true → ks = ks' ∨ accepts n ks = true.
Proof.
  revert n ks. induction ks' as [|k' ks' IH]; intros n ks Hacc.
  - destruct ks as [|k ks]; [by left|]. by right.
  - destruct ks as [|k ks]; [by right|].
    unfold accepts in *. simpl in *.
    destruct (decide (k' = k)) as [->|Hne].
    + rewrite Map_get_set_eq in Hacc.
      destruct (Map_get k (children n)) as [c|].
      * destruct (IH _ _ Hacc) as [->|H]; [by left|by right].
      * destruct (IH _ _ Hacc) as [->|H]; [by left|].
        fold (accepts newNode ks) in H. by rewrite accepts_newNode in H.
    + rewrite Map_get_set_ne in Hacc by done. by right.
Qed.

Lemma accepts_foldl_addWord_inv words t ks :
  accepts (foldl (λ root w, addWord w root) t words) ks = true →
  accepts t ks = true ∨ ∃ w, w ∈ words ∧ codePoints w = ks.
Proof.
  revert t. induction words as [|w0 words IH]; intros t Hacc; [by left|].
  simpl in Hacc. destruct (IH _ Hacc) as [H|(w & Hw & Hk)].
  - apply accepts_addPath_inv in H as [->|H]; [|by left].
    right. exists w0. split; [by left|done].
  - right. exists w. split; [by right|done].
Qed.

Lemma accepts_build_iff words ks :
  accepts (build words) ks = true ↔ ∃ w, w ∈ words ∧ codePoints w = ks.
Proof.
  split.
  - intros H. apply accepts_foldl_addWord_inv in H as [H|H]; [|done].
    by rewrite accepts_newNode in H.
  - intros (w & Hw & <-). by apply accepts_build.
Qed.

Lemma concat_codePoints_cons w :
  concat (codePoints w) = w ∧ ∀ c, concat (codePoints (c :: w)) = c :: w.
Proof.
  induction w as [|d w [IHP IHQ]]; [done|].
  split; [apply IHQ|]. intros c.
  change (codePoints (c :: d :: w))
    with (if isHighSurrogate c && isLowSurrogate d
          then [c; d] :: codePoints w else [c] :: codePoints (d :: w)).
  destruct (isHighSurrogate c && isLowSurrogate d); simpl.
  - by rewrite IHP.
  - f_equal. apply IHQ.
Qed.

Lemma concat_codePoints w : concat (codePoints w) = w.
Proof. apply concat_codePoints_cons. Qed.

Lemma concat_singletons (w : jsstring) : concat ((λ c, [c]) <$> w) = w.
Proof. induction w as [|c w IH]; [done|]. simpl. f_equal. apply IH. Qed.

Lemma codePoints_singletons_inv w x :
  codePoints w = (λ c, [c]) <$> x → w = x ∧ hasSurrogatePair w = false.
Proof.
  intros H.
  assert (w = x) as <-.
  { rewrite <- (concat_codePoints w), H. apply concat_singletons. }
  split; [done|].
  induction w as [|c w IH]; [done|]. destruct w as [|d w]; [done|].
  change (codePoints (c :: d :: w))
    with (if isHighSurrogate c && isLowSurrogate d
          then [c; d] :: codePoints w else [c] :: codePoints (d :: w)) in H.
  change (hasSurrogatePair (c :: d :: w))
    with (isHighSurrogate c && isLowSurrogate d || hasSurrogatePair (d :: w)).
  destruct (isHighSurrogate c && isLowSurrogate d); [discriminate|].
  simpl in H. injection H as H. by apply IH.
Qed.

(** What the walk reports was accepted from its start node and begins the
    rest of the text. *)
Lemma walk_sound rest node i j cur m :
  m ∈ walk node rest i j cur →
  ∃ w post,
    w ≠ [] ∧ rest = w ++ post ∧ word m = cur ++ w
    ∧ start m = i ∧ end_ m = j + length w
    ∧ accepts node ((λ c, [c]) <$> w) = true.
Proof.
  revert node j cur. induction rest as [|c rest IH]; intros node j cur Hin.
  - by apply elem_of_nil in Hin.
  - simpl in Hin.
    destruct (Map_get [c] (children node)) as [child|] eqn:Hc;
      [|by apply elem_of_nil in Hin].
    apply elem_of_app in Hin as [Hin|Hin].
    + destruct (isEnd child) eqn:He; [|by apply elem_of_nil in Hin].
      apply list_elem_of_singleton in Hin as ->.
      exists [c], rest. simpl. repeat split; try done; try lia.
      unfold accepts. simpl. by rewrite Hc.
    + apply IH in Hin as (w & post & Hne & -> & Hw & Hs & He & Hacc).
      exists (c :: w), post. rewrite Hw, <- app_assoc. simpl.
      repeat split; try done; try lia.
      unfold accepts in *. simpl. by rewrite Hc.
Qed.

Lemma scanFrom_sound root i suffix m :
  m ∈ scanFrom root i suffix →
  ∃ pre post,
    suffix = pre ++ word m ++ post ∧ word m ≠ []
    ∧ start m = i + length pre ∧ end_ m = start m + length (word m)
    ∧ accepts root ((λ c, [c]) <$> word m) = true.
Proof.
  revert i. induction suffix as [|c suffix IH]; intros i Hin.
  - by apply elem_of_nil in Hin.
  - change (scanFrom root i (c :: suffix))
      with (walk root (c :: suffix) i i [] ++ scanFrom root (S i) suffix)
      in Hin.
    apply elem_of_app in Hin as [Hin|Hin].
    + apply walk_sound in Hin as (w & post & Hne & Hrest & Hw & Hs & He & Hacc).
      simpl in Hw. subst w. exists [], post. simpl.
      repeat split; try done; lia.
    + apply IH in Hin as (pre & post & -> & Hne & Hs & He & Hacc).
      exists (c :: pre), post. simpl. repeat split; try done; lia.
Qed.

End TrieSoundness.

(** ** [check] and [filter], position by position *)

Section FilterExact.

Import Trie.

(** The second invariant of the replacement loop: every recorded key is the
    span of a match, and a position outside the recorded spans holds its
    original character. *)
Lemma maskLoop_untouched text (ms : list Match) l st :
  (∀ m, m ∈ l → m ∈ ms) →
  (∀ key, key ∈ st.2 → ∃ m, m ∈ ms ∧ key = (start m, end_ m)) →
  (∀ m, m ∈ l → wfMatch (length text) m) →
  length st.1 = length text →
  (∀ k, (∃ s e, (s, e) ∈ st.2 ∧ s ≤ k < e) ∨ st.1 !! k = text !! k) →
  (∀ key, key ∈ (foldl maskStep st l).2 →
          ∃ m, m ∈ ms ∧ key = (start m, end_ m))
  ∧ (∀ k, (∃ s e, (s, e) ∈ (foldl maskStep st l).2 ∧ s ≤ k < e)
          ∨ (foldl maskStep st l).1 !! k = text !! k).
Proof.
  revert st. induction l as [|m l IH]; intros st Hsub Hkeys Hwf Hlen Hpt;
    [done|].
  simpl. apply IH.
  - intros m' Hm'. apply Hsub. by right.
  - destruct st as [ft uniq]. unfold maskStep. simpl in *.
    case_bool_decide; simpl; [done|].
    intros key Hkey. apply elem_of_app in Hkey as [Hkey|Hkey]; [auto|].
    apply list_elem_of_singleton in Hkey as ->.
    exists m. split; [|done]. apply Hsub. by left.
  - intros m' Hm'. apply Hwf. by right.
  - destruct (Hwf m) as (Hlt & Hle & Hw); [by left|].
    destruct st as [ft uniq]. unfold maskStep. simpl in *.
    case_bool_decide; simpl; [done|].
    rewrite Hw. rewrite splice_length; lia.
  - destruct (Hwf m) as (Hlt & Hle & Hw); [by left|].
    destruct st as [ft uniq]. unfold maskStep. simpl in *.
    case_bool_decide; simpl; [done|].
    intros k. rewrite Hw, splice_lookup by lia.
    case_bool_decide as Hk.
    + left. exists (start m), (end_ m). split; [|lia].
      apply elem_of_app. right. by apply list_elem_of_singleton.
    + destruct (Hpt k) as [(s & e & Hin & Hse)|Heq]; [|by right].
      left. exists s, e. split; [|done]. apply elem_of_app. by left.
Qed.

Lemma filterRun_untouched root text k :
  (∃ m, m ∈ words (check root text) ∧ start m ≤ k < end_ m)
  ∨ filter root text !! k = text !! k.
Proof.
  unfold filter, filterRun.
  destruct (hasSensitive (check root text)); [|by right].
  destruct (maskLoop_untouched text (words (check root text))
              (sortDesc (words (check root text))) (text, []))
    as [Hkeys Hpt]; simpl.
  - intros m Hm. by rewrite elem_of_sortDesc in Hm.
  - intros key Hkey. by apply elem_of_nil in Hkey.
  - intros m Hm. rewrite elem_of_sortDesc in Hm. by apply (check_wf root).
  - done.
  - intros k'. by right.
  - destruct (Hpt k) as [(s & e & Hin & Hse)|Heq]; [|by right].
    left. destruct (Hkeys _ Hin) as (m & Hm & [= -> ->]). by exists m.
Qed.

Lemma covered_true k ms :
  covered k ms = true ↔ ∃ m, m ∈ ms ∧ start m ≤ k < end_ m.
Proof.
  unfold covered. rewrite existsb_exists. split.
  - intros (m & Hm & Hk). apply andb_true_iff in Hk as [H1 H2].
    apply Nat.leb_le in H1. apply Nat.ltb_lt in H2.
    exists m. split; [by apply list_elem_of_In|lia].
  - intros (m & Hm & Hk). exists m. split; [by apply list_elem_of_In|].
    apply andb_true_iff. split; [apply Nat.leb_le|apply Nat.ltb_lt]; lia.
Qed.

(** A text without an occurrence of a configured word comes back as it
    is. *)
Lemma filter_unchanged (ws : list jsstring) text :
  (∀ w, w ∈ ws → w ≠ [] → hasSurrogatePair w = false →
        includes w text = false) →
  filter (build ws) text = text.
Proof.
  intros Hno. unfold filter, filterRun. simpl.
  destruct (scanFrom (build ws) 0 text) as [|m l] eqn:E; [done|]. exfalso.
  assert (Hin : m ∈ scanFrom (build ws) 0 text) by (rewrite E; by left).
  apply scanFrom_sound in Hin as (pre & post & Htext & Hne & _ & _ & Hacc).
  apply accepts_build_iff in Hacc as (w & Hw & Hcp).
  apply codePoints_singletons_inv in Hcp as [-> Hpair].
  specialize (Hno _ Hw Hne Hpair).
  by rewrite Htext, includes_app in Hno.
Qed.

End FilterExact.

(** X1: [check] on the trie built from a word list reports exactly the
    occurrences of the configured words that are nonempty and hold no
    surrogate pair: the word of a match is such a word, it stands in the
    text from [start] to [end], and every such occurrence is reported. *)
Theorem X1_check_reports_exactly_occurrences (ws : list jsstring)
    (text : jsstring) (m : Trie.Match) :
  m ∈ Trie.words (Trie.check (Trie.build ws) text)
  ↔ Trie.word m ∈ ws ∧ Trie.word m ≠ []
    ∧ hasSurrogatePair (Trie.word m) = false
    ∧ ∃ pre post,
        text = pre ++ Trie.word m ++ post
        ∧ Trie.start m = length pre
        ∧ Trie.end_ m = length pre + length (Trie.word m).
Proof.
  split.
  - intros Hin. simpl in Hin.
    apply scanFrom_sound in Hin as (pre & post & Htext & Hne & Hs & He & Hacc).
    apply accepts_build_iff in Hacc as (w & Hw & Hcp).
    apply codePoints_singletons_inv in Hcp as [-> Hpair].
    split; [done|]. split; [done|]. split; [done|].
    exists pre, post. simpl in Hs. split; [done|]. split; [done|]. lia.
  - intros (Hw & Hne & Hpair & pre & post & -> & Hs & He).
    destruct m as [w s e]. simpl in *. subst s e.
    apply check_finds; [done|]. by apply build_accepts.
Qed.

(** X2: [filter] replaces by ['*'] exactly the positions that lie in the
    span of a match of [check], and leaves every other position as it is;
    the length of the text is kept. *)
Theorem X2_filter_masks_exactly_the_matches (root : Trie.TrieNode)
    (text : jsstring) (k : nat) :
  length (Trie.filter root text) = length text
  ∧ Trie.filter root text !! k
    = if covered k (Trie.words (Trie.check root text)) then Some star
      else text !! k.
Proof.
  split; [apply filter_length|].
  destruct (covered k (Trie.words (Trie.check root text))) eqn:Hc.
  - apply covered_true in Hc as (m & Hm & Hk).
    by apply (filter_masks_match root text m).
  - destruct (filterRun_untouched root text k) as [Hex|Heq]; [|done].
    apply covered_true in Hex. congruence.
Qed.

(** X3: when every configured word is nonempty and holds neither ['*'] nor
    a surrogate pair, [filter] returns the text unchanged exactly when the
    text contains none of the configured words. *)
Theorem X3_filter_unchanged_iff_no_word (ws : list jsstring) (text : jsstring) :
  (∀ w, w ∈ ws → plainWord w = true) →
  Trie.filter (Trie.build ws) text = text
  ↔ ∀ w, w ∈ ws → includes w text = false.
Proof.
  intros Hplain. split.
  - intros Hsame w Hw. destruct (includes w text) eqn:Hinc; [|done].
    exfalso. by apply (filter_changes ws w text Hw (Hplain w Hw) Hinc).
  - intros Hno. apply filter_unchanged. intros w Hw _ _. by apply Hno.
Qed.

Lemma X3_filter_unchanged_iff_no_word_witness :
  Trie.filter (Trie.build FilterRules.sensitiveWords) (lit "hello") = lit "hello"
  ↔ ∀ w, w ∈ FilterRules.sensitiveWords → includes w (lit "hello") = false.
Proof.
  apply (X3_filter_unchanged_iff_no_word FilterRules.sensitiveWords
           (lit "hello")).
  intros w Hw. apply list_elem_of_In in Hw. vm_compute in Hw.
  repeat (destruct Hw as [<-|Hw]; [vm_compute; reflexivity|]).
  destruct Hw.
Defined.

(** X4: when every configured word is nonempty and holds neither ['*'] nor
    a surrogate pair, filtering a filtered text changes nothing. *)
Theorem X4_filter_idempotent (ws : list jsstring) (text : jsstring) :
  (∀ w, w ∈ ws → plainWord w = true) →
  Trie.filter (Trie.build ws) (Trie.filter (Trie.build ws) text)
  = Trie.filter (Trie.build ws) text.
Proof.
  intros Hplain. apply filter_unchanged. intros w Hw Hne Hpair.
  destruct (plainWord_inv w (Hplain w Hw)) as (_ & Hstar & _).
  apply filter_removes; [done|done|]. by apply build_accepts.
Qed.

Lemma X4_filter_idempotent_witness :
  Trie.filter (Trie.build [lit "ab"; lit "abcd"])
    (Trie.filter (Trie.build [lit "ab"; lit "abcd"]) (lit "xabcdab"))
  = Trie.filter (Trie.build [lit "ab"; lit "abcd"]) (lit "xabcdab").
Proof.
  apply (X4_filter_idempotent [lit "ab"; lit "abcd"] (lit "xabcdab")).
  intros w Hw. apply list_elem_of_In in Hw. vm_compute in Hw.
  repeat (destruct Hw as [<-|Hw]; [vm_compute; reflexivity|]).
  destruct Hw.
Defined.

(** ** Updating the word list *)




(** ** [hashString] *)

Section HashFacts.

Lemma toInt32_range z : (-2147483648 ≤ toInt32 z < 2147483648)%Z.
Proof.
  unfold toInt32.
  pose proof (Z.mod_pos_bound (z + 2147483648) 4294967296 ltac:(lia)). lia.
Qed.

(** [toInt32] only looks at the residue modulo 2^32. *)
Lemma toInt32_shift z k : toInt32 (z + k * 4294967296) = toInt32 z.
Proof.
  unfold toInt32.
  replace (z + k * 4294967296 + 2147483648)%Z
    with (z + 2147483648 + k * 4294967296)%Z by lia.
  by rewrite Z_mod_plus_full.
Qed.

Lemma toInt32_residue z : ∃ k, toInt32 z = (z + k * 4294967296)%Z.
Proof.
  unfold toInt32. exists (- ((z + 2147483648) / 4294967296))%Z.
  pose proof (Z.div_mod (z + 2147483648) 4294967296 ltac:(lia)). lia.
Qed.

(** One turn of the loop is [hash * 31 + char] in 32-bit arithmetic. *)
Lemma hashStep_31 h c : FilterRules.hashStep h c = toInt32 (31 * h + Z.of_N c).
Proof.
  unfold FilterRules.hashStep.
  destruct (toInt32_residue (h * 32)) as [k ->].
  replace (h * 32 + k * 4294967296 - h + Z.of_N c)%Z
    with (31 * h + Z.of_N c + k * 4294967296)%Z by lia.
  apply toInt32_shift.
Qed.

Lemma hashStep_twice h a b :
  FilterRules.hashStep (FilterRules.hashStep h a) b
  = toInt32 (961 * h + 31 * Z.of_N a + Z.of_N b).
Proof.
  rewrite !hashStep_31.
  destruct (toInt32_residue (31 * h + Z.of_N a)) as [k ->].
  replace (31 * (31 * h + Z.of_N a + k * 4294967296) + Z.of_N b)%Z
    with (961 * h + 31 * Z.of_N a + Z.of_N b + (31 * k) * 4294967296)%Z
    by lia.
  apply toInt32_shift.
Qed.

Lemma digit36_isDigit36 d : (d < 36)%N → isDigit36 (digit36 d).
Proof.
  intros Hd. unfold isDigit36, digit36.
  destruct (d <? 10)%N eqn:E.
  - apply N.ltb_lt in E. left. lia.
  - apply N.ltb_ge in E. right. lia.
Qed.

Lemma toString36_aux_digits fuel n acc :
  Forall isDigit36 acc → Forall isDigit36 (toString36_aux fuel n acc).
Proof.
  revert n acc. induction fuel as [|fuel IH]; intros n acc Hacc; [done|].
  simpl.
  assert (Hd : Forall isDigit36 (digit36 (n mod 36) :: acc)).
  { constructor; [|done]. apply digit36_isDigit36.
    apply N.mod_upper_bound. lia. }
  destruct (n / 36 =? 0)%N; [done|]. by apply IH.
Qed.

Lemma toString36_aux_length fuel n acc :
  length acc ≤ length (toString36_aux fuel n acc)
  ∧ length (toString36_aux fuel n acc) ≤ fuel + length acc.
Proof.
  revert n acc. induction fuel as [|fuel IH]; intros n acc; [simpl; lia|].
  simpl. destruct (n / 36 =? 0)%N; [simpl; lia|].
  specialize (IH (n / 36)%N (digit36 (n mod 36) :: acc)). simpl in IH. lia.
Qed.

Lemma toString36_aux_nonempty fuel n acc :
  0 < fuel → toString36_aux fuel n acc ≠ [].
Proof.
  destruct fuel as [|fuel]; [lia|]. intros _. simpl.
  destruct (n / 36 =? 0)%N; [done|].
  pose proof (toString36_aux_length fuel (n / 36)%N
                (digit36 (n mod 36) :: acc)) as [H _].
  intros E. rewrite E in H. simpl in H. lia.
Qed.

Lemma hashText_digits s :
  Forall isDigit36 (hashText s)
  ∧ 1 ≤ length (hashText s) ∧ length (hashText s) ≤ 7.
Proof.
  unfold hashText, FilterRules.hashString.
  destruct (length s =? 0); simpl.
  - change (lit "0") with [48%N]. split; [|simpl; lia].
    constructor; [left; lia|constructor].
  - split; [by apply toString36_aux_digits|].
    unfold toString36.
    pose proof (toString36_aux_length 7
                  (Z.to_N (Z.abs (foldl FilterRules.hashStep 0%Z s))) [])
      as [_ H2].
    pose proof (toString36_aux_nonempty 7
                  (Z.to_N (Z.abs (foldl FilterRules.hashStep 0%Z s))) []
                  ltac:(lia)) as H3.
    destruct (toString36_aux 7 _ []); [done|]. simpl in *. lia.
Qed.

(** The last occurrence of a separator splits a list in one way only. *)
Lemma app_cons_unique (x : N) l1 l2 r1 r2 :
  x ∉ r1 → x ∉ r2 → l1 ++ x :: r1 = l2 ++ x :: r2 → l1 = l2 ∧ r1 = r2.
Proof.
  intros H1 H2 E.
  assert (Hrev : reverse r1 ++ x :: reverse l1 = reverse r2 ++ x :: reverse l2).
  { apply (f_equal reverse) in E.
    by rewrite !reverse_app, !reverse_cons, <- !app_assoc in E. }
  assert (Hgen : ∀ a b ra rb, x ∉ a → x ∉ b →
                   a ++ x :: ra = b ++ x :: rb → a = b ∧ ra = rb).
  { clear. induction a as [|c a IH]; intros b ra rb Ha Hb Eq.
    - destruct b as [|d b]; [by injection Eq|].
      injection Eq as -> _. exfalso. apply Hb. by left.
    - destruct b as [|d b].
      + injection Eq as -> _. exfalso. apply Ha. by left.
      + injection Eq as -> Eq.
        destruct (IH b ra rb) as [-> ->]; [| |done|done].
        * intros H. apply Ha. by right.
        * intros H. apply Hb. by right. }
  destruct (Hgen (reverse r1) (reverse r2) (reverse l1) (reverse l2))
    as [Hr Hl]; [by rewrite elem_of_reverse|by rewrite elem_of_reverse|done|].
  split.
  - by apply (inj reverse).
  - by apply (inj reverse).
Qed.

Lemma isDigit36_not_colon (h : jsstring) : Forall isDigit36 h → 58%N ∉ h.
Proof.
  intros Hall Hin. eapply Forall_forall in Hall; [|exact Hin].
  unfold isDigit36 in Hall. lia.
Qed.

End HashFacts.

(** X6: for every text, the hash [checkDuplicateMessage] puts in its key
    has one to seven characters, all of them digits of base 36 ('0'-'9',
    'a'-'z').  It holds no ':', so the key [duplicate:userId:hash] names
    its sender and its hash without ambiguity: two senders never share a
    duplicate counter, whatever their ids and texts. *)
Theorem X6_duplicate_key_unambiguous (u u' s s' : jsstring) :
  Forall isDigit36 (hashText s)
  ∧ 1 ≤ length (hashText s) ∧ length (hashText s) ≤ 7
  ∧ (duplicateKey u (hashText s) = duplicateKey u' (hashText s') →
     u = u' ∧ hashText s = hashText s').
Proof.
  destruct (hashText_digits s) as (Hd & Hl1 & Hl2).
  destruct (hashText_digits s') as (Hd' & _ & _).
  split; [done|]. split; [done|]. split; [done|].
  unfold duplicateKey. intros E. do 2 apply app_inv_head in E.
  apply (app_cons_unique 58%N u u' (hashText s) (hashText s'));
    [by apply isDigit36_not_colon|by apply isDigit36_not_colon|exact E].
Qed.

(** X7: [hashString] is the 32-bit hash [hash * 31 + char], so texts that
    differ only by "Aa" against "BB" at one place have the same hash: for
    one sender they share their duplicate counter, and
    [checkDuplicateMessage] answers both in the same way. *)
Theorem X7_hash_collision (p q u : jsstring) (cfg : FilterRules.Config)
    (now : Z) (redis : option Database.RedisServer) :
  FilterRules.hashString (JStr (p ++ lit "Aa" ++ q))
  = FilterRules.hashString (JStr (p ++ lit "BB" ++ q))
  ∧ p ++ lit "Aa" ++ q ≠ p ++ lit "BB" ++ q
  ∧ FilterRules.checkDuplicateMessage cfg u (JStr (p ++ lit "Aa" ++ q)) now
      redis
    = FilterRules.checkDuplicateMessage cfg u (JStr (p ++ lit "BB" ++ q)) now
        redis.
Proof.
  assert (Hh : FilterRules.hashString (JStr (p ++ lit "Aa" ++ q))
               = FilterRules.hashString (JStr (p ++ lit "BB" ++ q))).
  { unfold FilterRules.hashString. rewrite !length_app.
    change (length (lit "Aa")) with 2. change (length (lit "BB")) with 2.
    destruct (length p + (2 + length q) =? 0); [done|].
    do 3 f_equal. rewrite !foldl_app.
    change (foldl FilterRules.hashStep ?h (lit "Aa"))
      with (FilterRules.hashStep (FilterRules.hashStep h 65%N) 97%N).
    change (foldl FilterRules.hashStep ?h (lit "BB"))
      with (FilterRules.hashStep (FilterRules.hashStep h 66%N) 66%N).
    rewrite !hashStep_twice.
    by replace (961 * foldl FilterRules.hashStep 0%Z p + 31 * Z.of_N 65
                + Z.of_N 97)%Z
      with (961 * foldl FilterRules.hashStep 0%Z p + 31 * Z.of_N 66
            + Z.of_N 66)%Z by lia. }
  split; [done|]. split.
  - intros E. apply app_inv_head in E. vm_compute in E. discriminate E.
  - unfold FilterRules.checkDuplicateMessage. by rewrite Hh.
Qed.

(** ** Counting in a fixed window *)

Section WindowFacts.

Import Database FilterRules.

#[local] Opaque lit userKey roomKey duplicateKey incrWithExpire nextEntry.

(** While the key is alive, each call returns the next number, leaves the
    expiry alone and sends [INCR] only. *)
Lemma incrMany_live key ttl times :
  ∀ srv (c : nat) T,
    reachable srv = true →
    data srv !! (lit "danmaku:" ++ key) = Some (mkEntry (Z.of_nat c) (Some T)) →
    1 ≤ c → Forall (λ t, (t < T)%Z) times →
    ∃ srv',
      incrMany key ttl times (Some srv)
      = (Z.of_nat <$> seq (S c) (length times), Some srv')
      ∧ reachable srv' = true
      ∧ data srv' !! (lit "danmaku:" ++ key)
        = Some (mkEntry (Z.of_nat (c + length times)) (Some T))
      ∧ commands srv'
        = commands srv ++ replicate (length times) (INCR (lit "danmaku:" ++ key)).
Proof.
  induction times as [|t times IH]; intros srv c T Hr Hd Hc Hall.
  - exists srv. simpl. rewrite Nat.add_0_r, app_nil_r. done.
  - apply Forall_cons in Hall as [Ht Hall]. simpl.
    rewrite incrWithExpire_reachable by done. cbv zeta.
    set (fk := lit "danmaku:" ++ key) in *.
    rewrite (nextEntry_live srv t fk ttl (Z.of_nat c) T) by (done || lia).
    cbn [count value].
    replace (Z.of_nat c + 1 =? 1)%Z with false
      by (symmetry; apply Z.eqb_neq; lia).
    match goal with
    | |- context [incrMany key ttl times (Some ?s)] => set (srv1 := s)
    end.
    destruct (IH srv1 (S c) T) as (srv' & E & Hr' & Hd' & Hc'); [done| |lia|done|].
    { unfold srv1. cbn [data]. rewrite lookup_insert_eq.
      do 2 f_equal. lia. }
    rewrite E. exists srv'. split; [|split; [done|split]].
    + do 2 f_equal. f_equal. lia.
    + rewrite Hd'. do 2 f_equal. lia.
    + rewrite Hc'. unfold srv1. cbn [commands]. by rewrite <- app_assoc.
Qed.

(** [checkRateLimit] on a reachable server: the sender's counter is
    incremented whatever the outcome, and only a count above the limit is
    answered with the sender's reason. *)
Lemma checkRateLimit_user_step cfg srv u r now :
  reachable srv = true →
  let e := nextEntry srv now (userKey u) (timeWindow (userRateLimit cfg)) in
  let limit := messagesPerSecond (userRateLimit cfg) in
  ∃ res srv',
    checkRateLimit cfg u r now (Some srv) = (res, Some srv')
    ∧ reachable srv' = true
    ∧ data srv' !! userKey u = Some e
    ∧ ((limit < count e)%Z →
       res = mkCheckResult false ReasonUserRate (Some limit) (Some (count e)))
    ∧ ((count e ≤ limit)%Z → ck_reason res ≠ ReasonUserRate).
Proof.
  intros Hr e limit. unfold checkRateLimit.
  rewrite incrWithExpire_reachable by done. cbv zeta.
  change (lit "danmaku:" ++ lit "rate_limit:user:" ++ u) with (userKey u).
  cbn [hasRedis value andb]. fold e limit.
  destruct (limit <? count e)%Z eqn:E.
  - apply Z.ltb_lt in E. do 2 eexists. split; [done|]. split; [done|].
    cbn [data]. rewrite lookup_insert_eq. split; [done|]. split; [done|lia].
  - apply Z.ltb_ge in E.
    rewrite incrWithExpire_reachable by done. cbv zeta.
    change (lit "danmaku:" ++ lit "rate_limit:room:" ++ r) with (roomKey r).
    cbn [hasRedis value andb].
    destruct (messagesPerSecond (roomRateLimit cfg) <? _)%Z;
      do 2 eexists; (split; [done|]); (split; [done|]); cbn [data];
      (rewrite lookup_insert_ne
         by (intros E'; symmetry in E'; by apply userKey_roomKey in E'));
      rewrite lookup_insert_eq; (split; [done|]); (split; [lia|done]).
Qed.

Lemma checkDuplicateMessage_cfg_step cfg srv u content h now :
  reachable srv = true → hashString content = Some h →
  let e := nextEntry srv now (duplicateKey u h) (duplicateTimeWindow cfg) in
  ∃ srv',
    checkDuplicateMessage cfg u content now (Some srv)
    = (duplicateVerdictFor cfg (count e), Some srv')
    ∧ reachable srv' = true
    ∧ data srv' !! duplicateKey u h = Some e.
Proof.
  intros Hr Hh e. unfold checkDuplicateMessage. rewrite Hh.
  rewrite incrWithExpire_reachable by done. cbv zeta.
  change (lit "danmaku:" ++ lit "duplicate:" ++ u ++ lit ":" ++ h)
    with (duplicateKey u h).
  cbn [hasRedis value andb]. fold e. unfold duplicateVerdictFor.
  destruct (maxDuplicateCount cfg <? count e)%Z;
    eexists; (split; [done|]); (split; [done|]); cbn [data];
    by rewrite lookup_insert_eq.
Qed.

(** The calls of one sender while the sender's counter is alive. *)
Lemma rateRun_live cfg u r times :
  ∀ srv (c : nat) T,
    reachable srv = true →
    data srv !! userKey u = Some (mkEntry (Z.of_nat c) (Some T)) →
    1 ≤ c → Forall (λ t, (t < T)%Z) times →
    ∃ srv',
      (rateRun cfg u r times (Some srv)).2 = Some srv'
      ∧ reachable srv' = true
      ∧ data srv' !! userKey u
        = Some (mkEntry (Z.of_nat (c + length times)) (Some T))
      ∧ length (rateRun cfg u r times (Some srv)).1 = length times
      ∧ ∀ i res,
          (rateRun cfg u r times (Some srv)).1 !! i = Some res →
          let k := Z.of_nat (c + i + 1) in
          let limit := messagesPerSecond (userRateLimit cfg) in
          ((limit < k)%Z →
           res = mkCheckResult false ReasonUserRate (Some limit) (Some k))
          ∧ ((k ≤ limit)%Z → ck_reason res ≠ ReasonUserRate).
Proof.
  induction times as [|t times IH]; intros srv c T Hr Hd Hc Hall.
  - exists srv. simpl. rewrite Nat.add_0_r. repeat split; try done.
  - apply Forall_cons in Hall as [Ht Hall]. simpl.
    destruct (checkRateLimit_user_step cfg srv u r t Hr)
      as (res & srv1 & E & Hr1 & Hd1 & Hden & Hok).
    rewrite (nextEntry_live srv t (userKey u) _ (Z.of_nat c) T)
      in Hd1, Hden, Hok by (done || lia).
    cbn [count] in Hden, Hok. rewrite E.
    destruct (IH srv1 (S c) T) as (srv' & E' & Hr' & Hd' & Hl' & Hres');
      [done| |lia|done|].
    { rewrite Hd1. do 2 f_equal. lia. }
    destruct (rateRun cfg u r times (Some srv1)) as [rs redis2].
    simpl in *. exists srv'. split; [done|]. split; [done|]. split.
    { rewrite Hd'. do 2 f_equal. lia. }
    split; [by rewrite Hl'|].
    intros [|i] res' Hi; simpl in Hi.
    + injection Hi as <-.
      replace (Z.of_nat (c + 0 + 1)) with (Z.of_nat c + 1)%Z by lia. done.
    + specialize (Hres' i res' Hi).
      by replace (Z.of_nat (c + S i + 1)) with (Z.of_nat (S c + i + 1)) by lia.
Qed.

Lemma duplicateRun_live cfg u content h times :
  hashString content = Some h →
  ∀ srv (c : nat) T,
    reachable srv = true →
    data srv !! duplicateKey u h = Some (mkEntry (Z.of_nat c) (Some T)) →
    1 ≤ c → Forall (λ t, (t < T)%Z) times →
    (duplicateRun cfg u content times (Some srv)).1
    = (λ k, duplicateVerdictFor cfg (Z.of_nat k)) <$> seq (S c) (length times).
Proof.
  intros Hh. induction times as [|t times IH]; intros srv c T Hr Hd Hc Hall;
    [done|].
  apply Forall_cons in Hall as [Ht Hall]. simpl.
  destruct (checkDuplicateMessage_cfg_step cfg srv u content h t Hr Hh)
    as (srv1 & E & Hr1 & Hd1).
  rewrite (nextEntry_live srv t (duplicateKey u h) _ (Z.of_nat c) T)
    in E, Hd1 by (done || lia).
  cbn [count] in E. rewrite E.
  specialize (IH srv1 (S c) T Hr1).
  destruct (duplicateRun cfg u content times (Some srv1)) as [rs redis2].
  simpl in *. rewrite IH; [|rewrite Hd1; do 2 f_equal; lia|lia|done].
  do 2 f_equal. lia.
Qed.

End WindowFacts.

Section WindowTheorems.

Import Database FilterRules.

#[local] Opaque lit userKey roomKey duplicateKey incrWithExpire nextEntry.

(** X8: on a reachable server, calls of [incrWithExpire] for one key that
    starts absent or expired return 1, 2, 3, ... as long as they fall before
    the expiry set by the first call; [EXPIRE] is sent once, after the first
    [INCR], so later calls never extend the window; the first call at or
    after the expiry returns 1 again. *)
Theorem X8_incrWithExpire_counts_a_fixed_window (key : jsstring) (ttl t0 : Z)
    (times : list Z) (srv : RedisServer) :
  reachable srv = true →
  live srv t0 (lit "danmaku:" ++ key) = None →
  (0 < ttl)%Z →
  Forall (λ t, (t < t0 + 1000 * ttl)%Z) times →
  ∃ srv',
    incrMany key ttl (t0 :: times) (Some srv)
    = (Z.of_nat <$> seq 1 (S (length times)), Some srv')
    ∧ data srv' !! (lit "danmaku:" ++ key)
      = Some (mkEntry (Z.of_nat (S (length times)))
                (Some (t0 + 1000 * ttl)%Z))
    ∧ commands srv'
      = commands srv
          ++ INCR (lit "danmaku:" ++ key)
          :: EXPIRE (lit "danmaku:" ++ key) ttl
          :: replicate (length times) (INCR (lit "danmaku:" ++ key))
    ∧ ∀ t, (t0 + 1000 * ttl ≤ t)%Z →
           (incrWithExpire key ttl t (Some srv')).1 = mkIncr 1 true.
Proof.
  intros Hr Hfresh Httl Hall.
  change (incrMany key ttl (t0 :: times) (Some srv))
    with (let '(r, redis1) := incrWithExpire key ttl t0 (Some srv) in
          let '(vs, redis2) := incrMany key ttl times redis1 in
          (value r :: vs, redis2)).
  rewrite incrWithExpire_reachable by done. cbv zeta.
  set (fk := lit "danmaku:" ++ key) in *.
  rewrite nextEntry_fresh by done. cbn [count value].
  change (1 =? 1)%Z with true. cbv iota.
  match goal with
  | |- context [incrMany key ttl times (Some ?s)] => set (srv1 := s)
  end.
  destruct (incrMany_live key ttl times srv1 1 (t0 + 1000 * ttl)%Z)
    as (srv' & E & Hr' & Hd' & Hc'); [done|apply lookup_insert_eq|lia|done|].
  fold fk in Hd', Hc'. rewrite E. exists srv'.
  split; [done|]. split; [done|]. split.
  - rewrite Hc'. unfold srv1. cbn [commands]. by rewrite <- app_assoc.
  - intros t Ht. rewrite incrWithExpire_reachable by done. cbv zeta.
    fold fk.
    by rewrite (nextEntry_expired srv' t fk ttl _ (t0 + 1000 * ttl)%Z Hd' Ht).
Qed.

Lemma X8_incrWithExpire_counts_a_fixed_window_witness :
  ∃ srv',
    incrMany (lit "k") 1 [0; 100; 999; 500]%Z (Some emptyServer)
    = (Z.of_nat <$> seq 1 (S (length [100; 999; 500]%Z)), Some srv')
    ∧ data srv' !! (lit "danmaku:" ++ lit "k")
      = Some (mkEntry (Z.of_nat (S (length [100; 999; 500]%Z)))
                (Some (0 + 1000 * 1)%Z))
    ∧ commands srv'
      = commands emptyServer
          ++ INCR (lit "danmaku:" ++ lit "k")
          :: EXPIRE (lit "danmaku:" ++ lit "k") 1
          :: replicate (length [100; 999; 500]%Z)
               (INCR (lit "danmaku:" ++ lit "k"))
    ∧ ∀ t, (0 + 1000 * 1 ≤ t)%Z →
           (incrWithExpire (lit "k") 1 t (Some srv')).1 = mkIncr 1 true.
Proof.
  apply (X8_incrWithExpire_counts_a_fixed_window (lit "k") 1 0
           [100; 999; 500]%Z emptyServer).
  - reflexivity.
  - reflexivity.
  - lia.
  - repeat constructor.
Defined.

(** X9: under any configuration, on a reachable server, the calls of
    [checkRateLimit] of one sender in one window (the first on an absent or
    expired counter, the others before its expiry) are counted one by one:
    the [k]-th call is denied for the sender's rate, with the limit and the
    count [k], exactly when [k] exceeds the sender's limit, denied calls
    being counted too; and with a limit of at least 1 the first call at or
    after the expiry is not denied for the sender's rate. *)
Theorem X9_rate_limit_counts_every_call (cfg : Config) (u r : jsstring)
    (t0 : Z) (times : list Z) (srv : RedisServer) :
  reachable srv = true →
  live srv t0 (userKey u) = None →
  (0 < timeWindow (userRateLimit cfg))%Z →
  Forall (λ t, (t < t0 + 1000 * timeWindow (userRateLimit cfg))%Z) times →
  let limit := messagesPerSecond (userRateLimit cfg) in
  let run := rateRun cfg u r (t0 :: times) (Some srv) in
  length run.1 = S (length times)
  ∧ (∀ i res, run.1 !! i = Some res →
       ((limit < Z.of_nat (i + 1))%Z →
        res = mkCheckResult false ReasonUserRate (Some limit)
                (Some (Z.of_nat (i + 1))))
       ∧ ((Z.of_nat (i + 1) ≤ limit)%Z → ck_reason res ≠ ReasonUserRate))
  ∧ (∀ t, (t0 + 1000 * timeWindow (userRateLimit cfg) ≤ t)%Z →
          (1 ≤ limit)%Z →
          ck_reason (checkRateLimit cfg u r t run.2).1 ≠ ReasonUserRate).
Proof.
  intros Hr Hfresh Hw Hall limit run. unfold run.
  change (rateRun cfg u r (t0 :: times) (Some srv))
    with (let '(res, redis1) := checkRateLimit cfg u r t0 (Some srv) in
          let '(rs, redis2) := rateRun cfg u r times redis1 in
          (res :: rs, redis2)).
  destruct (checkRateLimit_user_step cfg srv u r t0 Hr)
    as (res0 & srv1 & E & Hr1 & Hd1 & Hden & Hok).
  rewrite nextEntry_fresh in Hd1, Hden, Hok by done.
  cbn [count] in Hden, Hok. rewrite E.
  destruct (rateRun_live cfg u r times srv1 1
              (t0 + 1000 * timeWindow (userRateLimit cfg))%Z)
    as (srv' & E' & Hr' & Hd' & Hl' & Hres'); [done|done|lia|done|].
  destruct (rateRun cfg u r times (Some srv1)) as [rs redis2].
  simpl in E', Hl', Hres'. cbn [fst snd]. subst redis2.
  split; [simpl; by rewrite Hl'|]. split.
  - intros [|i] res Hi; simpl in Hi.
    + injection Hi as <-. done.
    + specialize (Hres' i res Hi). cbv zeta in Hres'.
      by replace (Z.of_nat (S i + 1)) with (Z.of_nat (1 + i + 1)) by lia.
  - intros t Ht Hlim.
    destruct (checkRateLimit_user_step cfg srv' u r t Hr')
      as (res & srv2 & E2 & _ & _ & _ & Hok2).
    rewrite (nextEntry_expired srv' t (userKey u) _ _ _ Hd' Ht) in Hok2.
    rewrite E2. apply Hok2. done.
Qed.

Lemma X9_rate_limit_counts_every_call_witness :
  let run := rateRun config (lit "u1") (lit "r1") [0; 10; 20; 30]%Z
               (Some emptyServer) in
  length run.1 = S (length [10; 20; 30]%Z)
  ∧ (∀ i res, run.1 !! i = Some res →
       ((2 < Z.of_nat (i + 1))%Z →
        res = mkCheckResult false ReasonUserRate (Some 2%Z)
                (Some (Z.of_nat (i + 1))))
       ∧ ((Z.of_nat (i + 1) ≤ 2)%Z → ck_reason res ≠ ReasonUserRate))
  ∧ (∀ t, (0 + 1000 * 1 ≤ t)%Z →
          (1 ≤ 2)%Z →
          ck_reason (checkRateLimit config (lit "u1") (lit "r1") t run.2).1
          ≠ ReasonUserRate).
Proof.
  apply (X9_rate_limit_counts_every_call config (lit "u1") (lit "r1") 0
           [10; 20; 30]%Z emptyServer).
  - reflexivity.
  - reflexivity.
  - reflexivity.
  - repeat constructor.
Defined.

(** X10: under any configuration, on a reachable server, the calls of
    [checkDuplicateMessage] of one sender with one content in one window
    are allowed up to [maxDuplicateCount] and denied from then on, each
    denial carrying the running count; denied calls are counted too. *)
Theorem X10_duplicate_check_counts_every_call (cfg : Config) (u h : jsstring)
    (content : jsval) (t0 : Z) (times : list Z) (srv : RedisServer) :
  reachable srv = true →
  hashString content = Some h →
  live srv t0 (duplicateKey u h) = None →
  (0 < duplicateTimeWindow cfg)%Z →
  Forall (λ t, (t < t0 + 1000 * duplicateTimeWindow cfg)%Z) times →
  (duplicateRun cfg u content (t0 :: times) (Some srv)).1
  = (λ k, duplicateVerdictFor cfg (Z.of_nat k)) <$> seq 1 (S (length times)).
Proof.
  intros Hr Hh Hfresh Hw Hall.
  change (duplicateRun cfg u content (t0 :: times) (Some srv))
    with (let '(res, redis1) :=
            checkDuplicateMessage cfg u content t0 (Some srv) in
          let '(rs, redis2) := duplicateRun cfg u content times redis1 in
          (res :: rs, redis2)).
  destruct (checkDuplicateMessage_cfg_step cfg srv u content h t0 Hr Hh)
    as (srv1 & E & Hr1 & Hd1).
  rewrite nextEntry_fresh in E, Hd1 by done. cbn [count] in E. rewrite E.
  pose proof (duplicateRun_live cfg u content h times Hh srv1 1
                (t0 + 1000 * duplicateTimeWindow cfg)%Z Hr1 Hd1
                ltac:(lia) Hall) as Hrun.
  destruct (duplicateRun cfg u content times (Some srv1)) as [rs redis2].
  simpl in *. by rewrite Hrun.
Qed.

Lemma X10_duplicate_check_counts_every_call_witness :
  (duplicateRun config (lit "u1") (JStr (lit "hello"))
     [0; 1000; 2000; 3000; 4000]%Z (Some emptyServer)).1
  = (λ k, duplicateVerdictFor config (Z.of_nat k))
      <$> seq 1 (S (length [1000; 2000; 3000; 4000]%Z)).
Proof.
  apply (X10_duplicate_check_counts_every_call config (lit "u1")
           (hashText (lit "hello")) (JStr (lit "hello")) 0
           [1000; 2000; 3000; 4000]%Z emptyServer).
  - reflexivity.
  - reflexivity.
  - reflexivity.
  - reflexivity.
  - repeat constructor.
Defined.

End WindowTheorems.

(** ** What the pipeline lets through, and what it remembers *)

Section PipelineState.

Import FilterRules SocketHandlers.

Lemma processDanmaku_state tk socket data st :
  let res := processDanmaku tk socket data st in
  sensitiveWordTrie res.1 = sensitiveWordTrie st
  ∧ cfg res.1 = cfg st
  ∧ roomInfo res.1 = roomInfo st
  ∧ ((∃ n, res.2 = [SendFailed socket n])
     ∧ userMessages res.1 = userMessages st
     ∨ (∃ f, res.2 = [NewDanmaku (roomId data) f])
       ∧ userMessages res.1
         = remember (senderOf socket (danmaku data))
             (d_content (danmaku data)) (now tk) (userMessages st)).
Proof.
  cbv zeta. unfold processDanmaku.
  destruct (checkRateLimit _ _ _ _ _) as [r1 redis1].
  destruct (ck_allowed r1); simpl; [|by eauto 10].
  destruct (checkDuplicateMessage _ _ _ _ _) as [r2 redis2].
  destruct (ck_allowed r2); simpl; [|by eauto 10].
  destruct (negb _); simpl; eauto 10.
Qed.

Lemma remember_bounded u c t um :
  userMessagesBounded um → userMessagesBounded (remember u c t um).
Proof.
  intros Hb u' l. unfold remember.
  destruct (decide (u = u')) as [<-|Hne].
  - rewrite lookup_insert_eq. intros [= <-].
    assert (Hl : length (default [] (um !! u)) ≤ 10).
    { destruct (um !! u) as [l0|] eqn:E; simpl; [by eapply Hb|lia]. }
    destruct (10 <? length (default [] (um !! u) ++ [(c, t)])) eqn:E.
    + rewrite length_drop, length_app. simpl. lia.
    + apply Nat.ltb_ge in E. done.
  - rewrite lookup_insert_ne by done. apply Hb.
Qed.

Lemma processDanmaku_bounded tk socket data st :
  userMessagesBounded (userMessages st) →
  userMessagesBounded (userMessages (processDanmaku tk socket data st).1).
Proof.
  intros Hb.
  destruct (processDanmaku_state tk socket data st)
    as (_ & _ & _ & [[_ ->]|[_ ->]]); [done|by apply remember_bounded].
Qed.

Lemma processBatch_bounded ticks k batch st :
  userMessagesBounded (userMessages st) →
  userMessagesBounded (userMessages (processBatch ticks k batch st).1).
Proof.
  revert k st. induction batch as [|p batch IH]; intros k st Hb; [done|].
  simpl.
  pose proof (processDanmaku_bounded (ticks k) (p_socket p) (p_data p) st Hb)
    as H1.
  destruct (processDanmaku (ticks k) (p_socket p) (p_data p) st) as [st1 ev1].
  pose proof (IH (S k) st1 H1) as H2.
  destruct (processBatch ticks (S k) batch st1) as [st2 ev2]. done.
Qed.

Lemma processMessageQueue_bounded ticks rid st :
  userMessagesBounded (userMessages st) →
  userMessagesBounded (userMessages (processMessageQueue ticks rid st).1).
Proof.
  intros Hb. unfold processMessageQueue.
  destruct (roomInfo st !! rid) as [room|]; [|done].
  destruct (length (messageQueue room) =? 0); [done|].
  match goal with
  | |- context [processBatch ?t ?k ?b ?s] =>
      pose proof (processBatch_bounded t k b s Hb) as H1;
      destruct (processBatch t k b s) as [st1 ev]
  end.
  done.
Qed.

End PipelineState.

(** X11: when [filterDanmaku] allows a content under the trie built from a
    word list, the resulting text has at most 50 code units and contains no
    configured word (nonempty, without ['*'] and surrogate pair); the same
    holds for the text of every message [processDanmaku] broadcasts. *)
Theorem X11_allowed_text_is_short_and_clean (ws : list jsstring) (v : jsval) :
  FilterRules.allowed (FilterRules.filterDanmaku (Some (Trie.build ws)) v)
  = true →
  (length (FilterRules.content
             (FilterRules.filterDanmaku (Some (Trie.build ws)) v)) ≤ 50
   ∧ ∀ w, w ∈ ws → plainWord w = true →
          includes w (FilterRules.content
                        (FilterRules.filterDanmaku (Some (Trie.build ws)) v))
          = false)
  ∧ ∀ tk socket data st room f c,
      SocketHandlers.sensitiveWordTrie st = Some (Trie.build ws) →
      SocketHandlers.NewDanmaku room f
        ∈ (SocketHandlers.processDanmaku tk socket data st).2 →
      SocketHandlers.f_content f = JStr c →
      length c ≤ 50
      ∧ ∀ w, w ∈ ws → plainWord w = true → includes w c = false.
Proof.
  assert (Hgen : ∀ v',
    FilterRules.allowed (FilterRules.filterDanmaku (Some (Trie.build ws)) v')
    = true →
    length (FilterRules.content
              (FilterRules.filterDanmaku (Some (Trie.build ws)) v')) ≤ 50
    ∧ ∀ w, w ∈ ws → plainWord w = true →
           includes w (FilterRules.content
                         (FilterRules.filterDanmaku (Some (Trie.build ws)) v'))
           = false).
  { intros v' Ha. split.
    - rewrite (filterDanmaku_allowed _ _ Ha).
      unfold FilterRules.filterDanmaku in Ha.
      destruct (truthy v' && negb (isString v')) eqn:E1; [done|].
      destruct v' as [| |b|z|s|n|]; simpl; try lia.
      simpl in Ha. destruct (negb (bool_decide (s = []))) eqn:Hs; simpl in Ha.
      + destruct (50 <? length (trim s)) eqn:E; [done|].
        by apply Nat.ltb_ge in E.
      + apply negb_false_iff, bool_decide_eq_true in Hs as ->.
        change (trim []) with (@nil N). simpl. lia.
    - intros w Hw Hplain.
      destruct (plainWord_inv w Hplain) as (Hne & Hstar & Hpair).
      assert (Hf : ∃ t, FilterRules.content
                     (FilterRules.filterDanmaku (Some (Trie.build ws)) v')
                   = Trie.filter (Trie.build ws) t).
      { unfold FilterRules.filterDanmaku in *.
        destruct (truthy v' && negb (isString v')); [done|].
        destruct (truthy v' && _); [done|]. simpl. eauto. }
      destruct Hf as [t ->].
      apply filter_removes; [done|done|]. by apply build_accepts. }
  intros Ha. split; [by apply Hgen|].
  intros tk socket data st room f c Htrie Hin Hc.
  apply processDanmaku_broadcast in Hin. rewrite Htrie in Hin.
  destruct (truthy (SocketHandlers.d_content (SocketHandlers.danmaku data)))
    eqn:Ht.
  - destruct Hin as [Ha' Hf]. rewrite Hf in Hc. injection Hc as <-.
    by apply Hgen.
  - rewrite Hin in Hc. rewrite Hc in Ht. simpl in Ht.
    apply negb_false_iff, bool_decide_eq_true in Ht as ->.
    split; [simpl; lia|]. intros w Hw Hplain.
    destruct (plainWord_inv w Hplain) as (Hne & _ & _).
    by apply includes_nil_r.
Qed.

Lemma X11_allowed_text_is_short_and_clean_witness :
  (length (FilterRules.content
             (FilterRules.filterDanmaku
                (Some (Trie.build FilterRules.sensitiveWords))
                (JStr (lit " hello "))))
   ≤ 50
   ∧ ∀ w, w ∈ FilterRules.sensitiveWords → plainWord w = true →
          includes w (FilterRules.content
                        (FilterRules.filterDanmaku
                           (Some (Trie.build FilterRules.sensitiveWords))
                           (JStr (lit " hello "))))
          = false)
  ∧ ∀ tk socket data st room f c,
      SocketHandlers.sensitiveWordTrie st
      = Some (Trie.build FilterRules.sensitiveWords) →
      SocketHandlers.NewDanmaku room f
        ∈ (SocketHandlers.processDanmaku tk socket data st).2 →
      SocketHandlers.f_content f = JStr c →
      length c ≤ 50
      ∧ ∀ w, w ∈ FilterRules.sensitiveWords → plainWord w = true →
             includes w c = false.
Proof.
  apply (X11_allowed_text_is_short_and_clean FilterRules.sensitiveWords
           (JStr (lit " hello "))).
  vm_compute. reflexivity.
Defined.

(** X12: when the Redis client is missing or its server rejects the
    commands, [processDanmaku] never answers with a rate or duplicate
    notice and leaves the client as it is: a message without text is
    broadcast, and a message with text is judged by [filterDanmaku] alone.
    A rejection then changes nothing of the state. *)
Theorem X12_pipeline_fails_open (tk : SocketHandlers.Tick)
    (socket : jsstring) (data : SocketHandlers.Data)
    (st : SocketHandlers.State) :
  unavailable (SocketHandlers.redisClient st) = true →
  let res := SocketHandlers.processDanmaku tk socket data st in
  let d := SocketHandlers.danmaku data in
  checksPass tk socket data st = true
  ∧ SocketHandlers.redisClient res.1 = SocketHandlers.redisClient st
  ∧ (∀ n, SocketHandlers.SendFailed socket n ∈ res.2 →
          n = SocketHandlers.NoticeSensitive ∧ res.1 = st)
  ∧ (truthy (SocketHandlers.d_content d) = false →
     ∃ f, res.2 = [SocketHandlers.NewDanmaku (SocketHandlers.roomId data) f])
  ∧ (truthy (SocketHandlers.d_content d) = true →
     ((∃ f, res.2 = [SocketHandlers.NewDanmaku (SocketHandlers.roomId data) f])
      ↔ FilterRules.allowed
          (FilterRules.filterDanmaku (SocketHandlers.sensitiveWordTrie st)
             (SocketHandlers.d_content d)) = true)).
Proof.
  intros Hun res d.
  assert (Hpass : checksPass tk socket data st = true).
  { unfold checksPass.
    destruct (checks_unavailable (SocketHandlers.cfg st)
                (SocketHandlers.senderOf socket (SocketHandlers.danmaku data))
                (SocketHandlers.roomId data)
                (SocketHandlers.checkContentOf (SocketHandlers.danmaku data))
                (SocketHandlers.now tk) (SocketHandlers.redisClient st) Hun)
      as (-> & -> & _). done. }
  assert (Hredis : SocketHandlers.redisClient res.1
                   = SocketHandlers.redisClient st
                   ∧ ((∃ n, res.2 = [SocketHandlers.SendFailed socket n]) →
                      res.1 = st)).
  { unfold res, SocketHandlers.processDanmaku.
    destruct (checks_unavailable (SocketHandlers.cfg st)
                (SocketHandlers.senderOf socket (SocketHandlers.danmaku data))
                (SocketHandlers.roomId data)
                (SocketHandlers.checkContentOf (SocketHandlers.danmaku data))
                (SocketHandlers.now tk) (SocketHandlers.redisClient st) Hun)
      as (E1 & E2 & E3).
    rewrite E1. cbn [FilterRules.ck_allowed negb].
    destruct (FilterRules.checkDuplicateMessage _ _ _ _ _) as [r2 redis2].
    simpl in E2, E3. subst redis2. rewrite E2. cbn [negb].
    destruct (negb _); simpl.
    - split; [done|]. intros _. by destruct st.
    - split; [done|]. intros [n Hn]. discriminate Hn. }
  destruct Hredis as [Hredis Hrej].
  pose proof (processDanmaku_after_checks tk socket data st Hpass) as Hev.
  fold res d in Hev.
  split; [done|]. split; [done|]. split; [|split].
  - intros n Hin. split.
    + rewrite Hev in Hin. destruct (truthy (SocketHandlers.d_content d)).
      * cbv zeta in Hin. destruct (FilterRules.allowed _);
          apply list_elem_of_singleton in Hin; [discriminate|].
        by injection Hin as ->.
      * apply list_elem_of_singleton in Hin. discriminate.
    + apply Hrej.
      destruct (processDanmaku_events tk socket data st) as [H|[f Hf]];
        [done|].
      fold res in Hf. rewrite Hf in Hin.
      apply list_elem_of_singleton in Hin. discriminate.
  - intros Ht. rewrite Hev, Ht. eauto.
  - intros Ht. rewrite Hev, Ht. cbv zeta.
    destruct (FilterRules.allowed _); split; eauto; try done.
    intros [f Hf]. discriminate Hf.
Qed.

Lemma X12_pipeline_fails_open_witness :
  let tk := SocketHandlers.mkTick 0 (lit "id") in
  let socket := lit "s1" in
  let data := textMessage (lit "r1") (lit "hello") in
  let st := startState None in
  let res := SocketHandlers.processDanmaku tk socket data st in
  let d := SocketHandlers.danmaku data in
  checksPass tk socket data st = true
  ∧ SocketHandlers.redisClient res.1 = SocketHandlers.redisClient st
  ∧ (∀ n, SocketHandlers.SendFailed socket n ∈ res.2 →
          n = SocketHandlers.NoticeSensitive ∧ res.1 = st)
  ∧ (truthy (SocketHandlers.d_content d) = false →
     ∃ f, res.2 = [SocketHandlers.NewDanmaku (SocketHandlers.roomId data) f])
  ∧ (truthy (SocketHandlers.d_content d) = true →
     ((∃ f, res.2 = [SocketHandlers.NewDanmaku (SocketHandlers.roomId data) f])
      ↔ FilterRules.allowed
          (FilterRules.filterDanmaku (SocketHandlers.sensitiveWordTrie st)
             (SocketHandlers.d_content d)) = true)).
Proof.
  apply (X12_pipeline_fails_open (SocketHandlers.mkTick 0 (lit "id"))
           (lit "s1") (textMessage (lit "r1") (lit "hello"))
           (startState None)).
  reflexivity.
Defined.

(** ** The queue, the rooms and the remembered messages *)

Section RoomState.

Import SocketHandlers.

Lemma processMessageQueue_rooms ticks rid st :
  roomInfo (processMessageQueue ticks rid st).1
  = match roomInfo st !! rid with
    | Some room =>
        if length (messageQueue room) =? 0 then roomInfo st
        else <[rid := mkRoom (onlineUsers room)
                        (drop batchSize (messageQueue room))
                        (now (ticks (length (take batchSize
                                               (messageQueue room)))))]>
               (roomInfo st)
    | None => roomInfo st
    end.
Proof.
  unfold processMessageQueue.
  destruct (roomInfo st !! rid) as [room|]; [|done].
  destruct (length (messageQueue room) =? 0); [done|].
  match goal with
  | |- context [processBatch ?t ?k ?b ?s] =>
      pose proof (processBatch_roomInfo t k b s) as Hb;
      destruct (processBatch t k b s) as [st1 ev]
  end.
  simpl in *. rewrite Hb. apply insert_insert_eq.
Qed.

Lemma processBatch_events ticks k batch st :
  calls (processBatch ticks k batch st).2 = batch
  ∧ Forall2 answers batch (emitted (processBatch ticks k batch st).2).
Proof.
  revert k st. induction batch as [|p batch IH]; intros k st.
  - split; [done|constructor].
  - simpl.
    pose proof (processDanmaku_events (ticks k) (p_socket p) (p_data p) st)
      as Hev.
    destruct (processDanmaku (ticks k) (p_socket p) (p_data p) st)
      as [st1 ev1].
    destruct (IH (S k) st1) as [Hc He].
    destruct (processBatch ticks (S k) batch st1) as [st2 ev2].
    simpl in *. destruct p as [s d]. simpl in *.
    destruct Hev as [[n ->]|[f ->]]; simpl; rewrite Hc; split; try done;
      by constructor.
Qed.

(** The rooms and the remembered messages after the synchronous part of
    the ['send-danmaku'] handler. *)
Lemma sendDanmaku_rooms tk socket data st :
  ∀ rid,
    roomInfo (sendDanmaku tk socket data st).1 !! rid = roomInfo st !! rid
    ∨ rid = roomId data
      ∧ ∃ room k,
          roomInfo st !! rid = Some room
          ∧ length (messageQueue room) ≤ 100
          ∧ ∃ room',
              roomInfo (sendDanmaku tk socket data st).1 !! rid = Some room'
              ∧ onlineUsers room' = onlineUsers room
              ∧ messageQueue room'
                = drop k (messageQueue room ++ [mkPending socket data]).
Proof.
  intros rid. unfold sendDanmaku.
  destruct (roomInfo st !! roomId data) as [room|] eqn:Hroom; [|by left].
  destruct (100 <? length (messageQueue room)) eqn:Hlen.
  - destruct (startProcessDanmaku_state tk socket data st) as (Hr & _).
    destruct (startProcessDanmaku tk socket data st) as [st1 w].
    cbn [fst] in *. left. by rewrite Hr.
  - apply Nat.ltb_ge in Hlen.
    set (p := mkPending socket data).
    set (room1 := mkRoom (onlineUsers room) (messageQueue room ++ [p])
                    (lastProcessTime room)).
    set (st1 := setRooms (<[roomId data := room1]> (roomInfo st)) st).
    assert (Hroom1 : roomInfo st1 !! roomId data = Some room1)
      by apply lookup_insert_eq.
    assert (Hq1 : messageQueue room1 ≠ []).
    { simpl. intros E. by apply app_eq_nil in E as [_ ?]. }
    assert (Hrooms : ∃ k,
      roomInfo (if (100 <? now tk - lastProcessTime room)%Z
                then let '(st2, (ev, call)) :=
                       startProcessMessageQueue tk (roomId data) st1 in
                     (st2, (QueuePush (roomId data) p :: ev, call))
                else (st1, ([QueuePush (roomId data) p], None))).1
      = <[roomId data := mkRoom (onlineUsers room)
                           (drop k (messageQueue room ++ [p]))
                           (lastProcessTime room)]> (roomInfo st)).
    { destruct (100 <? now tk - lastProcessTime room)%Z.
      - destruct (startProcessMessageQueue_queue tk (roomId data) st1 room1
                    Hroom1 Hq1) as (first & rest & w & _ & _ & Hr & _).
        destruct (startProcessMessageQueue tk (roomId data) st1)
          as [st2 [ev call]].
        cbn [fst] in *. exists batchSize. rewrite Hr.
        apply insert_insert_eq.
      - by exists 0. }
    destruct Hrooms as [k Hrooms]. rewrite Hrooms.
    destruct (decide (rid = roomId data)) as [->|Hne].
    + right. split; [done|]. exists room, k. split; [done|]. split; [done|].
      eexists. by rewrite lookup_insert_eq.
    + left. by rewrite lookup_insert_ne.
Qed.

Lemma sendDanmaku_userMessages tk socket data st :
  userMessages (sendDanmaku tk socket data st).1 = userMessages st.
Proof.
  unfold sendDanmaku.
  destruct (roomInfo st !! roomId data) as [room|] eqn:Hroom; [|done].
  destruct (100 <? length (messageQueue room)).
  - destruct (startProcessDanmaku_state tk socket data st) as (_ & Hu & _).
    by destruct (startProcessDanmaku tk socket data st) as [st1 w].
  - destruct (100 <? now tk - lastProcessTime room)%Z; [|done].
    match goal with
    | |- context [startProcessMessageQueue ?t ?r ?s] =>
        assert (Hu : userMessages (startProcessMessageQueue t r s).1
                     = userMessages s);
        [|by destruct (startProcessMessageQueue t r s) as [st2 [ev call]]]
    end.
    match goal with
    | |- context [startProcessMessageQueue ?t ?r ?s] =>
        destruct (decide (messageQueue
                            (mkRoom (onlineUsers room)
                               (messageQueue room ++ [mkPending socket data])
                               (lastProcessTime room)) = []))
          as [E|E]
    end.
    + simpl in E. by apply app_eq_nil in E as [_ ?].
    + eapply startProcessMessageQueue_queue in E as (? & ? & ? & _ & _ & _ & Hu);
        [exact Hu|apply lookup_insert_eq].
Qed.

Lemma sendDanmaku_bounded tk socket data st :
  userMessagesBounded (userMessages st) →
  userMessagesBounded (userMessages (sendDanmaku tk socket data st).1).
Proof. by rewrite sendDanmaku_userMessages. Qed.

(** One step of a call of [processDanmaku]: the rooms stay, and the
    remembered messages change at the broadcast only. *)
Lemma resumeProcessDanmaku_state tk socket data w st :
  let st1 := (resumeProcessDanmaku tk socket data w st).1 in
  roomInfo st1 = roomInfo st
  ∧ (userMessages st1 = userMessages st
     ∨ userMessages st1
       = remember (senderOf socket (danmaku data))
           (d_content (danmaku data)) (now tk) (userMessages st)).
Proof.
  assert (Hstart : ∀ c key ttl,
    let r := (let '(st1, w1) := startIncrWithExpire c key ttl (now tk) st in
              (st1, (@nil Event, Some w1))) in
    roomInfo r.1 = roomInfo st ∧ userMessages r.1 = userMessages st).
  { intros c key ttl.
    destruct (startIncrWithExpire_state c key ttl (now tk) st) as (? & ? & _).
    by destruct (startIncrWithExpire c key ttl (now tk) st). }
  assert (Hfilter : ∀ r,
    r = filterStep tk socket data st
    ∨ (∃ c, r = broadcastDanmaku tk socket data c st)
    ∨ (∃ n, r = sendFailed socket n st) →
    roomInfo r.1 = roomInfo st
    ∧ (userMessages r.1 = userMessages st
       ∨ userMessages r.1
         = remember (senderOf socket (danmaku data))
             (d_content (danmaku data)) (now tk) (userMessages st))).
  { intros r [->|[[c ->]|[n ->]]]; unfold filterStep, broadcastDanmaku;
      try destruct (truthy _); cbn; auto. }
  assert (Hafter : ∀ c result,
    let r := afterIncrWithExpire tk socket data c result st in
    roomInfo r.1 = roomInfo st
    ∧ (userMessages r.1 = userMessages st
       ∨ userMessages r.1
         = remember (senderOf socket (danmaku data))
             (d_content (danmaku data)) (now tk) (userMessages st))).
  { intros c result. cbv zeta. unfold afterIncrWithExpire, duplicateStep.
    destruct c; destruct (_ && _);
      try (by apply Hfilter; eauto);
      try (destruct (FilterRules.hashString _); [|by auto]);
      match goal with
      | |- context [startIncrWithExpire ?c ?k ?ttl _ _] =>
          destruct (Hstart c k ttl) as [? ?]; auto
      end. }
  cbv zeta. destruct w as [c fullKey ttl v|c result| |fr]; cbn.
  - destruct (v =? 1)%Z; [|apply Hafter].
    destruct (sendExpire_state c fullKey ttl v (now tk) st) as (? & ? & _).
    destruct (sendExpire c fullKey ttl v (now tk) st). cbn in *. auto.
  - apply Hafter.
  - apply Hfilter. auto.
  - destruct (FilterRules.allowed fr); apply Hfilter; eauto.
Qed.

Lemma resumeProcessDanmaku_bounded tk socket data w st :
  userMessagesBounded (userMessages st) →
  userMessagesBounded
    (userMessages (resumeProcessDanmaku tk socket data w st).1).
Proof.
  intros Hb.
  destruct (resumeProcessDanmaku_state tk socket data w st) as (_ & [->| ->]);
    [done|by apply remember_bounded].
Qed.

(** The head of an iteration of [processMessageQueue]: at most the time of
    the last drain changes. *)
Lemma nextInBatch_state tk rid registered batch st :
  let st1 := (nextInBatch tk rid registered batch st).1 in
  userMessages st1 = userMessages st
  ∧ (roomInfo st1 = roomInfo st
     ∨ ∃ room, roomInfo st !! rid = Some room
               ∧ roomInfo st1
                 = <[rid := mkRoom (onlineUsers room) (messageQueue room)
                              (now tk)]> (roomInfo st)).
Proof.
  cbv zeta. unfold nextInBatch. destruct batch as [|p rest].
  - destruct registered; [|by auto]. unfold setLastProcessTime.
    destruct (roomInfo st !! rid) as [room|] eqn:Hroom; [|by auto].
    cbn. split; [done|]. right. by exists room.
  - destruct (startProcessDanmaku_state tk (p_socket p) (p_data p) st)
      as (Hr & Hu & _).
    destruct (startProcessDanmaku tk (p_socket p) (p_data p) st).
    cbn in *. auto.
Qed.

(** One step of a call under way: no queue changes. *)
Lemma resume_state tk call st :
  let st1 := (resume tk call st).1 in
  (userMessages st1 = userMessages st
   ∨ ∃ u c, userMessages st1 = remember u c (now tk) (userMessages st))
  ∧ (roomInfo st1 = roomInfo st
     ∨ ∃ rid room, roomInfo st !! rid = Some room
                   ∧ roomInfo st1
                     = <[rid := mkRoom (onlineUsers room) (messageQueue room)
                                  (now tk)]> (roomInfo st)).
Proof.
  cbv zeta. destruct call as [socket data w|rid registered [[p w]|] rest];
    cbn [resume].
  - destruct (resumeProcessDanmaku_state tk socket data w st) as (Hr & Hu).
    destruct (resumeProcessDanmaku tk socket data w st) as [st1 [ev w1]].
    cbn [fst] in *. split; [|by left].
    destruct Hu as [->| ->]; eauto.
  - destruct (resumeProcessDanmaku_state tk (p_socket p) (p_data p) w st)
      as (Hr & Hu).
    destruct (resumeProcessDanmaku tk (p_socket p) (p_data p) w st)
      as [st1 [ev w1]].
    cbn [fst] in *. split; [|by left].
    destruct Hu as [->| ->]; eauto.
  - destruct (nextInBatch_state tk rid registered rest st) as (Hu & Hr).
    split; [by left|]. destruct Hr as [?|(room & ? & ?)]; eauto.
Qed.

Lemma queuesBounded_touch rooms rid room t :
  queuesBounded rooms → rooms !! rid = Some room →
  queuesBounded
    (<[rid := mkRoom (onlineUsers room) (messageQueue room) t]> rooms).
Proof.
  intros Hb Hroom rid' room' Hl.
  destruct (decide (rid = rid')) as [<-|Hne].
  - rewrite lookup_insert_eq in Hl. injection Hl as <-. simpl.
    by eapply Hb.
  - rewrite lookup_insert_ne in Hl by done. by eapply Hb.
Qed.

Lemma resume_queues tk call st :
  queuesBounded (roomInfo st) → queuesBounded (roomInfo (resume tk call st).1).
Proof.
  intros Hb.
  destruct (resume_state tk call st) as (_ & [->|(rid & room & Hroom & ->)]);
    [done|by apply queuesBounded_touch].
Qed.

Lemma resume_bounded tk call st :
  userMessagesBounded (userMessages st) →
  userMessagesBounded (userMessages (resume tk call st).1).
Proof.
  intros Hb.
  destruct (resume_state tk call st) as ([->|(u & c & ->)] & _);
    [done|by apply remember_bounded].
Qed.

(** [processMessageQueue] up to its first [await]: the remembered messages
    stay, and the room's queue loses its batch. *)
Lemma startProcessMessageQueue_state tk rid st :
  let st1 := (startProcessMessageQueue tk rid st).1 in
  userMessages st1 = userMessages st
  ∧ (roomInfo st1 = roomInfo st
     ∨ ∃ room, roomInfo st !! rid = Some room
               ∧ roomInfo st1
                 = <[rid := mkRoom (onlineUsers room)
                              (drop batchSize (messageQueue room))
                              (lastProcessTime room)]> (roomInfo st)).
Proof.
  cbv zeta.
  destruct (roomInfo st !! rid) as [room|] eqn:Hroom.
  - destruct (decide (messageQueue room = [])) as [Hq|Hq].
    + rewrite startProcessMessageQueue_idle by eauto. auto.
    + destruct (startProcessMessageQueue_queue tk rid st room Hroom Hq)
        as (p & rest & w & _ & _ & Hr & Hu).
      split; [done|]. right. by exists room.
  - rewrite startProcessMessageQueue_idle by auto. auto.
Qed.

Lemma startProcessMessageQueue_queues tk rid st :
  queuesBounded (roomInfo st) →
  queuesBounded (roomInfo (startProcessMessageQueue tk rid st).1).
Proof.
  intros Hb.
  destruct (startProcessMessageQueue_state tk rid st)
    as (_ & [->|(room & Hroom & ->)]); [done|].
  intros rid' room' Hl.
  destruct (decide (rid = rid')) as [<-|Hne].
  - rewrite lookup_insert_eq in Hl. injection Hl as <-. simpl.
    rewrite length_drop. specialize (Hb _ _ Hroom). lia.
  - rewrite lookup_insert_ne in Hl by done. by eapply Hb.
Qed.

Lemma sendDanmaku_queues tk socket data st :
  queuesBounded (roomInfo st) →
  queuesBounded (roomInfo (sendDanmaku tk socket data st).1).
Proof.
  intros Hb rid room' Hl.
  destruct (sendDanmaku_rooms tk socket data st rid)
    as [Hsame|(_ & room & k & Hroom & Hlen & room1 & Hl1 & _ & Hq)].
  - rewrite Hsame in Hl. by eapply Hb.
  - rewrite Hl1 in Hl. injection Hl as <-.
    rewrite Hq, length_drop, length_app. simpl. lia.
Qed.

Lemma processMessageQueue_queues ticks rid st :
  queuesBounded (roomInfo st) →
  queuesBounded (roomInfo (processMessageQueue ticks rid st).1).
Proof.
  intros Hb rid' room' Hl.
  rewrite processMessageQueue_rooms in Hl.
  destruct (roomInfo st !! rid) as [room|] eqn:Hroom; [|by eapply Hb].
  destruct (length (messageQueue room) =? 0); [by eapply Hb|].
  destruct (decide (rid = rid')) as [<-|Hne].
  - rewrite lookup_insert_eq in Hl. injection Hl as <-. simpl.
    rewrite length_drop. specialize (Hb _ _ Hroom). lia.
  - rewrite lookup_insert_ne in Hl by done. by eapply Hb.
Qed.

Lemma joinRoom_queues t socket rid st :
  queuesBounded (roomInfo st) →
  queuesBounded (roomInfo (joinRoom t socket rid st).1).
Proof.
  intros Hb rid' room' Hl. unfold joinRoom, initRoom in Hl.
  cbn [fst roomInfo setRooms] in Hl.
  destruct (roomInfo st !! rid) as [room|] eqn:Hroom.
  - rewrite Hroom in Hl.
    destruct (decide (rid = rid')) as [<-|Hne].
    + rewrite lookup_insert_eq in Hl. injection Hl as <-. simpl.
      by eapply Hb.
    + rewrite lookup_insert_ne in Hl by done. by eapply Hb.
  - rewrite lookup_insert_eq in Hl.
    destruct (decide (rid = rid')) as [<-|Hne].
    + rewrite lookup_insert_eq in Hl. injection Hl as <-. simpl. lia.
    + rewrite !lookup_insert_ne in Hl by done. by eapply Hb.
Qed.

Lemma leaveRoom_queues socket rid st :
  queuesBounded (roomInfo st) →
  queuesBounded (roomInfo (leaveRoom socket rid st).1).
Proof.
  intros Hb rid' room' Hl. unfold leaveRoom in Hl.
  destruct (roomInfo st !! rid) as [room|] eqn:Hroom; [|by eapply Hb].
  cbn [fst roomInfo setRooms] in Hl.
  destruct (keepRoom (removeUser socket room)).
  - destruct (decide (rid = rid')) as [<-|Hne].
    + rewrite lookup_insert_eq in Hl. injection Hl as <-. simpl.
      by eapply Hb.
    + rewrite lookup_insert_ne in Hl by done. by eapply Hb.
  - apply lookup_delete_Some in Hl as [Hne Hl].
    rewrite lookup_insert_ne in Hl by done. by eapply Hb.
Qed.

Lemma disconnect_queues socket st :
  queuesBounded (roomInfo st) →
  queuesBounded (roomInfo (disconnect socket st).1).
Proof.
  intros Hb rid room' Hl. cbn [disconnect fst roomInfo setRooms setUserMessages]
    in Hl.
  rewrite lookup_omap in Hl.
  destruct (roomInfo st !! rid) as [room|] eqn:Hroom; [|done].
  simpl in Hl. unfold disconnectRoom in Hl.
  specialize (Hb _ _ Hroom).
  destruct (bool_decide (socket ∈ onlineUsers room)).
  - destruct (keepRoom (removeUser socket room)); [|done].
    by injection Hl as <-.
  - by injection Hl as <-.
Qed.

Lemma disconnect_bounded socket st :
  userMessagesBounded (userMessages st) →
  userMessagesBounded (userMessages (disconnect socket st).1).
Proof.
  intros Hb u l. cbn [disconnect fst userMessages setUserMessages]. intros Hl.
  apply lookup_delete_Some in Hl as [_ Hl]. by eapply Hb.
Qed.

Lemma cleanupUserMessages_lookup t um u l :
  cleanupUserMessages t um !! u = Some l →
  ∃ l0, um !! u = Some l0
        ∧ l = filter (λ msg, (t - msg.2 < 60000)%Z) l0 ∧ l ≠ [].
Proof.
  intros Hl. unfold cleanupUserMessages in Hl. rewrite lookup_omap in Hl.
  destruct (um !! u) as [l0|]; [|done].
  simpl in Hl. exists l0. split; [done|].
  destruct (0 <? length (filter _ l0)) eqn:E; [|done].
  injection Hl as <-. split; [done|].
  apply Nat.ltb_lt in E. intros E0. rewrite E0 in E. simpl in E. lia.
Qed.

Lemma cleanupUserMessages_bounded t um :
  userMessagesBounded um → userMessagesBounded (cleanupUserMessages t um).
Proof.
  intros Hb u l Hl.
  destruct (cleanupUserMessages_lookup t um u l Hl) as (l0 & Hl0 & -> & _).
  etrans; [apply length_filter|]. by eapply Hb.
Qed.

(** Whatever comes to the backend, the two bounds are kept. *)
Lemma step_bounded i b :
  userMessagesBounded (userMessages (memory b)) →
  userMessagesBounded (userMessages (memory (step i b))).
Proof.
  intros Hu. destruct i as [t s r|s r|tk s d|s|tk r|t|k tk]; cbn [step].
  - done.
  - cbn [memory]. unfold leaveRoom.
    by destruct (roomInfo (memory b) !! r).
  - pose proof (sendDanmaku_bounded tk s d (memory b) Hu).
    by destruct (sendDanmaku tk s d (memory b)) as [st1 [ev call]].
  - by apply disconnect_bounded.
  - destruct (startProcessMessageQueue_state tk r (memory b)) as (Hum & _).
    destruct (startProcessMessageQueue tk r (memory b)) as [st1 [ev call]].
    cbn [memory fst] in *. by rewrite Hum.
  - by apply cleanupUserMessages_bounded.
  - destruct (underway b !! k) as [call|]; [|done].
    pose proof (resume_bounded tk call (memory b) Hu).
    by destruct (resume tk call (memory b)) as [st1 [ev call']].
Qed.

Lemma step_queues i b :
  queuesBounded (roomInfo (memory b)) →
  queuesBounded (roomInfo (memory (step i b))).
Proof.
  intros Hq. destruct i as [t s r|s r|tk s d|s|tk r|t|k tk]; cbn [step].
  - by apply joinRoom_queues.
  - by apply leaveRoom_queues.
  - pose proof (sendDanmaku_queues tk s d (memory b) Hq).
    by destruct (sendDanmaku tk s d (memory b)) as [st1 [ev call]].
  - by apply disconnect_queues.
  - pose proof (startProcessMessageQueue_queues tk r (memory b) Hq).
    by destruct (startProcessMessageQueue tk r (memory b)) as [st1 [ev call]].
  - done.
  - destruct (underway b !! k) as [call|]; [|done].
    pose proof (resume_queues tk call (memory b) Hq).
    by destruct (resume tk call (memory b)) as [st1 [ev call']].
Qed.

Lemma run_bounded inputs b :
  userMessagesBounded (userMessages (memory b)) →
  userMessagesBounded (userMessages (memory (run inputs b))).
Proof.
  revert b. induction inputs as [|i inputs IH]; intros b Hu; [done|].
  by apply IH, step_bounded.
Qed.

Lemma run_queues inputs b :
  queuesBounded (roomInfo (memory b)) →
  queuesBounded (roomInfo (memory (run inputs b))).
Proof.
  revert b. induction inputs as [|i inputs IH]; intros b Hq; [done|].
  by apply IH, step_queues.
Qed.

End RoomState.

(** X13: no sender ever has more than ten remembered messages: the bound
    holds at start-up and is kept by [processDanmaku], by
    [processMessageQueue], by the ['send-danmaku'] and ['disconnect']
    handlers and by the one-minute timer; after the timer every sender left
    has at least one message, and all of those are younger than a minute.
    The bound is also kept by every step of a call under way, and so by
    whatever comes to the backend, in whatever order. *)
Theorem X13_remembered_messages_bounded (st : SocketHandlers.State) :
  userMessagesBounded (SocketHandlers.userMessages st) →
  (∀ tk socket data,
     userMessagesBounded
       (SocketHandlers.userMessages
          (SocketHandlers.processDanmaku tk socket data st).1))
  ∧ (∀ ticks rid,
       userMessagesBounded
         (SocketHandlers.userMessages
            (SocketHandlers.processMessageQueue ticks rid st).1))
  ∧ (∀ tk socket data,
       userMessagesBounded
         (SocketHandlers.userMessages
            (SocketHandlers.sendDanmaku tk socket data st).1))
  ∧ (∀ socket,
       userMessagesBounded
         (SocketHandlers.userMessages (SocketHandlers.disconnect socket st).1))
  ∧ (∀ t,
       userMessagesBounded
         (SocketHandlers.cleanupUserMessages t (SocketHandlers.userMessages st))
       ∧ ∀ u l,
           SocketHandlers.cleanupUserMessages t
             (SocketHandlers.userMessages st) !! u = Some l →
           l ≠ [] ∧ Forall (λ msg, (t - msg.2 < 60000)%Z) l)
  ∧ (∀ tk call,
       userMessagesBounded
         (SocketHandlers.userMessages (SocketHandlers.resume tk call st).1))
  ∧ (∀ inputs calls,
       userMessagesBounded
         (SocketHandlers.userMessages
            (SocketHandlers.memory
               (SocketHandlers.run inputs
                  (SocketHandlers.mkBackend st calls))))).
Proof.
  intros Hb. split; [|split; [|split; [|split; [|split; [|split]]]]].
  - intros. by apply processDanmaku_bounded.
  - intros. by apply processMessageQueue_bounded.
  - intros. by apply sendDanmaku_bounded.
  - intros. by apply disconnect_bounded.
  - intros t. split; [by apply cleanupUserMessages_bounded|].
    intros u l Hl.
    destruct (cleanupUserMessages_lookup t _ u l Hl) as (l0 & Hl0 & -> & Hne).
    split; [done|]. apply Forall_forall. intros msg Hmsg.
    by apply list_elem_of_filter in Hmsg as [? _].
  - intros. by apply resume_bounded.
  - intros. by apply run_bounded.
Qed.

Lemma X13_remembered_messages_bounded_witness :
  (∀ tk socket data,
     userMessagesBounded
       (SocketHandlers.userMessages
          (SocketHandlers.processDanmaku tk socket data (startState None)).1))
  ∧ (∀ ticks rid,
       userMessagesBounded
         (SocketHandlers.userMessages
            (SocketHandlers.processMessageQueue ticks rid (startState None)).1))
  ∧ (∀ tk socket data,
       userMessagesBounded
         (SocketHandlers.userMessages
            (SocketHandlers.sendDanmaku tk socket data (startState None)).1))
  ∧ (∀ socket,
       userMessagesBounded
         (SocketHandlers.userMessages
            (SocketHandlers.disconnect socket (startState None)).1))
  ∧ (∀ t,
       userMessagesBounded
         (SocketHandlers.cleanupUserMessages t
            (SocketHandlers.userMessages (startState None)))
       ∧ ∀ u l,
           SocketHandlers.cleanupUserMessages t
             (SocketHandlers.userMessages (startState None)) !! u = Some l →
           l ≠ [] ∧ Forall (λ msg, (t - msg.2 < 60000)%Z) l)
  ∧ (∀ tk call,
       userMessagesBounded
         (SocketHandlers.userMessages
            (SocketHandlers.resume tk call (startState None)).1))
  ∧ (∀ inputs calls,
       userMessagesBounded
         (SocketHandlers.userMessages
            (SocketHandlers.memory
               (SocketHandlers.run inputs
                  (SocketHandlers.mkBackend (startState None) calls))))).
Proof.
  apply (X13_remembered_messages_bounded (startState None)).
  intros u l Hl. simpl in Hl. rewrite lookup_empty in Hl. discriminate Hl.
Defined.

(** X14: one run of [processMessageQueue] takes the first 50 messages of
    the room's queue, or all of them when there are fewer, and calls
    [processDanmaku] on them in queue order; each of them is answered by
    exactly one event, in the same order, a notice to its own socket or a
    broadcast to its own room.  The rest of the queue stays, the members
    stay, and no other room is touched; on an empty queue nothing
    happens. *)
Theorem X14_queue_drained_in_order (ticks : nat → SocketHandlers.Tick)
    (rid : jsstring) (st : SocketHandlers.State) (room : SocketHandlers.Room) :
  SocketHandlers.roomInfo st !! rid = Some room →
  let q := SocketHandlers.messageQueue room in
  let batch := take SocketHandlers.batchSize q in
  let res := SocketHandlers.processMessageQueue ticks rid st in
  calls res.2 = batch
  ∧ Forall2 answers batch (emitted res.2)
  ∧ (q ≠ [] →
     SocketHandlers.roomInfo res.1 !! rid
     = Some (SocketHandlers.mkRoom (SocketHandlers.onlineUsers room)
               (drop SocketHandlers.batchSize q)
               (SocketHandlers.now (ticks (length batch)))))
  ∧ (q = [] → res = (st, []))
  ∧ (∀ rid', rid' ≠ rid →
       SocketHandlers.roomInfo res.1 !! rid'
       = SocketHandlers.roomInfo st !! rid').
Proof.
  intros Hroom q batch res.
  pose proof (processMessageQueue_rooms ticks rid st) as Hrooms.
  fold res in Hrooms. rewrite Hroom in Hrooms. fold q batch in Hrooms.
  assert (Hev : calls res.2 = batch ∧ Forall2 answers batch (emitted res.2)).
  { unfold res, SocketHandlers.processMessageQueue. rewrite Hroom.
    fold q batch.
    destruct (length q =? 0) eqn:E.
    - apply Nat.eqb_eq in E. unfold batch.
      destruct q; [|done]. split; [done|constructor].
    - match goal with
      | |- context [SocketHandlers.processBatch ?t ?k ?b ?s] =>
          pose proof (processBatch_events t k b s) as Hb;
          destruct (SocketHandlers.processBatch t k b s) as [st1 ev]
      end.
      done. }
  destruct Hev as [Hc He].
  split; [done|]. split; [done|]. split; [|split].
  - intros Hne. rewrite Hrooms.
    destruct (length q =? 0) eqn:E.
    + apply Nat.eqb_eq in E. by destruct q.
    + by rewrite lookup_insert_eq.
  - intros Hq. unfold res, SocketHandlers.processMessageQueue.
    rewrite Hroom. fold q. by rewrite Hq.
  - intros rid' Hne. rewrite Hrooms.
    destruct (length q =? 0); [done|]. by rewrite lookup_insert_ne.
Qed.

Lemma X14_queue_drained_in_order_witness :
  let p1 := SocketHandlers.mkPending (lit "s1")
              (textMessage (lit "r1") (lit "A")) in
  let p2 := SocketHandlers.mkPending (lit "s2")
              (textMessage (lit "r1") (lit "spam")) in
  let room := SocketHandlers.mkRoom {[ lit "s1" ]} [p1; p2] 0 in
  let st := oneRoomState [p1; p2] in
  let q := SocketHandlers.messageQueue room in
  let batch := take SocketHandlers.batchSize q in
  let res := SocketHandlers.processMessageQueue (ticksFrom 0) (lit "r1") st in
  calls res.2 = batch
  ∧ Forall2 answers batch (emitted res.2)
  ∧ (q ≠ [] →
     SocketHandlers.roomInfo res.1 !! lit "r1"
     = Some (SocketHandlers.mkRoom (SocketHandlers.onlineUsers room)
               (drop SocketHandlers.batchSize q)
               (SocketHandlers.now (ticksFrom 0 (length batch)))))
  ∧ (q = [] → res = (st, []))
  ∧ (∀ rid', rid' ≠ lit "r1" →
       SocketHandlers.roomInfo res.1 !! rid'
       = SocketHandlers.roomInfo st !! rid').
Proof.
  intros p1 p2 room st.
  apply (X14_queue_drained_in_order (ticksFrom 0) (lit "r1") st room).
  vm_compute. reflexivity.
Defined.

Section RoomTheorems.

Import SocketHandlers.

Lemma removeUser_last_iff socket room :
  socket ∈ onlineUsers room →
  keepRoom (removeUser socket room) = false
  ↔ onlineUsers room = {[socket]} ∧ messageQueue room = [].
Proof.
  intros Hin. unfold keepRoom, removeUser. simpl.
  rewrite negb_false_iff, andb_true_iff, !Nat.eqb_eq.
  rewrite size_empty_iff, length_zero_iff_nil. split.
  - intros [Hs Hq]. split; [|done]. apply set_eq. intros x.
    rewrite elem_of_singleton. split; [|by intros ->].
    intros Hx. destruct (decide (x = socket)) as [|Hne]; [done|].
    exfalso. apply (not_elem_of_empty (C := gset jsstring) x).
    rewrite <- Hs. set_solver.
  - intros [Hs Hq]. split; [|done]. rewrite Hs. set_solver.
Qed.

Lemma joinRoom_shape t socket rid st :
  ∃ room',
    roomInfo (joinRoom t socket rid st).1 = <[rid := room']> (roomInfo st)
    ∧ (joinRoom t socket rid st).2 = [OnlineCount rid (size (onlineUsers room'))]
    ∧ socket ∈ onlineUsers room'
    ∧ (∀ room, roomInfo st !! rid = Some room →
         room' = mkRoom ({[socket]} ∪ onlineUsers room) (messageQueue room)
                   (lastProcessTime room))
    ∧ (roomInfo st !! rid = None → room' = mkRoom {[socket]} [] t).
Proof.
  unfold joinRoom, initRoom, updateOnlineCount.
  cbn [fst snd roomInfo setRooms].
  destruct (roomInfo st !! rid) as [room|] eqn:Hroom.
  - rewrite Hroom. eexists. rewrite lookup_insert_eq.
    split; [done|]. split; [done|]. split; [simpl; set_solver|].
    split; [by intros ? [= <-]|done].
  - rewrite !lookup_insert_eq.
    eexists. split; [apply insert_insert_eq|]. split; [done|].
    split; [simpl; set_solver|]. split; [done|]. intros _. simpl.
    by rewrite (right_id_L ∅ (∪)).
Qed.

(** X15: no room's queue ever holds more than 101 messages: the bound is
    kept by the ['send-danmaku'] handler, which stops pushing once the
    queue holds more than 100, and by [processMessageQueue] and the
    ['join-room'], ['leave-room'] and ['disconnect'] handlers.  It is also
    kept by every step of a call under way, and so by whatever comes to
    the backend, in whatever order. *)
Theorem X15_queue_never_exceeds_101 (st : State) :
  queuesBounded (roomInfo st) →
  (∀ tk socket data,
     queuesBounded (roomInfo (sendDanmaku tk socket data st).1))
  ∧ (∀ ticks rid, queuesBounded (roomInfo (processMessageQueue ticks rid st).1))
  ∧ (∀ t socket rid, queuesBounded (roomInfo (joinRoom t socket rid st).1))
  ∧ (∀ socket rid, queuesBounded (roomInfo (leaveRoom socket rid st).1))
  ∧ (∀ socket, queuesBounded (roomInfo (disconnect socket st).1))
  ∧ (∀ tk call, queuesBounded (roomInfo (resume tk call st).1))
  ∧ (∀ inputs calls,
       queuesBounded (roomInfo (memory (run inputs (mkBackend st calls))))).
Proof.
  intros Hb. split; [|split; [|split; [|split; [|split; [|split]]]]]; intros.
  - by apply sendDanmaku_queues.
  - by apply processMessageQueue_queues.
  - by apply joinRoom_queues.
  - by apply leaveRoom_queues.
  - by apply disconnect_queues.
  - by apply resume_queues.
  - by apply run_queues.
Qed.

Lemma X15_queue_never_exceeds_101_witness :
  (∀ tk socket data,
     queuesBounded (roomInfo (sendDanmaku tk socket data (oneRoomState [])).1))
  ∧ (∀ ticks rid,
       queuesBounded (roomInfo (processMessageQueue ticks rid (oneRoomState [])).1))
  ∧ (∀ t socket rid,
       queuesBounded (roomInfo (joinRoom t socket rid (oneRoomState [])).1))
  ∧ (∀ socket rid,
       queuesBounded (roomInfo (leaveRoom socket rid (oneRoomState [])).1))
  ∧ (∀ socket, queuesBounded (roomInfo (disconnect socket (oneRoomState [])).1))
  ∧ (∀ tk call,
       queuesBounded (roomInfo (resume tk call (oneRoomState [])).1))
  ∧ (∀ inputs calls,
       queuesBounded
         (roomInfo (memory (run inputs (mkBackend (oneRoomState []) calls))))).
Proof.
  apply (X15_queue_never_exceeds_101 (oneRoomState [])).
  intros rid room Hl. unfold oneRoomState in Hl. cbn [roomInfo] in Hl.
  apply lookup_singleton_Some in Hl as [_ <-]. simpl. lia.
Defined.

(** X16: after ['disconnect'] the socket is a member of no room; a room it
    was not in is untouched; a room it was in keeps its other members and
    its queue, and is deleted exactly when the socket was its only member
    and its queue is empty; the socket's remembered messages are gone. *)
Theorem X16_disconnect_leaves_every_room (socket : jsstring) (st : State) :
  let res := disconnect socket st in
  (∀ rid room',
     roomInfo res.1 !! rid = Some room' →
     (socket ∉ onlineUsers room')
     ∧ ∃ room,
         roomInfo st !! rid = Some room
         ∧ onlineUsers room' = onlineUsers room ∖ {[socket]}
         ∧ messageQueue room' = messageQueue room)
  ∧ (∀ rid room,
       roomInfo st !! rid = Some room → socket ∉ onlineUsers room →
       roomInfo res.1 !! rid = Some room)
  ∧ (∀ rid room,
       roomInfo st !! rid = Some room → socket ∈ onlineUsers room →
       (roomInfo res.1 !! rid = None
        ↔ onlineUsers room = {[socket]} ∧ messageQueue room = []))
  ∧ userMessages res.1 !! socket = None.
Proof.
  cbv zeta. split; [|split; [|split]].
  - intros rid room' Hl. simpl in Hl. rewrite lookup_omap in Hl.
    destruct (roomInfo st !! rid) as [room|] eqn:Hroom; [|done].
    simpl in Hl. unfold disconnectRoom in Hl.
    case_bool_decide as Hin.
    + destruct (keepRoom (removeUser socket room)); [|done].
      injection Hl as <-. simpl. split; [set_solver|]. by exists room.
    + injection Hl as <-. split; [done|]. exists room.
      split; [done|]. split; [|done]. apply set_eq. set_solver.
  - intros rid room Hroom Hnin. simpl. rewrite lookup_omap, Hroom. simpl.
    unfold disconnectRoom. by rewrite bool_decide_false.
  - intros rid room Hroom Hin. simpl. rewrite lookup_omap, Hroom. simpl.
    unfold disconnectRoom. rewrite bool_decide_true by done.
    rewrite <- (removeUser_last_iff socket room Hin).
    by destruct (keepRoom (removeUser socket room)).
  - simpl. apply lookup_delete_eq.
Qed.

(** X17: [processMessageQueue] never removes a room.  When the only member
    of a room leaves while messages are queued, the room stays; once a run
    of [processMessageQueue] has taken the last of them, the room is still
    in [roomInfo], with no member and an empty queue. *)
Theorem X17_drained_room_stays_registered (ticks : nat → Tick)
    (socket rid : jsstring) (st : State) (room : Room) :
  roomInfo st !! rid = Some room →
  onlineUsers room = {[socket]} →
  messageQueue room ≠ [] →
  length (messageQueue room) ≤ batchSize →
  let st1 := (leaveRoom socket rid st).1 in
  let st2 := (processMessageQueue ticks rid st1).1 in
  roomInfo st1 !! rid
  = Some (mkRoom ∅ (messageQueue room) (lastProcessTime room))
  ∧ roomInfo st2 !! rid
    = Some (mkRoom ∅ [] (now (ticks (length (messageQueue room)))))
  ∧ (∀ ticks' rid' st',
       dom (roomInfo (processMessageQueue ticks' rid' st').1)
       = dom (roomInfo st')).
Proof.
  intros Hroom Hu Hq Hlen st1 st2.
  assert (H1 : roomInfo st1 !! rid
               = Some (mkRoom ∅ (messageQueue room) (lastProcessTime room))).
  { unfold st1, leaveRoom. rewrite Hroom. cbn [fst roomInfo setRooms].
    assert (Hk : keepRoom (removeUser socket room) = true).
    { unfold keepRoom, removeUser. simpl.
      destruct (messageQueue room); [done|]. simpl. by rewrite andb_false_r. }
    rewrite Hk, lookup_insert_eq. unfold removeUser. rewrite Hu.
    by rewrite difference_diag_L. }
  split; [done|]. split.
  - unfold st2. rewrite processMessageQueue_rooms, H1.
    cbn [messageQueue onlineUsers].
    replace (length (messageQueue room) =? 0) with false
      by (symmetry; apply Nat.eqb_neq; by destruct (messageQueue room)).
    rewrite lookup_insert_eq, drop_ge, take_ge by done. done.
  - intros ticks' rid' st'. rewrite processMessageQueue_rooms.
    destruct (roomInfo st' !! rid') as [room'|] eqn:Hr; [|done].
    destruct (length (messageQueue room') =? 0); [done|].
    rewrite dom_insert_lookup_L; [done|]. by rewrite Hr.
Qed.

Lemma X17_drained_room_stays_registered_witness :
  let p := mkPending (lit "s1") (textMessage (lit "r1") (lit "A")) in
  let room := mkRoom {[ lit "s1" ]} [p] 0 in
  let st := oneRoomState [p] in
  let st1 := (leaveRoom (lit "s1") (lit "r1") st).1 in
  let st2 := (processMessageQueue (ticksFrom 0) (lit "r1") st1).1 in
  roomInfo st1 !! lit "r1"
  = Some (mkRoom ∅ (messageQueue room) (lastProcessTime room))
  ∧ roomInfo st2 !! lit "r1"
    = Some (mkRoom ∅ [] (now (ticksFrom 0 (length (messageQueue room)))))
  ∧ (∀ ticks' rid' st',
       dom (roomInfo (processMessageQueue ticks' rid' st').1)
       = dom (roomInfo st')).
Proof.
  intros p room st.
  apply (X17_drained_room_stays_registered (ticksFrom 0) (lit "s1")
           (lit "r1") st room).
  - vm_compute. reflexivity.
  - reflexivity.
  - discriminate.
  - vm_compute. lia.
Defined.

(** X18: ['join-room'] puts the socket into the room and reports the new
    number of members to the room.  An existing room keeps its members,
    its queue and its drain time; a missing room is created with the
    socket as only member.  No other room is touched, and joining twice is
    the same as joining once. *)
Theorem X18_join_adds_one_member (t : Z) (socket rid : jsstring) (st : State) :
  let res := joinRoom t socket rid st in
  ∃ room',
    roomInfo res.1 !! rid = Some room'
    ∧ socket ∈ onlineUsers room'
    ∧ res.2 = [OnlineCount rid (size (onlineUsers room'))]
    ∧ (∀ room, roomInfo st !! rid = Some room →
         room' = mkRoom ({[socket]} ∪ onlineUsers room) (messageQueue room)
                   (lastProcessTime room))
    ∧ (roomInfo st !! rid = None → room' = mkRoom {[socket]} [] t)
    ∧ (∀ rid', rid' ≠ rid → roomInfo res.1 !! rid' = roomInfo st !! rid')
    ∧ (∀ t', roomInfo (joinRoom t' socket rid res.1).1 = roomInfo res.1).
Proof.
  cbv zeta.
  destruct (joinRoom_shape t socket rid st)
    as (room' & Hrooms & Hev & Hin & Hold & Hnew).
  exists room'. rewrite Hrooms, lookup_insert_eq.
  split; [done|]. split; [done|]. split; [done|]. split; [done|].
  split; [done|]. split.
  - intros rid' Hne. by rewrite lookup_insert_ne.
  - intros t'. unfold joinRoom at 1, initRoom. cbn [fst roomInfo setRooms].
    rewrite Hrooms, !lookup_insert_eq. rewrite insert_insert_eq.
    f_equal. destruct room' as [users q lt]. simpl in *. f_equal.
    apply set_eq. set_solver.
Qed.

(** X19: leaving right after joining gives back the rooms as they were,
    when the socket was not a member before and the room, if it existed,
    had a member or a queued message. *)
Theorem X19_leave_undoes_join (t : Z) (socket rid : jsstring) (st : State) :
  (∀ room, roomInfo st !! rid = Some room →
           (socket ∉ onlineUsers room) ∧ keepRoom room = true) →
  roomInfo (leaveRoom socket rid (joinRoom t socket rid st).1).1 = roomInfo st.
Proof.
  intros Hpre.
  destruct (joinRoom_shape t socket rid st)
    as (room' & Hrooms & _ & _ & Hold & Hnew).
  set (st1 := (joinRoom t socket rid st).1) in *. clearbody st1.
  unfold leaveRoom. rewrite Hrooms, lookup_insert_eq.
  cbn [fst roomInfo setRooms]. rewrite insert_insert_eq.
  destruct (roomInfo st !! rid) as [room|] eqn:Hroom.
  - destruct (Hpre room eq_refl) as [Hnin Hkeep].
    rewrite (Hold room eq_refl).
    assert (Hsame : removeUser socket
                      (mkRoom ({[socket]} ∪ onlineUsers room)
                         (messageQueue room) (lastProcessTime room)) = room).
    { unfold removeUser. destruct room as [users q lt]. simpl in *. f_equal.
      apply set_eq. set_solver. }
    rewrite Hsame, Hkeep. by apply insert_id.
  - rewrite (Hnew eq_refl).
    assert (Hk : keepRoom (removeUser socket (mkRoom {[socket]} [] t)) = false).
    { unfold keepRoom, removeUser. cbn [onlineUsers messageQueue].
      by rewrite difference_diag_L, size_empty. }
    rewrite Hk, delete_insert_eq. by apply delete_id.
Qed.

Lemma X19_leave_undoes_join_witness :
  roomInfo (leaveRoom (lit "s2") (lit "r1")
              (joinRoom 0 (lit "s2") (lit "r1") (oneRoomState [])).1).1
  = roomInfo (oneRoomState []).
Proof.
  apply (X19_leave_undoes_join 0 (lit "s2") (lit "r1") (oneRoomState [])).
  intros room Hl. unfold oneRoomState in Hl. cbn [roomInfo] in Hl.
  apply lookup_singleton_Some in Hl as [_ <-]. split.
  - cbn [onlineUsers]. apply not_elem_of_singleton. vm_compute. discriminate.
  - vm_compute. reflexivity.
Defined.

End RoomTheorems.
